(** * The intent-to-state mutation pipeline of mzhub-react

    A shallow embedding of
      - src/validation/schemaValidator.ts  (extractJson, validateResponse, ...)
      - src/validation/selfCorrection.ts   (executeWithCorrection)
      - src/validation/rollbackManager.ts  (RollbackManager)
      - src/utils/stateMachine.ts          (TRANSITIONS, calculateConfidence, ...)
      - src/hooks/useSemanticState.ts      (dispatch)
    and the properties of the specification stated over it.

    Conventions of the embedding.
      - A JavaScript string is the list of its UTF-16 code units, so that
        [.length], [.slice] and the index functions count what the code counts.
      - A state value that is only serialised is a JSON tree ([json]); where
        aliasing matters (the rollback manager) values live in a store of
        objects and are reached through references.
      - Numbers that count things (retries, snapshots, attempts) are natural
        numbers; indices that use the sentinel -1 are integers; the numbers of
        the confidence formula are exact rationals.
      - A computation that has effects or may throw is a function from the
        world it runs in to an outcome and the world it leaves. *)

From Stdlib Require Import ZArith NArith QArith Qminmax String Ascii List Lia.
From Stdlib Require Import DecimalString.
From stdpp Require Import base list option.
From Equations Require Import Equations.

Import ListNotations.
Local Open Scope Z_scope.
Set Warnings "-register-all".

(* ================================================================== *)
(** ** JavaScript strings *)
(* ================================================================== *)

Module JS.

(** A string is a list of UTF-16 code units. *)
Abbreviation jsstring := (list N).

(** A literal of the source, for the characters below U+0100. *)
Definition js (s : string) : jsstring :=
  map N_of_ascii (list_ascii_of_string s).

(** WhiteSpace and LineTerminator of ECMAScript: what [trim] strips and
    what the regular-expression class [\s] matches. *)
Definition isWhiteSpace (c : N) : bool :=
  (N.leb 9 c && N.leb c 13 || N.eqb c 32 || N.eqb c 160 || N.eqb c 5760
   || N.leb 8192 c && N.leb c 8202 || N.eqb c 8232 || N.eqb c 8233
   || N.eqb c 8239 || N.eqb c 8287 || N.eqb c 12288 || N.eqb c 65279)%bool.

Fixpoint dropWhile (p : N -> bool) (s : jsstring) : jsstring :=
  match s with
  | [] => []
  | c :: t => if p c then dropWhile p t else s
  end.

(** [s.trim()] *)
Definition trim (s : jsstring) : jsstring :=
  rev (dropWhile isWhiteSpace (rev (dropWhile isWhiteSpace s))).

(** [s.length], as the integer the code computes with. *)
Definition len (s : jsstring) : Z := Z.of_nat (length s).

(** [s.slice(a, b)]: a negative index counts from the end, both indices are
    clamped to the string, and an empty range gives the empty string. *)
Definition slice (s : jsstring) (a b : Z) : jsstring :=
  let from := if a <? 0 then Z.max (len s + a) 0 else Z.min a (len s) in
  let to := if b <? 0 then Z.max (len s + b) 0 else Z.min b (len s) in
  take (Z.to_nat (to - from)) (drop (Z.to_nat from) s).

Fixpoint isPrefix (p s : jsstring) : bool :=
  match p, s with
  | [], _ => true
  | c :: p', d :: s' => N.eqb c d && isPrefix p' s'
  | _ :: _, [] => false
  end.

(** [s.indexOf(p)] as an option: the first position where [p] occurs. *)
Fixpoint indexOf (p s : jsstring) : option nat :=
  if isPrefix p s then Some 0%nat
  else match s with
       | [] => None
       | _ :: t => S <$> indexOf p t
       end.

(** [s.search(/[...]/)] for a character class [p]: the first index whose
    code unit is in the class, or -1. *)
Fixpoint searchFrom (p : N -> bool) (s : jsstring) (i : Z) : Z :=
  match s with
  | [] => -1
  | c :: t => if p c then i else searchFrom p t (i + 1)
  end.

Definition search (p : N -> bool) (s : jsstring) : Z := searchFrom p s 0.

(** [s.lastIndexOf(c)] for a one-character [c]: the last index holding it,
    or -1. *)
Fixpoint lastIndexOfFrom (c : N) (s : jsstring) (i found : Z) : Z :=
  match s with
  | [] => found
  | d :: t => lastIndexOfFrom c t (i + 1) (if N.eqb d c then i else found)
  end.

Definition lastIndexOf (c : N) (s : jsstring) : Z := lastIndexOfFrom c s 0 (-1).

(** [parts.join(sep)] *)
Fixpoint join (sep : jsstring) (parts : list jsstring) : jsstring :=
  match parts with
  | [] => []
  | [p] => p
  | p :: rest => p ++ sep ++ join sep rest
  end.

(** [String(n)] for an integer [n]: its decimal digits. *)
Definition ofInt (n : Z) : jsstring := js (NilZero.string_of_int (Z.to_int n)).

Definition ofNat (n : nat) : jsstring := ofInt (Z.of_nat n).

End JS.

Import JS.

(* ================================================================== *)
(** ** JSON values and [JSON.stringify] *)
(* ================================================================== *)

(** A JSON-serialisable value.  Numbers are the integers (what the states of
    the specification hold); an object keeps its members in insertion
    order. *)
Inductive json : Type :=
| JNull
| JBool (b : bool)
| JNum (n : Z)
| JStr (s : jsstring)
| JArr (items : list json)
| JObj (members : list (jsstring * json)).

(** [Array.isArray(v)] *)
Definition isArray (v : json) : bool :=
  match v with JArr _ => true | _ => false end.

Definition hexDigit (d : N) : N :=
  if N.ltb d 10 then (48 + d)%N else (87 + d)%N.

(** The escape [\uXXXX] of a code unit, in lower-case hexadecimal. *)
Definition unicodeEscape (c : N) : jsstring :=
  [92; 117; hexDigit (N.modulo (N.div c 4096) 16); hexDigit (N.modulo (N.div c 256) 16);
   hexDigit (N.modulo (N.div c 16) 16); hexDigit (N.modulo c 16)]%N.

Definition isHighSurrogate (c : N) : bool := (N.leb 55296 c && N.leb c 56319)%bool.
Definition isLowSurrogate (c : N) : bool := (N.leb 56320 c && N.leb c 57343)%bool.

(** One code unit that is not a surrogate, inside a JSON string literal. *)
Definition quoteUnit (c : N) : jsstring :=
  if N.eqb c 8 then js "\b"
  else if N.eqb c 9 then js "\t"
  else if N.eqb c 10 then js "\n"
  else if N.eqb c 12 then js "\f"
  else if N.eqb c 13 then js "\r"
  else if N.eqb c 34 then [92; 34]%N
  else if N.eqb c 92 then [92; 92]%N
  else if N.ltb c 32 then unicodeEscape c
  else [c].

(** The body of QuoteJSONString: a surrogate pair is kept, a lone surrogate
    is escaped. *)
Fixpoint quoteUnits (s : jsstring) : jsstring :=
  match s with
  | [] => []
  | c :: t =>
      if isHighSurrogate c then
        match t with
        | d :: t' =>
            if isLowSurrogate d then c :: d :: quoteUnits t'
            else unicodeEscape c ++ quoteUnits t
        | [] => unicodeEscape c
        end
      else if isLowSurrogate c then unicodeEscape c ++ quoteUnits t
      else quoteUnit c ++ quoteUnits t
  end.

Definition quote (s : jsstring) : jsstring := [34%N] ++ quoteUnits s ++ [34%N].

(** [JSON.stringify(v)] *)
Fixpoint stringify (v : json) : jsstring :=
  match v with
  | JNull => js "null"
  | JBool true => js "true"
  | JBool false => js "false"
  | JNum n => ofInt n
  | JStr s => quote s
  | JArr items => js "[" ++ join (js ",") (map stringify items) ++ js "]"
  | JObj members =>
      js "{"
      ++ join (js ",")
           (map (fun m => quote (fst m) ++ js ":" ++ stringify (snd m)) members)
      ++ js "}"
  end.

(** [JSON.stringify(x)] where [x] may be [undefined]: the result is then
    [undefined], which a template literal prints as that word. *)
Definition stringifyOpt (x : option json) : jsstring :=
  match x with Some v => stringify v | None => js "undefined" end.

(* ================================================================== *)
(** ** Outcomes of calls that may throw *)
(* ================================================================== *)

(** An [Error], as far as the pipeline looks at it: its message. *)
Record Error : Type := { message : jsstring }.

(** [new Error(text)] *)
Definition newError (text : string) : Error := {| message := js text |}.

Inductive outcome (A : Type) : Type :=
| Returns (a : A)
| Throws (e : Error).

Arguments Returns {A} a.
Arguments Throws {A} e.

(* ================================================================== *)
(** ** Schema validator (schemaValidator.ts) *)
(* ================================================================== *)

Record ValidationError : Type := {
  ve_path : jsstring;
  ve_message : jsstring;
  ve_expected : jsstring;
  ve_received : option json
}.

Record ValidationResult : Type := {
  vr_success : bool;
  vr_data : option json;
  vr_errors : list ValidationError;
  vr_rawJson : jsstring
}.

(** The fragment of a text that the pattern
    [/```(?:json)?\s*([\s\S]*?)```/] captures, if the pattern matches.
    The match starts at the first fence; the optional word and the white
    space after it are consumed greedily and contain no backquote, so the
    capture runs from there to the next fence, and there is no match at all
    when no fence follows. *)
Definition fence : jsstring := js "```".

Definition codeBlockMatch (text : jsstring) : option jsstring :=
  match indexOf fence text with
  | None => None
  | Some i =>
      let afterFence := drop (i + 3) text in
      let afterWord :=
        if isPrefix (js "json") afterFence then drop 4 afterFence else afterFence in
      let body := dropWhile isWhiteSpace afterWord in
      match indexOf fence body with
      | None => None
      | Some q => Some (take q body)
      end
  end.

Definition isOpening (c : N) : bool := (N.eqb c 91 || N.eqb c 123)%bool.
Definition isClosing (c : N) : bool := (N.eqb c 93 || N.eqb c 125)%bool.

(** [extractJson(response)] *)
Definition extractJson (response : jsstring) : jsstring :=
  match response with
  | [] => []
  | _ =>
      let text := trim response in
      let text :=
        match codeBlockMatch text with
        | Some captured => trim captured
        | None => text
        end in
      let jsonStart := search isOpening text in
      let jsonEndBracket := lastIndexOf 93 text in
      let jsonEndBrace := lastIndexOf 125 text in
      let jsonEnd := Z.max jsonEndBracket jsonEndBrace in
      if (negb (jsonStart =? -1) && negb (jsonEnd =? -1) && (jsonEnd >? jsonStart))%bool
      then slice text jsonStart (jsonEnd + 1)
      else []
  end.

(** What the validator needs of Zod: [schema.safeParse]. *)
Inductive PathSegment : Type :=
| PKey (k : jsstring)
| PIndex (i : nat).

Record ZodIssue : Type := {
  issue_path : list PathSegment;
  issue_message : jsstring;
  issue_expected : option jsstring;
  issue_received : option json
}.

Inductive SafeParseReturn : Type :=
| ParseSuccess (data : json)
| ParseFailure (issues : list ZodIssue).

Record ZodSchema : Type := { safeParse : json -> SafeParseReturn }.

Definition segmentText (p : PathSegment) : jsstring :=
  match p with PKey k => k | PIndex i => ofNat i end.

(** [(issue as any).expected || "valid value"] *)
Definition expectedOrDefault (e : option jsstring) : jsstring :=
  match e with
  | Some (c :: t) => c :: t
  | _ => js "valid value"
  end.

Definition issueToError (issue : ZodIssue) : ValidationError :=
  {| ve_path := join (js ".") (map segmentText (issue_path issue));
     ve_message := issue_message issue;
     ve_expected := expectedOrDefault (issue_expected issue);
     ve_received := issue_received issue |}.

(** [validateAgainstSchema(schema, data)] *)
Definition validateAgainstSchema (schema : ZodSchema) (data : json) : ValidationResult :=
  match safeParse schema data with
  | ParseSuccess d =>
      {| vr_success := true; vr_data := Some d; vr_errors := [];
         vr_rawJson := stringify data |}
  | ParseFailure issues =>
      {| vr_success := false; vr_data := None;
         vr_errors := map issueToError issues;
         vr_rawJson := stringify data |}
  end.

Definition noJsonMessage : jsstring := js "No JSON found in response".

Definition noJsonError (response : jsstring) : ValidationError :=
  {| ve_path := [];
     ve_message := noJsonMessage;
     ve_expected := js "JSON object or array";
     ve_received := Some (JStr (slice response 0 100 ++ js "...")) |}.

Definition parseError (jsonString : jsstring) (e : Error) : ValidationError :=
  {| ve_path := [];
     ve_message := js "JSON parse error: " ++ message e;
     ve_expected := js "Valid JSON";
     ve_received := Some (JStr (slice jsonString 0 100 ++ js "...")) |}.

Section Validation.

(** [JSON.parse] of the platform: a value, or a thrown SyntaxError. *)
Variable JSON_parse : jsstring -> outcome json.

(** [validateResponse(response, schema)].  The result is an outcome so that
    a throw, were there one, would show. *)
Definition validateResponse (response : jsstring) (schema : ZodSchema)
  : outcome ValidationResult :=
  let jsonString := extractJson response in
  match jsonString with
  | [] =>
      Returns {| vr_success := false; vr_data := None;
                 vr_errors := [noJsonError response]; vr_rawJson := [] |}
  | _ =>
      (* try { parsed = JSON.parse(jsonString) } catch (parseError) { ... } *)
      match JSON_parse jsonString with
      | Throws e =>
          Returns {| vr_success := false; vr_data := None;
                     vr_errors := [parseError jsonString e];
                     vr_rawJson := jsonString |}
      | Returns parsed => Returns (validateAgainstSchema schema parsed)
      end
  end.

End Validation.

Definition dquote : jsstring := [34%N].

(** [formatErrorsForCorrection(errors)] *)
Definition formatError (err : ValidationError) : jsstring :=
  match ve_path err with
  | [] => js "- " ++ ve_message err
  | p =>
      js "- Field " ++ dquote ++ p ++ dquote ++ js ": " ++ ve_message err
      ++ js ". Expected: "
      ++ ve_expected err ++ js ", got: " ++ stringifyOpt (ve_received err)
  end.

Definition newline : jsstring := [10%N].

Definition formatErrorsForCorrection (errors : list ValidationError) : jsstring :=
  match errors with
  | [] => []
  | _ =>
      js "The following validation errors occurred:" ++ newline
      ++ join newline (map formatError errors)
  end.

(* ================================================================== *)
(** ** Effects: a world passed along, and outcomes *)
(* ================================================================== *)

(** A computation in a world [W]: it returns or throws, and leaves a world.
    An [await] of the source is a bind: the promise's settled result is what
    the awaited computation returns or throws. *)
Definition M (W A : Type) : Type := W -> outcome A * W.

Definition ret {W A} (a : A) : M W A := fun w => (Returns a, w).

Definition throw {W A} (e : Error) : M W A := fun w => (Throws e, w).

Definition bind {W A B} (m : M W A) (k : A -> M W B) : M W B :=
  fun w =>
    match m w with
    | (Returns a, w') => k a w'
    | (Throws e, w') => (Throws e, w')
    end.

(** [try { m } catch (e) { handler(e) }] *)
Definition tryCatch {W A} (m : M W A) (handler : Error -> M W A) : M W A :=
  fun w =>
    match m w with
    | (Returns a, w') => (Returns a, w')
    | (Throws e, w') => handler e w'
    end.

(** A call that touches no world. *)
Definition liftOutcome {W A} (o : outcome A) : M W A := fun w => (o, w).

Definition modify {W} (f : W -> W) : M W unit := fun w => (Returns tt, f w).

Definition gets {W A} (f : W -> A) : M W A := fun w => (Returns (f w), w).

Declare Scope js_scope.
Delimit Scope js_scope with jsm.

Notation "x <- m ;; k" := (bind m (fun x => k))
  (at level 100, m at next level, right associativity) : js_scope.
Notation "m ;;; k" := (bind m (fun _ => k))
  (at level 100, right associativity) : js_scope.

(* ================================================================== *)
(** ** Self-correction loop (selfCorrection.ts) *)
(* ================================================================== *)

Record AttemptRecord : Type := {
  ar_response : jsstring;
  ar_errors : list ValidationError;
  ar_prompt : jsstring
}.

Record CorrectionResult : Type := {
  cr_success : bool;
  cr_data : option json;
  cr_attempts : nat;
  cr_history : list AttemptRecord
}.

(** [buildCorrectionPrompt(originalPrompt, invalidResponse, errors)] *)
Definition buildCorrectionPrompt
  (originalPrompt invalidResponse : jsstring) (errors : list ValidationError) : jsstring :=
  let errorDetails := formatErrorsForCorrection errors in
  js "Your previous response was invalid JSON or did not match the required schema."
  ++ newline ++ newline
  ++ js "PREVIOUS RESPONSE:" ++ newline
  ++ slice invalidResponse 0 500
  ++ (if len invalidResponse >? 500 then js "..." else [])
  ++ newline ++ newline
  ++ js "VALIDATION ERRORS:" ++ newline
  ++ errorDetails
  ++ newline ++ newline
  ++ js "Please fix your response. Output ONLY valid JSON that matches the schema."
  ++ newline
  ++ js "Do not include any explanation or markdown formatting." ++ newline
  ++ js "Just output the corrected JSON."
  ++ newline ++ newline
  ++ js "ORIGINAL REQUEST:" ++ newline
  ++ originalPrompt.

Section SelfCorrection.

Variable JSON_parse : jsstring -> outcome json.

(** The world the inference capability and the retry callback act on. *)
Context {W : Type}.

(** [CorrectionConfig], as the caller passes it ([Partial]): an absent
    member is [None]. *)
Record CorrectionConfig : Type := {
  maxRetries : option nat;
  onRetry : option (nat -> list ValidationError -> M W unit)
}.

(** [{ ...DEFAULT_CONFIG, ...config }] *)
Definition DEFAULT_maxRetries : nat := 3.

Definition settingsMaxRetries (config : CorrectionConfig) : nat :=
  match maxRetries config with Some n => n | None => DEFAULT_maxRetries end.

Definition settingsOnRetry (config : CorrectionConfig)
  : nat -> list ValidationError -> M W unit :=
  match onRetry config with Some f => f | None => fun _ _ => ret tt end.

Variable prompt : jsstring.
Variable schema : ZodSchema.
Variable inference : jsstring -> M W jsstring.
Variable config : CorrectionConfig.

(** The [while (attempts < settings.maxRetries)] loop, from its head: the
    iteration about to start has made [attempts] calls so far. *)
Equations? correctionLoop (attempts : nat) (currentPrompt : jsstring)
  (history : list AttemptRecord) : M W CorrectionResult
  by wf (settingsMaxRetries config - attempts)%nat lt :=
correctionLoop attempts currentPrompt history
  with lt_dec attempts (settingsMaxRetries config) => {
  | left _ =>
      let attempts' := S attempts in
      (response <- inference currentPrompt ;;
       validation <- liftOutcome (validateResponse JSON_parse response schema) ;;
       let history' :=
         history ++ [{| ar_response := response;
                        ar_errors := vr_errors validation;
                        ar_prompt := currentPrompt |}] in
       if vr_success validation then
         ret {| cr_success := true; cr_data := vr_data validation;
                cr_attempts := attempts'; cr_history := history' |}
       else if (settingsMaxRetries config <=? attempts')%nat then
         (* break *)
         ret {| cr_success := false; cr_data := None;
                cr_attempts := attempts'; cr_history := history' |}
       else
         (settingsOnRetry config attempts' (vr_errors validation) ;;;
          correctionLoop attempts'
            (buildCorrectionPrompt prompt response (vr_errors validation))
            history'))%jsm
  | right _ =>
      (* All retries exhausted *)
      ret {| cr_success := false; cr_data := None;
             cr_attempts := attempts; cr_history := history |} }.
Proof. lia. Qed.

(** [executeWithCorrection({ prompt, schema, inference, config })] *)
Definition executeWithCorrection : M W CorrectionResult :=
  correctionLoop 0%nat prompt [].

End SelfCorrection.

(* ================================================================== *)
(** ** State machine and scoring (stateMachine.ts) *)
(* ================================================================== *)

Inductive MachineState : Type :=
| IDLE | OPTIMISTIC | GENERATING | VALIDATING | CORRECTING | GATING | SETTLED | REJECTED.

#[global] Instance MachineState_eq_dec : EqDecision MachineState.
Proof. solve_decision. Defined.

Record AuditEntry : Type := {
  ae_id : jsstring;
  ae_timestamp : N;
  ae_from : MachineState;
  ae_to : MachineState;
  ae_event : jsstring;
  ae_payload : option json
}.

Record StateContext : Type := {
  sc_data : json;
  sc_optimisticData : option json;
  sc_currentIntent : option jsstring;
  sc_error : option Error;
  sc_retryCount : nat;
  sc_confidence : Q;
  sc_history : list AuditEntry
}.

Record Transition : Type := {
  t_from : MachineState;
  t_event : jsstring;
  t_to : MachineState
}.

Definition TRANSITIONS : list Transition :=
  [ {| t_from := IDLE; t_event := js "DISPATCH"; t_to := OPTIMISTIC |};
    {| t_from := IDLE; t_event := js "DISPATCH_NO_OPTIMISTIC"; t_to := GENERATING |};
    {| t_from := OPTIMISTIC; t_event := js "START_INFERENCE"; t_to := GENERATING |};
    {| t_from := GENERATING; t_event := js "RESPONSE_RECEIVED"; t_to := VALIDATING |};
    {| t_from := GENERATING; t_event := js "ERROR"; t_to := REJECTED |};
    {| t_from := VALIDATING; t_event := js "VALID"; t_to := GATING |};
    {| t_from := VALIDATING; t_event := js "INVALID"; t_to := CORRECTING |};
    {| t_from := CORRECTING; t_event := js "RETRY"; t_to := GENERATING |};
    {| t_from := CORRECTING; t_event := js "MAX_RETRIES"; t_to := REJECTED |};
    {| t_from := GATING; t_event := js "CONFIDENT"; t_to := SETTLED |};
    {| t_from := GATING; t_event := js "NEEDS_CONFIRMATION"; t_to := GATING |};
    {| t_from := GATING; t_event := js "USER_CONFIRMED"; t_to := SETTLED |};
    {| t_from := GATING; t_event := js "USER_REJECTED"; t_to := REJECTED |};
    {| t_from := SETTLED; t_event := js "RESET"; t_to := IDLE |};
    {| t_from := REJECTED; t_event := js "RESET"; t_to := IDLE |} ].

(** [createInitialContext(initialData)] *)
Definition createInitialContext (initialData : json) : StateContext :=
  {| sc_data := initialData; sc_optimisticData := None; sc_currentIntent := None;
     sc_error := None; sc_retryCount := 0%nat; sc_confidence := 1%Q;
     sc_history := [] |}.

(** [getNextState(from, event)] *)
Definition getNextState (from : MachineState) (event : jsstring) : option MachineState :=
  t_to <$> find (fun t => bool_decide (t_from t = from) && bool_decide (t_event t = event))
             TRANSITIONS.

(** [createAuditEntry(params)].  [now] and [now'] are what the two calls of
    [Date.now()] give, [suffix] is
    [Math.random().toString(36).slice(2, 8)]. *)
Definition createAuditEntry (now : N) (suffix : jsstring) (now' : N)
  (from to : MachineState) (event : jsstring) (payload : option json) : AuditEntry :=
  {| ae_id := js "txn_" ++ ofInt (Z.of_N now) ++ js "_" ++ suffix;
     ae_timestamp := now';
     ae_from := from; ae_to := to; ae_event := event; ae_payload := payload |}.

(** The number of positions, among those both strings have, that hold the
    same code unit. *)
Fixpoint sameChars (a b : jsstring) : nat :=
  match a, b with
  | c :: a', d :: b' => ((if N.eqb c d then 1 else 0) + sameChars a' b')%nat
  | _, _ => 0%nat
  end.

(** [1 - sameChars / maxLen] for two serialised states. *)
Definition diffRatio (previousState newState : json) : Q :=
  let prevString := stringify previousState in
  let newString := stringify newState in
  let maxLen := Z.max (len prevString) (len newString) in
  (1 - inject_Z (Z.of_nat (sameChars prevString newString)) / inject_Z maxLen)%Q.

Definition intentClarity (intent : jsstring) : Q :=
  Qmin 1 (inject_Z (len intent) / 50)%Q.

Definition DEFAULT_modelConfidence : Q := (7 # 10)%Q.

(** [calculateConfidence({ previousState, newState, intent, modelConfidence })] *)
Definition calculateConfidence (previousState newState : json) (intent : jsstring)
  (modelConfidence : option Q) : Q :=
  let modelConfidence := default DEFAULT_modelConfidence modelConfidence in
  let confidence :=
    (modelConfidence * (4 # 10)
     + (1 - diffRatio previousState newState) * (3 # 10)
     + intentClarity intent * (3 # 10))%Q in
  Qmax 0 (Qmin 1 confidence).

Definition Qltb (x y : Q) : bool := negb (Qle_bool y x).

Definition arrayLength (v : json) : nat :=
  match v with JArr items => length items | _ => 0%nat end.

(** [isDestructiveChange(previousState, newState)] *)
Definition isDestructiveChange (previousState newState : json) : bool :=
  let prevSize := len (stringify previousState) in
  let newSize := len (stringify newState) in
  if (prevSize >? 50) && Qltb (inject_Z newSize) (inject_Z prevSize * (3 # 10))%Q then true
  else if isArray previousState && isArray newState then
    if (0 <? arrayLength previousState)%nat && (arrayLength newState =? 0)%nat then true
    else false
  else false.

(* ================================================================== *)
(** ** Rollback manager (rollbackManager.ts) *)
(* ================================================================== *)

(** Values as the manager holds them: a primitive, or a reference to an
    object of the store.  Two references to one location are the same
    object, and a write through one is seen through the other. *)
Inductive value : Type :=
| VNull
| VBool (b : bool)
| VNum (n : Z)
| VStr (s : jsstring)
| VRef (l : nat).

Inductive object : Type :=
| OArray (elements : list value)
| ORecord (members : list (jsstring * value)).

(** The store of objects; a location is an index in it. *)
Abbreviation heap := (list object).

(** The JSON tree below a value, followed through at most [fuel] references.
    [None] when a reference dangles or the fuel runs out. *)
Fixpoint view (fuel : nat) (h : heap) (v : value) {struct fuel} : option json :=
  match v with
  | VNull => Some JNull
  | VBool b => Some (JBool b)
  | VNum n => Some (JNum n)
  | VStr s => Some (JStr s)
  | VRef l =>
      match fuel with
      | O => None
      | S fuel' =>
          match h !! l with
          | Some (OArray elements) => JArr <$> mapM (view fuel' h) elements
          | Some (ORecord members) =>
              JObj <$> mapM (fun m => pair (fst m) <$> view fuel' h (snd m)) members
          | None => None
          end
      end
  end.

(** Building a JSON tree in the store from new objects only, children
    first; the value returned refers to the root. *)
Fixpoint alloc (t : json) (h : heap) {struct t} : value * heap :=
  match t with
  | JNull => (VNull, h)
  | JBool b => (VBool b, h)
  | JNum n => (VNum n, h)
  | JStr s => (VStr s, h)
  | JArr items =>
      let '(elements, h') :=
        (fix allocItems (ts : list json) (h : heap) : list value * heap :=
           match ts with
           | [] => ([], h)
           | t :: ts' =>
               let '(v, h1) := alloc t h in
               let '(vs, h2) := allocItems ts' h1 in
               (v :: vs, h2)
           end) items h in
      (VRef (length h'), h' ++ [OArray elements])
  | JObj members =>
      let '(members', h') :=
        (fix allocMembers (ms : list (jsstring * json)) (h : heap)
           : list (jsstring * value) * heap :=
           match ms with
           | [] => ([], h)
           | m :: ms' =>
               let '(v, h1) := alloc (snd m) h in
               let '(vs, h2) := allocMembers ms' h1 in
               ((fst m, v) :: vs, h2)
           end) members h in
      (VRef (length h'), h' ++ [ORecord members'])
  end.

(** The two inner loops of [alloc], by name. *)
Definition allocItems : list json -> heap -> list value * heap :=
  fix allocItems (ts : list json) (h : heap) : list value * heap :=
    match ts with
    | [] => ([], h)
    | t :: ts' =>
        let '(v, h1) := alloc t h in
        let '(vs, h2) := allocItems ts' h1 in
        (v :: vs, h2)
    end.

Definition allocMembers : list (jsstring * json) -> heap -> list (jsstring * value) * heap :=
  fix allocMembers (ms : list (jsstring * json)) (h : heap)
    : list (jsstring * value) * heap :=
    match ms with
    | [] => ([], h)
    | m :: ms' =>
        let '(v, h1) := alloc (snd m) h in
        let '(vs, h2) := allocMembers ms' h1 in
        ((fst m, v) :: vs, h2)
    end.

Definition isPrimitive (v : value) : bool :=
  match v with VRef _ => false | _ => true end.

(** [structuredClone(data)] (and the [JSON.parse(JSON.stringify(data))] it
    falls back to) on tree-shaped data: a copy that shares no object with
    the original.  Data that is not a finite tree of the store is outside
    this model; cloning it is a throw, as in the fallback. *)
Definition structuredClone (data : value) : M heap value :=
  fun h =>
    match view (length h) h data with
    | Some t => let '(v, h') := alloc t h in (Returns v, h')
    | None => (Throws (newError "DataCloneError"), h)
    end.

(** [deepClone(data)] *)
Definition deepClone (data : value) : M heap value :=
  if isPrimitive data then ret data   (* Fast path for primitives *)
  else structuredClone data.

Record StateSnapshot : Type := {
  ss_id : jsstring;
  ss_timestamp : N;
  ss_data : value;
  ss_intent : jsstring
}.

Record RollbackManagerConfig : Type := {
  cfg_maxSnapshots : option nat;
  cfg_onRollback : option (value -> value -> jsstring -> M heap unit)
}.

Record RollbackManager : Type := {
  snapshots : list StateSnapshot;
  maxSnapshots : nat;
  onRollback : option (value -> value -> jsstring -> M heap unit)
}.

(** The world of the manager's methods: the manager ([this]) and the store
    its snapshots point into. *)
Record Store : Type := {
  manager : RollbackManager;
  objects : heap
}.

Definition setSnapshots (snaps : list StateSnapshot) : M Store unit :=
  modify (fun w =>
    {| manager := {| snapshots := snaps;
                     maxSnapshots := maxSnapshots (manager w);
                     onRollback := onRollback (manager w) |};
       objects := objects w |}).

(** A call that acts on the store of objects only. *)
Definition onObjects {A} (m : M heap A) : M Store A :=
  fun w =>
    let '(r, h') := m (objects w) in
    (r, {| manager := manager w; objects := h' |}).

(** [new RollbackManager(config)] *)
Definition createRollbackManager (config : RollbackManagerConfig) : RollbackManager :=
  {| snapshots := [];
     maxSnapshots := default 10%nat (cfg_maxSnapshots config);
     onRollback := cfg_onRollback config |}.

(** [while (this.snapshots.length > this.maxSnapshots) this.snapshots.shift()] *)
Fixpoint trimOld (maxSnaps : nat) (snaps : list StateSnapshot) : list StateSnapshot :=
  match snaps with
  | [] => []
  | _ :: rest => if (maxSnaps <? length snaps)%nat then trimOld maxSnaps rest else snaps
  end.

(** What [Date.now()] and [Math.random().toString(36).slice(2, 8)] give
    during one call of [snapshot]. *)
Record Ambient : Type := {
  now : N;
  suffix : jsstring;
  now' : N
}.

(** [snapshot(data, intent)] *)
Definition snapshot (amb : Ambient) (data : value) (intent : jsstring) : M Store jsstring :=
  (let id := js "snap_" ++ ofInt (Z.of_N (now amb)) ++ js "_" ++ suffix amb in
   clone <- onObjects (deepClone data) ;;
   let snap := {| ss_id := id; ss_timestamp := now' amb;
                  ss_data := clone; ss_intent := intent |} in
   (* this.snapshots.push(snapshot) *)
   snaps <- gets (fun w => snapshots (manager w)) ;;
   setSnapshots (snaps ++ [snap]) ;;;
   (* Trim old snapshots *)
   snaps <- gets (fun w => snapshots (manager w)) ;;
   maxSnaps <- gets (fun w => maxSnapshots (manager w)) ;;
   setSnapshots (trimOld maxSnaps snaps) ;;;
   ret id)%jsm.

(** [getLastGoodState()]; [null] is [VNull]. *)
Definition getLastGoodState : M Store value :=
  (snaps <- gets (fun w => snapshots (manager w)) ;;
   if (length snaps =? 0)%nat then ret VNull
   else
     match snaps !! (length snaps - 1)%nat with
     | Some s => onObjects (deepClone (ss_data s))
     | None => throw (newError "TypeError")
     end)%jsm.

(** [array.findIndex(p)]: the first index satisfying [p], or -1. *)
Fixpoint findIndexFrom {A} (p : A -> bool) (l : list A) (i : Z) : Z :=
  match l with
  | [] => -1
  | x :: t => if p x then i else findIndexFrom p t (i + 1)
  end.

Definition findIndex {A} (p : A -> bool) (l : list A) : Z := findIndexFrom p l 0.

(** [rollbackTo(snapshotId)] *)
Definition rollbackTo (snapshotId : jsstring) : M Store value :=
  (snaps <- gets (fun w => snapshots (manager w)) ;;
   let index := findIndex (fun s => bool_decide (ss_id s = snapshotId)) snaps in
   if index =? -1 then ret VNull
   else
     match snaps !! Z.to_nat index with
     | None => throw (newError "TypeError")
     | Some targetSnapshot =>
         (* Remove all snapshots after the target *)
         setSnapshots (take (Z.to_nat (index + 1)) snaps) ;;;
         onObjects (deepClone (ss_data targetSnapshot))
     end)%jsm.

(** [rollbackSteps(steps)] *)
Definition rollbackSteps (steps : Z) : M Store value :=
  (snaps <- gets (fun w => snapshots (manager w)) ;;
   let targetIndex := Z.of_nat (length snaps) - 1 - steps in
   if targetIndex <? 0 then
     (* Rollback to the oldest snapshot we have *)
     match snaps with
     | oldest :: _ => onObjects (deepClone (ss_data oldest))
     | [] => ret VNull
     end
   else
     setSnapshots (take (Z.to_nat (targetIndex + 1)) snaps) ;;;
     match snaps !! Z.to_nat targetIndex with
     | None => throw (newError "TypeError")
     | Some targetSnapshot => onObjects (deepClone (ss_data targetSnapshot))
     end)%jsm.

(** [autoRollback(currentState, reason)] *)
Definition autoRollback (currentState : value) (reason : jsstring) : M Store value :=
  (lastGood <- getLastGoodState ;;
   notify <- gets (fun w => onRollback (manager w)) ;;
   match lastGood, notify with
   | VNull, _ | _, None => ret lastGood
   | _, Some callback =>
       onObjects (callback currentState lastGood reason) ;;; ret lastGood
   end)%jsm.

(** [getHistory()] *)
Fixpoint cloneAll (snaps : list StateSnapshot) : M Store (list StateSnapshot) :=
  match snaps with
  | [] => ret []
  | s :: rest =>
      (d <- onObjects (deepClone (ss_data s)) ;;
       rest' <- cloneAll rest ;;
       ret ({| ss_id := ss_id s; ss_timestamp := ss_timestamp s;
               ss_data := d; ss_intent := ss_intent s |} :: rest'))%jsm
  end.

Definition getHistory : M Store (list StateSnapshot) :=
  (snaps <- gets (fun w => snapshots (manager w)) ;; cloneAll snaps)%jsm.

(** [clear()] *)
Definition clear : M Store unit := setSnapshots [].

(** [get availableRollbacks()] *)
Definition availableRollbacks (m : RollbackManager) : Z :=
  Z.max 0 (Z.of_nat (length (snapshots m)) - 1).

(** What code outside the manager can do to the store: assign to an object
    ([data.items.push(4)], [data.x = 1] replace what is stored at the
    object's location) and create objects. *)
Inductive Mutation : Type :=
| Assign (l : nat) (o : object)
| Allocate (o : object).

Definition mutate (m : Mutation) (h : heap) : heap :=
  match m with
  | Assign l o => <[l := o]> h
  | Allocate o => h ++ [o]
  end.

Definition mutateAll (ms : list Mutation) : M Store unit :=
  modify (fun w =>
    {| manager := manager w; objects := fold_left (fun h m => mutate m h) ms (objects w) |}).

(** A sequence of [snapshot] calls by a caller that goes on after a call
    that threw; the outcomes of the calls are collected. *)
Fixpoint snapshotAll (calls : list (Ambient * value * jsstring)) (w : Store)
  : list (outcome jsstring) * Store :=
  match calls with
  | [] => ([], w)
  | (amb, data, intent) :: rest =>
      let '(r, w1) := snapshot amb data intent w in
      let '(rs, w2) := snapshotAll rest w1 in
      (r :: rs, w2)
  end.

(* ================================================================== *)
(** ** The hook and its dispatch (useSemanticState.ts) *)
(* ================================================================== *)

Record AbortController : Type := { aborted : bool }.

Section UseSemanticState.

(** The world outside the hook: the inference provider, the user and the
    callbacks of the configuration act on it. *)
Context {E : Type}.

(** What [useSynapseContext()] gives, as far as the hook uses it.
    [provider_inference p] is [(await synapse.provider.inference(p)).content]. *)
Record SynapseContextValue : Type := {
  synapse_maxRetries : nat;
  synapse_confidenceThreshold : Q;
  provider_inference : jsstring -> M E jsstring
}.

Record SemanticStateConfig : Type := {
  schema : ZodSchema;
  initialState : json;
  context : jsstring;
  confidenceThreshold : option Q;
  onChange : option (json -> json -> M E unit);
  onGate : option (json -> json -> Q -> M E bool)
}.

(** The state the hook keeps between renders. *)
Record Hook : Type := {
  hk_state : json;
  hk_machineState : MachineState;
  hk_stateContext : StateContext;
  hk_pendingState : option json;
  hk_abortControllerRef : option AbortController;
  hk_ambientReads : nat;
  hk_outside : E
}.

Variable JSON_parse : jsstring -> outcome json.

(** [buildPrompt({ schema, currentState, intent, context })] of the prompt
    compiler, which renders Zod's own classes; the pipeline only passes its
    text on. *)
Variable buildPrompt : ZodSchema -> json -> jsstring -> jsstring -> jsstring.

(** What [Date.now()] and [Math.random()] give at the k-th audit entry. *)
Variable ambient : nat -> Ambient.

(** The decision the user takes through [confirmChange] or [rejectChange]
    when a change waits for confirmation. *)
Variable awaitConfirmation : M E bool.

Variable synapse : SynapseContextValue.
Variable config : SemanticStateConfig.

Definition threshold : Q :=
  default (synapse_confidenceThreshold synapse) (confidenceThreshold config).

(** [useState(initialState)], [useState("IDLE")], ... at the first render. *)
Definition initialHook (outside : E) : Hook :=
  {| hk_state := initialState config;
     hk_machineState := IDLE;
     hk_stateContext := createInitialContext (initialState config);
     hk_pendingState := None;
     hk_abortControllerRef := None;
     hk_ambientReads := 0%nat;
     hk_outside := outside |}.

Definition setState (s : json) : M Hook unit :=
  modify (fun w =>
    {| hk_state := s; hk_machineState := hk_machineState w;
       hk_stateContext := hk_stateContext w; hk_pendingState := hk_pendingState w;
       hk_abortControllerRef := hk_abortControllerRef w;
       hk_ambientReads := hk_ambientReads w; hk_outside := hk_outside w |}).

Definition setStateContext (f : StateContext -> StateContext) : M Hook unit :=
  modify (fun w =>
    {| hk_state := hk_state w; hk_machineState := hk_machineState w;
       hk_stateContext := f (hk_stateContext w); hk_pendingState := hk_pendingState w;
       hk_abortControllerRef := hk_abortControllerRef w;
       hk_ambientReads := hk_ambientReads w; hk_outside := hk_outside w |}).

Definition setPendingState (p : option json) : M Hook unit :=
  modify (fun w =>
    {| hk_state := hk_state w; hk_machineState := hk_machineState w;
       hk_stateContext := hk_stateContext w; hk_pendingState := p;
       hk_abortControllerRef := hk_abortControllerRef w;
       hk_ambientReads := hk_ambientReads w; hk_outside := hk_outside w |}).

Definition setAbortControllerRef (c : option AbortController) : M Hook unit :=
  modify (fun w =>
    {| hk_state := hk_state w; hk_machineState := hk_machineState w;
       hk_stateContext := hk_stateContext w; hk_pendingState := hk_pendingState w;
       hk_abortControllerRef := c;
       hk_ambientReads := hk_ambientReads w; hk_outside := hk_outside w |}).

(** A call that acts on the outside world only. *)
Definition outside {A} (m : M E A) : M Hook A :=
  fun w =>
    let '(r, e') := m (hk_outside w) in
    (r, {| hk_state := hk_state w; hk_machineState := hk_machineState w;
           hk_stateContext := hk_stateContext w; hk_pendingState := hk_pendingState w;
           hk_abortControllerRef := hk_abortControllerRef w;
           hk_ambientReads := hk_ambientReads w; hk_outside := e' |}).

Definition withCurrentIntent (intent : jsstring) (ctx : StateContext) : StateContext :=
  {| sc_data := sc_data ctx; sc_optimisticData := sc_optimisticData ctx;
     sc_currentIntent := Some intent; sc_error := None;
     sc_retryCount := sc_retryCount ctx; sc_confidence := sc_confidence ctx;
     sc_history := sc_history ctx |}.

Definition withError (e : option Error) (ctx : StateContext) : StateContext :=
  {| sc_data := sc_data ctx; sc_optimisticData := sc_optimisticData ctx;
     sc_currentIntent := sc_currentIntent ctx; sc_error := e;
     sc_retryCount := sc_retryCount ctx; sc_confidence := sc_confidence ctx;
     sc_history := sc_history ctx |}.

Definition withRetryCount (n : nat) (ctx : StateContext) : StateContext :=
  {| sc_data := sc_data ctx; sc_optimisticData := sc_optimisticData ctx;
     sc_currentIntent := sc_currentIntent ctx; sc_error := sc_error ctx;
     sc_retryCount := n; sc_confidence := sc_confidence ctx;
     sc_history := sc_history ctx |}.

Definition withConfidence (c : Q) (ctx : StateContext) : StateContext :=
  {| sc_data := sc_data ctx; sc_optimisticData := sc_optimisticData ctx;
     sc_currentIntent := sc_currentIntent ctx; sc_error := sc_error ctx;
     sc_retryCount := sc_retryCount ctx; sc_confidence := c;
     sc_history := sc_history ctx |}.

Definition withEntry (entry : AuditEntry) (ctx : StateContext) : StateContext :=
  {| sc_data := sc_data ctx; sc_optimisticData := sc_optimisticData ctx;
     sc_currentIntent := sc_currentIntent ctx; sc_error := sc_error ctx;
     sc_retryCount := sc_retryCount ctx; sc_confidence := sc_confidence ctx;
     sc_history := sc_history ctx ++ [entry] |}.

(** The transition helper: the updater given to [setMachineState], applied
    to the current machine state. *)
Definition transition (event : jsstring) (payload : option json) : M Hook unit :=
  fun w =>
    let current := hk_machineState w in
    match getNextState current event with
    | Some next =>
        let amb := ambient (hk_ambientReads w) in
        let entry :=
          createAuditEntry (now amb) (suffix amb) (now' amb) current next event payload in
        (Returns tt,
         {| hk_state := hk_state w; hk_machineState := next;
            hk_stateContext := withEntry entry (hk_stateContext w);
            hk_pendingState := hk_pendingState w;
            hk_abortControllerRef := hk_abortControllerRef w;
            hk_ambientReads := S (hk_ambientReads w); hk_outside := hk_outside w |})
    | None =>
        (* Invalid transition: logged, state unchanged *)
        (Returns tt, w)
    end.

(** [onChange?.(newState, state)] *)
Definition notifyChange (newState state : json) : M Hook unit :=
  match onChange config with
  | Some callback => outside (callback newState state)
  | None => ret tt
  end.

(** [result.data === null] *)
Definition isNull (d : option json) : bool :=
  match d with None | Some JNull => true | _ => false end.

(** The configuration [dispatch] gives to the correction loop. *)
Definition correctionConfig : CorrectionConfig :=
  {| maxRetries := Some (synapse_maxRetries synapse);
     onRetry := Some (fun attempt _ =>
       (setStateContext (withRetryCount attempt) ;;;
        transition (js "RETRY") None)%jsm) |}.

(** What [dispatch] does once the correction loop gave a valid state. *)
Definition settle (state newState : json) (intent : jsstring) : M Hook unit :=
  (let confidence := calculateConfidence state newState intent None in
   setStateContext (withConfidence confidence) ;;;
   (* Check if gating is needed *)
   let isDestructive := isDestructiveChange state newState in
   let needsGating := Qltb confidence threshold || isDestructive in
   (if needsGating then
      transition (js "NEEDS_CONFIRMATION") None ;;;
      match onGate config with
      | Some gate =>
          confirmed <- outside (gate newState state confidence) ;;
          if confirmed then
            setState newState ;;;
            notifyChange newState state ;;;
            transition (js "USER_CONFIRMED") None
          else transition (js "USER_REJECTED") None
      | None =>
          (* Wait for manual confirmation *)
          setPendingState (Some newState) ;;;
          confirmed <- outside awaitConfirmation ;;
          (if confirmed then
             setState newState ;;;
             notifyChange newState state ;;;
             transition (js "USER_CONFIRMED") None
           else transition (js "USER_REJECTED") None) ;;;
          setPendingState None
      end
    else
      (* Auto-accept confident changes *)
      setState newState ;;;
      notifyChange newState state ;;;
      transition (js "CONFIDENT") None) ;;;
   transition (js "RESET") None)%jsm.

(** [dispatch(intent)], run to its end. *)
Definition dispatch (intent : jsstring) : M Hook unit :=
  ((* the state the callback closed over *)
   state <- gets hk_state ;;
   (* Cancel any previous pending inference *)
   previous <- gets hk_abortControllerRef ;;
   match previous with
   | Some _ => setAbortControllerRef (Some {| aborted := true |})
   | None => ret tt
   end ;;;
   setAbortControllerRef (Some {| aborted := false |}) ;;;
   setStateContext (withCurrentIntent intent) ;;;
   transition (js "DISPATCH_NO_OPTIMISTIC") None ;;;
   tryCatch
     (signal <- gets hk_abortControllerRef ;;
      if default false (aborted <$> signal) then ret tt
      else
        let prompt := buildPrompt (schema config) state intent (context config) in
        result <- executeWithCorrection JSON_parse prompt (schema config)
                    (fun p => outside (provider_inference synapse p))
                    correctionConfig ;;
        transition (js "RESPONSE_RECEIVED") None ;;;
        if negb (cr_success result) || isNull (cr_data result) then
          setStateContext
            (withError (Some (newError "Failed to generate valid state after retries"))) ;;;
          transition (js "MAX_RETRIES") None
        else
          transition (js "VALID") None ;;;
          settle state (default JNull (cr_data result)) intent)
     (fun error =>
        setStateContext (withError (Some error)) ;;;
        transition (js "ERROR") None))%jsm.

End UseSemanticState.

(* ================================================================== *)
(** ** Instruments for the statements *)
(* ================================================================== *)

Section Instruments.

Context {W X : Type}.

(** A computation on [W], run in a world that carries an [X] beside it. *)
Definition onFst {A} (m : M W A) : M (W * X) A :=
  fun wx =>
    let '(r, w') := m (fst wx) in
    (r, (w', snd wx)).

Definition liftConfig (config : @CorrectionConfig W) : @CorrectionConfig (W * X) :=
  {| maxRetries := maxRetries config;
     onRetry :=
       match onRetry config with
       | Some f => Some (fun attempt errors => onFst (f attempt errors))
       | None => None
       end |}.

End Instruments.

(** An inference capability that keeps the prompts it was called with, as a
    mock function of the test suite does. *)
Definition recorded {W} (inference : jsstring -> M W jsstring)
  : jsstring -> M (W * list jsstring) jsstring :=
  fun p wx =>
    let '(r, w') := inference p (fst wx) in
    (r, (w', snd wx ++ [p])).

(** An inference capability that answers its n-th call (from 0) with
    [responses n], and counts its calls. *)
Definition scripted {W} (responses : nat -> jsstring)
  : jsstring -> M (W * nat) jsstring :=
  fun _ wx => (Returns (responses (snd wx)), (fst wx, S (snd wx))).

(** A response fails, or passes, validation. *)
Definition fails (JSON_parse : jsstring -> outcome json) (schema : ZodSchema)
  (response : jsstring) : Prop :=
  exists v, validateResponse JSON_parse response schema = Returns v
            /\ vr_success v = false.

Definition passes (JSON_parse : jsstring -> outcome json) (schema : ZodSchema)
  (response : jsstring) (data : option json) : Prop :=
  exists v, validateResponse JSON_parse response schema = Returns v
            /\ vr_success v = true /\ vr_data v = data.

(** A text has boundaries when an opening bracket or brace is followed,
    somewhere later, by a closing bracket or brace. *)
Definition hasBoundaries (s : jsstring) : Prop :=
  exists (i j : nat) (c d : N),
    (i < j)%nat /\ s !! i = Some c /\ s !! j = Some d
    /\ isOpening c = true /\ isClosing d = true.

(** The snapshot a call of [snapshot] pushes, given the copy it made. *)
Definition pushed (amb : Ambient) (clone : value) (intent : jsstring) : StateSnapshot :=
  {| ss_id := js "snap_" ++ ofInt (Z.of_N (now amb)) ++ js "_" ++ suffix amb;
     ss_timestamp := now' amb; ss_data := clone; ss_intent := intent |}.

(** What one [snapshot] call is to leave in the history: the id and the
    timestamp made from the ambient values, the label, and the data itself
    when it is a primitive (a copy of it otherwise). *)
Definition createdBy (call : Ambient * value * jsstring) (s : StateSnapshot) : Prop :=
  let '(amb, data, intent) := call in
  ss_id s = js "snap_" ++ ofInt (Z.of_N (now amb)) ++ js "_" ++ suffix amb
  /\ ss_timestamp s = now' amb
  /\ ss_intent s = intent
  /\ (isPrimitive data = true -> ss_data s = data).

Definition isReturns {A} (r : outcome A) : Prop :=
  match r with Returns _ => True | Throws _ => False end.

(** Two stores hold the same objects at the locations from [from] up to the
    end of the second. *)
Definition agrees (h2 h1 : heap) (from : nat) : Prop :=
  forall l : nat, (from <= l)%nat -> (l < length h1)%nat -> h2 !! l = h1 !! l.

(** A mutation that stays off the locations from [from] up to [upto]. *)
Definition avoids (from upto : nat) (m : Mutation) : Prop :=
  match m with
  | Assign l _ => (l < from)%nat \/ (upto <= l)%nat
  | Allocate _ => True
  end.

(** [t] occurs in [s] as a run of consecutive code units. *)
Definition within (t s : jsstring) : Prop :=
  exists before after, s = before ++ t ++ after.

(** A component that holds the hook and, beside it, a rollback manager with
    its store. *)
Record Application {E : Type} : Type := {
  app_hook : @Hook E;
  app_store : Store
}.

Arguments Application E : clear implicits.

Definition inHook {E A} (m : M (@Hook E) A) : M (Application E) A :=
  fun app =>
    let '(r, k') := m (app_hook app) in
    (r, {| app_hook := k'; app_store := app_store app |}).

Definition inStore {E A} (m : M Store A) : M (Application E) A :=
  fun app =>
    let '(r, s') := m (app_store app) in
    (r, {| app_hook := app_hook app; app_store := s' |}).

(** The state [{ items: [...] }] of the specification's examples. *)
Definition itemsState (ns : list Z) : json := JObj [(js "items", JArr (map JNum ns))].

(* ================================================================== *)
(** ** Data of the examples *)
(* ================================================================== *)

(** The test "trims old snapshots": a maximum of 3 and the snapshots 1, 2,
    3, 4. *)
Definition trimCalls : list (Ambient * value * jsstring) :=
  [ ({| now := 1; suffix := js "a"; now' := 1 |}, VNum 1, js "One");
    ({| now := 2; suffix := js "b"; now' := 2 |}, VNum 2, js "Two");
    ({| now := 3; suffix := js "c"; now' := 3 |}, VNum 3, js "Three");
    ({| now := 4; suffix := js "d"; now' := 4 |}, VNum 4, js "Four") ].

Definition trimConfig : RollbackManagerConfig :=
  {| cfg_maxSnapshots := Some 3%nat; cfg_onRollback := None |}.

(** An inference capability that always answers "not json". *)
Definition alwaysNotJson : jsstring -> M unit jsstring :=
  fun _ w => (Returns (js "not json"), w).

(** A [JSON.parse] cut down to the two texts the examples parse. *)
Definition parseEmpties (text : jsstring) : outcome json :=
  if bool_decide (text = js "{}") then Returns (JObj [])
  else if bool_decide (text = js "[]") then Returns (JArr [])
  else Throws (newError "Unexpected token").

(** [z.any()] *)
Definition anySchema : ZodSchema := {| safeParse := ParseSuccess |}.

Definition retries (n : nat) : @CorrectionConfig unit :=
  {| maxRetries := Some n; onRetry := None |}.

(** First an answer without JSON, then an object. *)
Definition secondTimeValid (call : nat) : jsstring :=
  match call with
  | O => js "not json"
  | S _ => js "{}"
  end.

(** The test "deep clones data": [data = { items: [1, 2, 3] }] in a store,
    a new manager, and [data.items.push(4)]. *)
Definition cloneStore : Store :=
  {| manager := createRollbackManager {| cfg_maxSnapshots := None; cfg_onRollback := None |};
     objects := [OArray [VNum 1; VNum 2; VNum 3]; ORecord [(js "items", VRef 0)]] |}.

Definition cloneAmbient : Ambient := {| now := 1700000000000; suffix := js "k3x9qa"; now' := 1700000000000 |}.

Definition pushFour : list Mutation := [Assign 0 (OArray [VNum 1; VNum 2; VNum 3; VNum 4])].

(* ================================================================== *)
(** ** Notions for the further properties *)
(* ================================================================== *)

(** The prompt the loop uses after the attempts [before]: the original
    prompt at first, then the correction built from the last attempt. *)
Definition expectedPrompt (original : jsstring) (before : list AttemptRecord) : jsstring :=
  match rev before with
  | [] => original
  | r :: _ => buildCorrectionPrompt original (ar_response r) (ar_errors r)
  end.

(** Every record of a history holds the prompt expected at its place. *)
Definition chained (original : jsstring) (history : list AttemptRecord) : Prop :=
  forall (i : nat) (r : AttemptRecord),
    history !! i = Some r -> ar_prompt r = expectedPrompt original (take i history).

(** A record of a response that failed validation, with the errors found;
    and of a response that passed, with the data validated. *)
Definition failedRecord (JSON_parse : jsstring -> outcome json) (schema : ZodSchema)
  (r : AttemptRecord) : Prop :=
  exists v, validateResponse JSON_parse (ar_response r) schema = Returns v
            /\ ar_errors r = vr_errors v /\ vr_success v = false.

Definition passedRecord (JSON_parse : jsstring -> outcome json) (schema : ZodSchema)
  (r : AttemptRecord) (data : option json) : Prop :=
  exists v, validateResponse JSON_parse (ar_response r) schema = Returns v
            /\ ar_errors r = vr_errors v /\ vr_success v = true /\ vr_data v = data.

(** What a result of the correction loop says of the run that made it. *)
Definition wellFormedResult {W} (JSON_parse : jsstring -> outcome json)
  (prompt : jsstring) (schema : ZodSchema) (config : @CorrectionConfig W)
  (res : CorrectionResult) : Prop :=
  cr_attempts res = length (cr_history res)
  /\ (length (cr_history res) <= settingsMaxRetries config)%nat
  /\ chained prompt (cr_history res)
  /\ (cr_success res = true ->
      exists before final,
        cr_history res = before ++ [final]
        /\ Forall (failedRecord JSON_parse schema) before
        /\ passedRecord JSON_parse schema final (cr_data res))
  /\ (cr_success res = false ->
      cr_data res = None
      /\ length (cr_history res) = settingsMaxRetries config
      /\ Forall (failedRecord JSON_parse schema) (cr_history res)).

(** An inference capability that settles its n-th call (from 0) as
    [answers n], a response or a rejection, and counts its calls. *)
Definition scriptedOutcomes {W} (answers : nat -> outcome jsstring)
  : jsstring -> M (W * nat) jsstring :=
  fun _ wx => (answers (snd wx), (fst wx, S (snd wx))).

(** A configuration whose retry callback keeps what it was called with, in
    a world that carries that list beside [W]. *)
Definition retryRecorder {W} (limit : option nat)
  : @CorrectionConfig (W * list (nat * list ValidationError)) :=
  {| maxRetries := limit;
     onRetry := Some (fun attempt errors wx =>
                  (Returns tt, (fst wx, snd wx ++ [(attempt, errors)]))) |}.

(** The calls of the retry callback that a history accounts for: one for
    every record but the last, with the number of the attempt and the
    errors of the record. *)
Definition retried (history : list AttemptRecord) : list (nat * list ValidationError) :=
  combine (seq 1 (length history - 1))
          (map ar_errors (take (length history - 1) history)).

(** The first call answers without JSON, the second rejects. *)
Definition rejectsSecond (call : nat) : outcome jsstring :=
  match call with
  | O => Returns (js "not json")
  | S _ => Throws (newError "Network error")
  end.

(** What the hook's transition helper does to the machine state: an event
    without a transition leaves it where it is. *)
Definition stepMachine (s : MachineState) (event : jsstring) : MachineState :=
  default s (getNextState s event).

Definition runEvents (s : MachineState) (events : list jsstring) : MachineState :=
  fold_left stepMachine events s.

(** The store of the test "trims old snapshots" after its four calls. *)
Definition trimmedStore : Store :=
  snd (snapshotAll trimCalls
         {| manager := createRollbackManager trimConfig; objects := [] |}).

(** A call of a method of the manager, or a mutation of the store by the
    code around it. *)
Inductive Operation : Type :=
| OpSnapshot (amb : Ambient) (data : value) (intent : jsstring)
| OpGetLastGoodState
| OpRollbackTo (snapshotId : jsstring)
| OpRollbackSteps (steps : Z)
| OpAutoRollback (currentState : value) (reason : jsstring)
| OpGetHistory
| OpClear
| OpMutate (m : Mutation).

(** The store after an operation, whether it returned or threw. *)
Definition perform (op : Operation) (w : Store) : Store :=
  match op with
  | OpSnapshot amb data intent => snd (snapshot amb data intent w)
  | OpGetLastGoodState => snd (getLastGoodState w)
  | OpRollbackTo snapshotId => snd (rollbackTo snapshotId w)
  | OpRollbackSteps steps => snd (rollbackSteps steps w)
  | OpAutoRollback currentState reason => snd (autoRollback currentState reason w)
  | OpGetHistory => snd (getHistory w)
  | OpClear => snd (clear w)
  | OpMutate m => snd (mutateAll [m] w)
  end.

Definition performAll (ops : list Operation) (w : Store) : Store :=
  fold_left (fun w op => perform op w) ops w.

(** A call of a method of the manager, as opposed to a mutation of the
    store by other code. *)
Definition isCall (op : Operation) : Prop :=
  match op with OpMutate _ => False | _ => True end.


(** Every run of [m] takes a world to one related to it by [R]. *)
Definition steps {W A} (R : W -> W -> Prop) (m : M W A) : Prop :=
  forall w, R w (snd (m w)).

(** Audit entries that lead from one machine state to another: each entry
    starts where the one before it ended, and is a transition of the
    table. *)
Fixpoint auditPath (s : MachineState) (entries : list AuditEntry) (s' : MachineState)
  : Prop :=
  match entries with
  | [] => s = s'
  | e :: rest =>
      ae_from e = s
      /\ getNextState s (ae_event e) = Some (ae_to e)
      /\ auditPath (ae_to e) rest s'
  end.

(** The audit log of the second hook is that of the first with entries
    added that lead from the first machine state to the second. *)
Definition auditExtends {E} (w w' : @Hook E) : Prop :=
  exists added,
    sc_history (hk_stateContext w') = sc_history (hk_stateContext w) ++ added
    /\ auditPath (hk_machineState w) added (hk_machineState w').

(** A computation that returns in every world: it never throws. *)
Definition returns {W A} (m : M W A) : Prop :=
  forall w, exists a, fst (m w) = Returns a.

(** What the correction loop leaves of a hook whose machine is GENERATING:
    everything but the outside world and the retry count. *)
Definition generatingKept {E} (w w' : @Hook E) : Prop :=
  hk_machineState w = GENERATING ->
  hk_machineState w' = GENERATING
  /\ hk_state w' = hk_state w
  /\ hk_pendingState w' = hk_pendingState w
  /\ hk_abortControllerRef w' = hk_abortControllerRef w
  /\ hk_ambientReads w' = hk_ambientReads w
  /\ sc_history (hk_stateContext w') = sc_history (hk_stateContext w)
  /\ sc_error (hk_stateContext w') = sc_error (hk_stateContext w)
  /\ sc_currentIntent (hk_stateContext w') = sc_currentIntent (hk_stateContext w)
  /\ sc_confidence (hk_stateContext w') = sc_confidence (hk_stateContext w).

(** The three parts of an audit entry that do not depend on the clock. *)
Definition entryStep (e : AuditEntry) : MachineState * jsstring * MachineState :=
  (ae_from e, ae_event e, ae_to e).

(** A hook as the tests set it up: state [{}], a schema that accepts
    anything, three attempts and a threshold of 0.7.  The provider gives the
    same answer to every call and counts its calls. *)
Definition exampleSynapse (answer : outcome jsstring) : @SynapseContextValue nat :=
  {| synapse_maxRetries := 3; synapse_confidenceThreshold := (7 # 10)%Q;
     provider_inference := fun _ calls => (answer, S calls) |}.

Definition exampleConfig (threshold : option Q) : @SemanticStateConfig nat :=
  {| schema := anySchema; initialState := JObj []; context := [];
     confidenceThreshold := threshold; onChange := None; onGate := None |}.

Definition intentOnly : ZodSchema -> json -> jsstring -> jsstring -> jsstring :=
  fun _ _ intent _ => intent.

Definition sameAmbient : nat -> Ambient := fun _ => cloneAmbient.

Definition userRefuses : M nat bool := fun e => (Returns false, e).

(* ================================================================== *)
(** * Properties *)
(* ================================================================== *)

(** ** Destructive-change detection *)

(** A state that is not an array and serialises to at most 50 code units is
    never flagged, whatever replaces it. *)
Lemma isDestructiveChange_small_non_array (previousState newState : json) :
  isArray previousState = false ->
  len (stringify previousState) <= 50 ->
  isDestructiveChange previousState newState = false.
Proof.
  intros Harr Hsize. unfold isDestructiveChange.
  replace (len (stringify previousState) >? 50) with false
    by (symmetry; rewrite Z.gtb_ltb; apply Z.ltb_ge; exact Hsize).
  rewrite Harr. reflexivity.
Qed.

(** A non-empty array replaced by the empty array is flagged. *)
Lemma isDestructiveChange_array_emptied (x : json) (xs : list json) :
  isDestructiveChange (JArr (x :: xs)) (JArr []) = true.
Proof.
  unfold isDestructiveChange.
  destruct (_ && _); reflexivity.
Qed.

(** C2, as the specification states it, does not hold of the code: the
    first of its two calls returns [false]. *)
Lemma isDestructiveChange_items_counterexample :
  ~ (isDestructiveChange (itemsState [1; 2; 3]) (itemsState []) = true
     /\ isDestructiveChange (itemsState [1]) (itemsState [1; 2; 3]) = false).
Proof. intros [H _]. vm_compute in H. discriminate H. Qed.

(** C2 (amended): [isDestructiveChange({items:[1,2,3]}, {items:[]})] is
    [false], since neither state is itself an array and the previous state
    serialises to 17 code units, not more than 50; the emptied-array rule is
    about the states themselves, so [isDestructiveChange([1,2,3], [])] is
    [true]; and [isDestructiveChange({items:[1]}, {items:[1,2,3]})] is
    [false]. *)
Theorem isDestructiveChange_items :
  isDestructiveChange (itemsState [1; 2; 3]) (itemsState []) = false
  /\ len (stringify (itemsState [1; 2; 3])) = 17
  /\ isDestructiveChange (JArr [JNum 1; JNum 2; JNum 3]) (JArr []) = true
  /\ isDestructiveChange (itemsState [1]) (itemsState [1; 2; 3]) = false.
Proof.
  split; [| split; [| split]].
  - apply isDestructiveChange_small_non_array; [reflexivity | vm_compute; discriminate].
  - reflexivity.
  - apply isDestructiveChange_array_emptied.
  - apply isDestructiveChange_small_non_array; [reflexivity | vm_compute; discriminate].
Qed.

(** ** Confidence *)

Lemma Qmin_mono_r (a x y : Q) : (x <= y)%Q -> (Qmin a x <= Qmin a y)%Q.
Proof. intros H. apply Q.min_le_compat_l. exact H. Qed.

Lemma Qmax_mono_r (a x y : Q) : (x <= y)%Q -> (Qmax a x <= Qmax a y)%Q.
Proof. intros H. apply Q.max_le_compat_l. exact H. Qed.

(** The blend before clamping does not grow with the difference ratio. *)
Lemma blend_antitone (m c d1 d2 : Q) :
  (d1 <= d2)%Q ->
  (m * (4 # 10) + (1 - d2) * (3 # 10) + c * (3 # 10)
   <= m * (4 # 10) + (1 - d1) * (3 # 10) + c * (3 # 10))%Q.
Proof.
  intros H.
  apply Qplus_le_compat; [| apply Qle_refl].
  apply Qplus_le_compat; [apply Qle_refl |].
  apply Qmult_le_compat_r; [| discriminate].
  unfold Qminus. apply Qplus_le_compat; [apply Qle_refl |].
  apply Qopp_le_compat. exact H.
Qed.

(** C9: with the previous state, the intent and the model's confidence
    fixed, [calculateConfidence] does not increase with the difference
    ratio: of two candidate states, the one whose serialised form differs
    no more from the previous state's gets a confidence at least as high.
    The arithmetic is that of the rationals. *)
Theorem calculateConfidence_antitone
  (previousState newState1 newState2 : json) (intent : jsstring)
  (modelConfidence : option Q) :
  (diffRatio previousState newState1 <= diffRatio previousState newState2)%Q ->
  (calculateConfidence previousState newState2 intent modelConfidence
   <= calculateConfidence previousState newState1 intent modelConfidence)%Q.
Proof.
  intros H. unfold calculateConfidence.
  apply Qmax_mono_r, Qmin_mono_r, blend_antitone, H.
Qed.

Lemma calculateConfidence_antitone_witness :
  Qle (diffRatio (itemsState [1]) (itemsState []))
      (diffRatio (itemsState [1]) (itemsState [1; 2]))
  /\ Qle (calculateConfidence (itemsState [1]) (itemsState [1; 2]) (js "Add two") None)
         (calculateConfidence (itemsState [1]) (itemsState []) (js "Add two") None).
Proof.
  split.
  - apply Qle_bool_iff. reflexivity.
  - apply (calculateConfidence_antitone (itemsState [1]) (itemsState []) (itemsState [1; 2])).
    apply Qle_bool_iff. reflexivity.
Defined.

(** The result is a number of [[0, 1]]. *)
Lemma calculateConfidence_range (previousState newState : json) (intent : jsstring)
  (modelConfidence : option Q) :
  (0 <= calculateConfidence previousState newState intent modelConfidence <= 1)%Q.
Proof.
  unfold calculateConfidence. split.
  - apply Q.le_max_l.
  - apply Q.max_lub; [discriminate | apply Q.le_min_l].
Qed.

(** ** Extraction and validation *)

Lemma within_refl (s : jsstring) : within s s.
Proof. exists [], []. rewrite app_nil_r. reflexivity. Qed.

Lemma within_trans (a b c : jsstring) : within a b -> within b c -> within a c.
Proof.
  intros (p1 & q1 & ->) (p2 & q2 & ->).
  exists (p2 ++ p1), (q1 ++ q2). rewrite <- !app_assoc. reflexivity.
Qed.

Lemma within_drop (n : nat) (s : jsstring) : within (drop n s) s.
Proof.
  exists (take n s), []. rewrite app_nil_r, take_drop. reflexivity.
Qed.

Lemma within_take (n : nat) (s : jsstring) : within (take n s) s.
Proof. exists [], (drop n s). simpl. rewrite take_drop. reflexivity. Qed.

Lemma dropWhile_suffix (p : N -> bool) (s : jsstring) :
  exists before, s = before ++ dropWhile p s.
Proof.
  induction s as [| c t [b IH]]; simpl.
  - exists []. reflexivity.
  - destruct (p c).
    + exists (c :: b). simpl. rewrite <- IH. reflexivity.
    + exists []. reflexivity.
Qed.

Lemma within_dropWhile (p : N -> bool) (s : jsstring) : within (dropWhile p s) s.
Proof.
  destruct (dropWhile_suffix p s) as [b Hb].
  exists b, []. rewrite app_nil_r. exact Hb.
Qed.

Lemma within_rev (t s : jsstring) : within t s -> within (rev t) (rev s).
Proof.
  intros (b & a & ->). exists (rev a), (rev b).
  rewrite !rev_app_distr, <- app_assoc. reflexivity.
Qed.

Lemma within_trim (s : jsstring) : within (trim s) s.
Proof.
  unfold trim.
  apply within_trans with (b := dropWhile isWhiteSpace s); [| apply within_dropWhile].
  rewrite <- (rev_involutive (dropWhile isWhiteSpace s)) at 2.
  apply within_rev, within_dropWhile.
Qed.

Lemma within_codeBlockMatch (text captured : jsstring) :
  codeBlockMatch text = Some captured -> within captured text.
Proof.
  unfold codeBlockMatch. intros H.
  destruct (indexOf fence text) as [i |]; [| discriminate].
  set (afterWord := if isPrefix (js "json") (drop (i + 3) text)
                    then drop 4 (drop (i + 3) text) else drop (i + 3) text) in *.
  assert (Hw : within afterWord text).
  { subst afterWord. destruct (isPrefix _ _).
    - eapply within_trans; apply within_drop.
    - apply within_drop. }
  destruct (indexOf fence (dropWhile isWhiteSpace afterWord)) as [q |]; [| discriminate].
  injection H as <-.
  eapply within_trans; [apply within_take |].
  eapply within_trans; [apply within_dropWhile | exact Hw].
Qed.

Lemma within_slice (s : jsstring) (a b : Z) : within (slice s a b) s.
Proof.
  unfold slice. eapply within_trans; [apply within_take | apply within_drop].
Qed.

(** What [extractJson] returns is a piece of the response. *)
Lemma extractJson_within (response : jsstring) : within (extractJson response) response.
Proof.
  unfold extractJson. destruct response as [| c r]; [apply within_refl |].
  set (resp := c :: r).
  assert (Htext : within
    (match codeBlockMatch (trim resp) with
     | Some captured => trim captured
     | None => trim resp
     end) resp).
  { destruct (codeBlockMatch (trim resp)) as [cap |] eqn:Hm.
    - eapply within_trans; [apply within_trim |].
      eapply within_trans; [apply within_codeBlockMatch, Hm | apply within_trim].
    - apply within_trim. }
  destruct (_ && _).
  - eapply within_trans; [apply within_slice | exact Htext].
  - exists [], resp. reflexivity.
Qed.

Lemma hasBoundaries_within (t s : jsstring) :
  within t s -> hasBoundaries t -> hasBoundaries s.
Proof.
  intros (b & a & ->) (i & j & c & d & Hij & Hi & Hj & Hc & Hd).
  exists (length b + i)%nat, (length b + j)%nat, c, d.
  repeat split; try assumption; try lia.
  - rewrite lookup_app_r by lia.
    replace (length b + i - length b)%nat with i by lia.
    apply lookup_app_l_Some. exact Hi.
  - rewrite lookup_app_r by lia.
    replace (length b + j - length b)%nat with j by lia.
    apply lookup_app_l_Some. exact Hj.
Qed.

Lemma searchFrom_found (p : N -> bool) (s : jsstring) (i : Z) :
  0 <= i ->
  searchFrom p s i <> -1 ->
  exists (k : nat) (c : N),
    searchFrom p s i = i + Z.of_nat k /\ s !! k = Some c /\ p c = true.
Proof.
  revert i. induction s as [| c t IH]; intros i Hi H; simpl in *.
  - congruence.
  - destruct (p c) eqn:Hp.
    + exists 0%nat, c. repeat split; [lia | assumption].
    + destruct (IH (i + 1)) as (k & d & Hk & Hl & Hd); [lia | exact H |].
      exists (S k), d. repeat split; [lia | exact Hl | exact Hd].
Qed.

Lemma lastIndexOfFrom_found (c : N) (s : jsstring) (i found : Z) :
  lastIndexOfFrom c s i found = found
  \/ exists k : nat, lastIndexOfFrom c s i found = i + Z.of_nat k /\ s !! k = Some c.
Proof.
  revert i found. induction s as [| d t IH]; intros i found; simpl.
  - left. reflexivity.
  - destruct (IH (i + 1) (if N.eqb d c then i else found)) as [H | (k & Hk & Hl)].
    + rewrite H. destruct (N.eqb d c) eqn:Hdc.
      * right. exists 0%nat. split; [lia |]. simpl.
        apply N.eqb_eq in Hdc. subst. reflexivity.
      * left. reflexivity.
    + right. exists (S k). split; [lia | exact Hl].
Qed.

Lemma lastIndexOf_found (c : N) (s : jsstring) :
  lastIndexOf c s = -1
  \/ exists k : nat, lastIndexOf c s = Z.of_nat k /\ s !! k = Some c.
Proof.
  unfold lastIndexOf.
  destruct (lastIndexOfFrom_found c s 0 (-1)) as [H | (k & Hk & Hl)].
  - left. exact H.
  - right. exists k. split; [lia | exact Hl].
Qed.

(** The test of [extractJson] on the boundaries it found succeeds only on a
    text that has boundaries. *)
Lemma boundaries_found (text : jsstring) :
  let jsonStart := search isOpening text in
  let jsonEnd := Z.max (lastIndexOf 93 text) (lastIndexOf 125 text) in
  (negb (jsonStart =? -1) && negb (jsonEnd =? -1) && (jsonEnd >? jsonStart))%bool = true ->
  hasBoundaries text.
Proof.
  intros jsonStart jsonEnd H.
  apply andb_true_iff in H as [H Hgt].
  apply andb_true_iff in H as [Hs He].
  apply negb_true_iff, Z.eqb_neq in Hs.
  apply negb_true_iff, Z.eqb_neq in He.
  rewrite Z.gtb_ltb in Hgt. apply Z.ltb_lt in Hgt.
  destruct (searchFrom_found isOpening text 0) as (i & c & Hi & Hli & Hc);
    [lia | exact Hs |].
  fold (search isOpening text) in Hi. fold jsonStart in Hi.
  assert (Hend : exists (j : nat) (d : N),
             jsonEnd = Z.of_nat j /\ text !! j = Some d /\ isClosing d = true).
  { subst jsonEnd.
    destruct (lastIndexOf_found 93 text) as [Ha | (ka & Ha & Hla)];
      destruct (lastIndexOf_found 125 text) as [Hb | (kb & Hb & Hlb)];
      rewrite Ha, Hb in *.
    - exfalso. apply He. reflexivity.
    - exists kb, 125%N. repeat split; [lia | exact Hlb].
    - exists ka, 93%N. repeat split; [lia | exact Hla].
    - destruct (Z.max_spec (Z.of_nat ka) (Z.of_nat kb)) as [[_ Hm] | [_ Hm]]; rewrite Hm.
      + exists kb, 125%N. repeat split; exact Hlb.
      + exists ka, 93%N. repeat split; exact Hla. }
  destruct Hend as (j & d & Hj & Hlj & Hd).
  exists i, j, c, d. repeat split; try assumption. lia.
Qed.

(** A response without boundaries yields no candidate text. *)
Lemma extractJson_no_boundaries (response : jsstring) :
  ~ hasBoundaries response -> extractJson response = [].
Proof.
  intros Hno. unfold extractJson. destruct response as [| c r]; [reflexivity |].
  set (resp := c :: r) in *.
  set (text := match codeBlockMatch (trim resp) with
               | Some captured => trim captured
               | None => trim resp
               end).
  assert (Htext : within text resp).
  { subst text. destruct (codeBlockMatch (trim resp)) as [cap |] eqn:Hm.
    - eapply within_trans; [apply within_trim |].
      eapply within_trans; [apply within_codeBlockMatch, Hm | apply within_trim].
    - apply within_trim. }
  destruct (_ && _) eqn:Hcond; [| reflexivity].
  exfalso. apply Hno. apply (hasBoundaries_within text resp Htext).
  apply boundaries_found. exact Hcond.
Qed.

(** The pipeline returns for every response, schema and [JSON.parse]. *)
Lemma validateResponse_returns (JSON_parse : jsstring -> outcome json)
  (response : jsstring) (schema : ZodSchema) :
  exists v, validateResponse JSON_parse response schema = Returns v.
Proof.
  unfold validateResponse.
  destruct (extractJson response); [eexists; reflexivity |].
  destruct (JSON_parse _); eexists; reflexivity.
Qed.

(** C6: the validation pipeline returns a result for every input string and
    never throws (a throw of [JSON.parse] is caught and becomes the result's
    error); and on a response without boundaries, extraction gives the empty
    string and validation fails with exactly one error, whose message is
    "No JSON found in response". *)
Theorem validateResponse_total_and_no_json
  (JSON_parse : jsstring -> outcome json) (schema : ZodSchema) (response : jsstring) :
  (exists v, validateResponse JSON_parse response schema = Returns v)
  /\ (~ hasBoundaries response ->
      extractJson response = []
      /\ exists e,
           validateResponse JSON_parse response schema
           = Returns {| vr_success := false; vr_data := None;
                        vr_errors := [e]; vr_rawJson := [] |}
           /\ ve_message e = js "No JSON found in response").
Proof.
  split; [apply validateResponse_returns |].
  intros Hno. pose proof (extractJson_no_boundaries response Hno) as Hx.
  split; [exact Hx |].
  exists (noJsonError response). split; [| reflexivity].
  unfold validateResponse. rewrite Hx. reflexivity.
Qed.

(** ** Rollback manager: the history *)

Lemma trimOld_drop (n : nat) (snaps : list StateSnapshot) :
  trimOld n snaps = drop (length snaps - n) snaps.
Proof.
  induction snaps as [| s rest IH]; simpl; [reflexivity |].
  destruct (Nat.ltb_spec n (S (length rest))) as [H | H].
  - rewrite IH. replace (S (length rest) - n)%nat with (S (length rest - n)) by lia.
    reflexivity.
  - replace (S (length rest) - n)%nat with 0%nat by lia. reflexivity.
Qed.

Lemma trimOld_length (n : nat) (snaps : list StateSnapshot) :
  (length (trimOld n snaps) <= n)%nat.
Proof. rewrite trimOld_drop, length_drop. lia. Qed.

(** Induction on JSON trees, with the hypothesis for every element of an
    array and every member of an object. *)
Lemma json_induction (P : json -> Prop) :
  P JNull ->
  (forall b, P (JBool b)) ->
  (forall n, P (JNum n)) ->
  (forall s, P (JStr s)) ->
  (forall items, Forall P items -> P (JArr items)) ->
  (forall members, Forall (fun m => P (snd m)) members -> P (JObj members)) ->
  forall t, P t.
Proof.
  intros Hnull Hbool Hnum Hstr Harr Hobj.
  fix IH 1. intros [| b | n | s | items | members].
  - exact Hnull.
  - apply Hbool.
  - apply Hnum.
  - apply Hstr.
  - apply Harr. induction items as [| t ts IHts]; constructor; [apply IH | exact IHts].
  - apply Hobj. induction members as [| m ms IHms]; constructor; [apply IH | exact IHms].
Qed.

Lemma alloc_JArr (items : list json) (h : heap) :
  alloc (JArr items) h
  = let '(elements, h') := allocItems items h in
    (VRef (length h'), h' ++ [OArray elements]).
Proof. reflexivity. Qed.

Lemma alloc_JObj (members : list (jsstring * json)) (h : heap) :
  alloc (JObj members) h
  = let '(members', h') := allocMembers members h in
    (VRef (length h'), h' ++ [ORecord members']).
Proof. reflexivity. Qed.

Lemma agrees_prefix (h2 h1 ext : heap) (from from' : nat) :
  agrees h2 (h1 ++ ext) from -> (from <= from')%nat -> agrees h2 h1 from'.
Proof.
  intros H Hle l Hl1 Hl2. rewrite H.
  - apply lookup_app_l. exact Hl2.
  - lia.
  - rewrite length_app. lia.
Qed.

(** What [alloc] promises about a tree: the store only grows, and the value
    returned reads back as the tree in every store that kept the new
    objects, given fuel for as many references as objects were made. *)
Definition allocSpec (t : json) : Prop :=
  forall (h : heap) (v : value) (h' : heap),
    alloc t h = (v, h') ->
    exists ext,
      h' = h ++ ext
      /\ forall (h2 : heap) (fuel : nat),
           agrees h2 h' (length h) -> (length ext <= fuel)%nat ->
           view fuel h2 v = Some t.

Lemma allocItems_spec (items : list json) :
  Forall allocSpec items ->
  forall (h : heap) (vs : list value) (h' : heap),
    allocItems items h = (vs, h') ->
    exists ext,
      h' = h ++ ext
      /\ forall (h2 : heap) (fuel : nat),
           agrees h2 h' (length h) -> (length ext <= fuel)%nat ->
           mapM (view fuel h2) vs = Some items.
Proof.
  induction 1 as [| t ts Ht _ IH]; intros h vs h' Ha; simpl in Ha.
  - injection Ha as <- <-. exists []. rewrite app_nil_r. split; [reflexivity |].
    intros. reflexivity.
  - destruct (alloc t h) as [v h1] eqn:Hv.
    destruct (allocItems ts h1) as [vs' h2'] eqn:Hvs.
    injection Ha as <- <-.
    destruct (Ht _ _ _ Hv) as (e1 & -> & Hview1).
    destruct (IH _ _ _ Hvs) as (e2 & -> & Hview2).
    exists (e1 ++ e2). rewrite <- app_assoc. split; [reflexivity |].
    intros h2 fuel Hag Hfuel. rewrite length_app in Hfuel.
    apply mapM_Some. constructor.
    + apply Hview1; [| lia].
      rewrite app_assoc in Hag. eapply agrees_prefix; [exact Hag | lia].
    + apply mapM_Some. apply Hview2; [| lia].
      rewrite app_assoc in Hag. intros l Hl1 Hl2. apply Hag; [| exact Hl2].
      rewrite length_app in Hl1. lia.
Qed.

Lemma allocMembers_spec (members : list (jsstring * json)) :
  Forall (fun m => allocSpec (snd m)) members ->
  forall (h : heap) (vs : list (jsstring * value)) (h' : heap),
    allocMembers members h = (vs, h') ->
    exists ext,
      h' = h ++ ext
      /\ forall (h2 : heap) (fuel : nat),
           agrees h2 h' (length h) -> (length ext <= fuel)%nat ->
           mapM (fun m => pair (fst m) <$> view fuel h2 (snd m)) vs = Some members.
Proof.
  induction 1 as [| [k t] ms Ht _ IH]; intros h vs h' Ha; simpl in Ha.
  - injection Ha as <- <-. exists []. rewrite app_nil_r. split; [reflexivity |].
    intros. reflexivity.
  - destruct (alloc t h) as [v h1] eqn:Hv.
    destruct (allocMembers ms h1) as [vs' h2'] eqn:Hvs.
    injection Ha as <- <-.
    destruct (Ht _ _ _ Hv) as (e1 & -> & Hview1).
    destruct (IH _ _ _ Hvs) as (e2 & -> & Hview2).
    exists (e1 ++ e2). rewrite <- app_assoc. split; [reflexivity |].
    intros h2 fuel Hag Hfuel. rewrite length_app in Hfuel.
    apply mapM_Some. constructor.
    + simpl. rewrite Hview1; [reflexivity | | lia].
      rewrite app_assoc in Hag. eapply agrees_prefix; [exact Hag | lia].
    + apply mapM_Some. apply Hview2; [| lia].
      rewrite app_assoc in Hag. intros l Hl1 Hl2. apply Hag; [| exact Hl2].
      rewrite length_app in Hl1. lia.
Qed.

Lemma alloc_spec (t : json) : allocSpec t.
Proof.
  induction t as [| b | n | s | items IH | members IH] using json_induction;
    intros h v h' Ha.
  1-4: simpl in Ha; injection Ha as <- <-; exists []; rewrite app_nil_r;
       (split; [reflexivity |]); intros h2 [| fuel] _ _; reflexivity.
  - rewrite alloc_JArr in Ha.
    destruct (allocItems items h) as [es h1] eqn:He. injection Ha as <- <-.
    destruct (allocItems_spec items IH _ _ _ He) as (ext & -> & Hview).
    exists (ext ++ [OArray es]). rewrite <- app_assoc. split; [reflexivity |].
    intros h2 fuel Hag Hfuel. rewrite length_app in Hfuel. simpl in Hfuel.
    destruct fuel as [| fuel]; [lia |]. simpl.
    rewrite app_assoc in Hag.
    rewrite (Hag (length (h ++ ext))).
    + rewrite lookup_app_r by lia. rewrite Nat.sub_diag. simpl.
      rewrite Hview; [reflexivity | | lia].
      eapply agrees_prefix; [exact Hag | lia].
    + rewrite length_app. lia.
    + rewrite !length_app. simpl. lia.
  - rewrite alloc_JObj in Ha.
    destruct (allocMembers members h) as [es h1] eqn:He. injection Ha as <- <-.
    destruct (allocMembers_spec members IH _ _ _ He) as (ext & -> & Hview).
    exists (ext ++ [ORecord es]). rewrite <- app_assoc. split; [reflexivity |].
    intros h2 fuel Hag Hfuel. rewrite length_app in Hfuel. simpl in Hfuel.
    destruct fuel as [| fuel]; [lia |]. simpl.
    rewrite app_assoc in Hag.
    rewrite (Hag (length (h ++ ext))).
    + rewrite lookup_app_r by lia. rewrite Nat.sub_diag. simpl.
      rewrite Hview; [reflexivity | | lia].
      eapply agrees_prefix; [exact Hag | lia].
    + rewrite length_app. lia.
    + rewrite !length_app. simpl. lia.
Qed.

Lemma view_primitive (fuel : nat) (h : heap) (v : value) :
  isPrimitive v = true -> exists t, forall fuel' h', view fuel' h' v = Some t.
Proof.
  destruct v; intros Hp; try discriminate Hp; eexists; intros [| f] h'; reflexivity.
Qed.

Lemma agrees_length (h2 h1 : heap) (from : nat) :
  agrees h2 h1 from -> (from < length h1)%nat -> (length h1 <= length h2)%nat.
Proof.
  intros Hag Hlt.
  assert (Hl : is_Some (h1 !! (length h1 - 1)%nat)) by (apply lookup_lt_is_Some; lia).
  rewrite <- Hag in Hl by lia.
  apply lookup_lt_is_Some in Hl. lia.
Qed.

(** [deepClone] either throws and leaves the store as it was, or returns in
    a store that kept its objects and gained the copy's: the copy then reads
    as the original did, in every store that kept the copy's objects. *)
Lemma deepClone_spec (data : value) (h : heap) :
  (exists e, deepClone data h = (Throws e, h))
  \/ (exists clone ext t,
        deepClone data h = (Returns clone, h ++ ext)
        /\ (isPrimitive data = true -> clone = data)
        /\ view (length h) h data = Some t
        /\ forall h2, agrees h2 (h ++ ext) (length h) ->
                      view (length h2) h2 clone = Some t).
Proof.
  unfold deepClone. destruct (isPrimitive data) eqn:Hp.
  - right. destruct (view_primitive 0 h data Hp) as [t Ht].
    exists data, [], t. rewrite app_nil_r.
    split; [reflexivity |]. split; [auto |]. split; [apply Ht |].
    intros h2 _. apply Ht.
  - unfold structuredClone. destruct (view (length h) h data) as [t |] eqn:Hv.
    + right. destruct (alloc t h) as [v h'] eqn:Ha.
      destruct (alloc_spec t _ _ _ Ha) as (ext & -> & Hview).
      exists v, ext, t. split; [reflexivity |]. split; [discriminate |].
      split; [reflexivity |].
      intros h2 Hag. apply Hview; [exact Hag |].
      destruct ext as [| o ext]; [simpl; lia |].
      pose proof (agrees_length h2 (h ++ o :: ext) (length h) Hag) as Hlen.
      rewrite length_app in Hlen. simpl in *. lia.
    + left. eexists. reflexivity.
Qed.

(** One call of [snapshot], by the outcome of its [deepClone]. *)
Lemma snapshot_spec (amb : Ambient) (data : value) (intent : jsstring) (w : Store) :
  match deepClone data (objects w) with
  | (Throws e, h') =>
      snapshot amb data intent w = (Throws e, {| manager := manager w; objects := h' |})
  | (Returns clone, h') =>
      snapshot amb data intent w
      = (Returns (ss_id (pushed amb clone intent)),
         {| manager :=
              {| snapshots := trimOld (maxSnapshots (manager w))
                                (snapshots (manager w) ++ [pushed amb clone intent]);
                 maxSnapshots := maxSnapshots (manager w);
                 onRollback := onRollback (manager w) |};
            objects := h' |})
  end.
Proof.
  unfold snapshot, bind, onObjects, gets, setSnapshots, modify, ret.
  destruct (deepClone data (objects w)) as [[clone | e] h']; reflexivity.
Qed.

(** [snapshot] never changes the configured maximum, and leaves at most that
    many entries whenever it found at most that many. *)
Lemma snapshot_bounded (amb : Ambient) (data : value) (intent : jsstring) (w : Store) :
  let w' := snd (snapshot amb data intent w) in
  maxSnapshots (manager w') = maxSnapshots (manager w)
  /\ ((length (snapshots (manager w)) <= maxSnapshots (manager w))%nat ->
      (length (snapshots (manager w')) <= maxSnapshots (manager w'))%nat).
Proof.
  pose proof (snapshot_spec amb data intent w) as H.
  destruct (deepClone data (objects w)) as [[clone | e] h']; rewrite H; simpl.
  - split; [reflexivity |]. intros _. apply trimOld_length.
  - split; [reflexivity | auto].
Qed.

Lemma snapshotAll_bounded (calls : list (Ambient * value * jsstring)) (w : Store) :
  let w' := snd (snapshotAll calls w) in
  maxSnapshots (manager w') = maxSnapshots (manager w)
  /\ ((length (snapshots (manager w)) <= maxSnapshots (manager w))%nat ->
      (length (snapshots (manager w')) <= maxSnapshots (manager w'))%nat).
Proof.
  revert w. induction calls as [| [[amb data] intent] rest IH]; intros w; simpl.
  - auto.
  - pose proof (snapshot_bounded amb data intent w) as [Hm Hb].
    destruct (snapshot amb data intent w) as [r w1]. simpl in Hm, Hb.
    specialize (IH w1). destruct (snapshotAll rest w1) as [rs w2]. simpl in *.
    destruct IH as [Hm' Hb']. split; [congruence |].
    intros H. apply Hb', Hb, H.
Qed.

(** The history after a run of calls that all returned: what was there,
    followed by what the calls made, cut to the last [maxSnapshots]. *)
Lemma snapshotAll_history (calls : list (Ambient * value * jsstring)) (w : Store) :
  Forall isReturns (fst (snapshotAll calls w)) ->
  (length (snapshots (manager w)) <= maxSnapshots (manager w))%nat ->
  exists created,
    Forall2 createdBy calls created
    /\ snapshots (manager (snd (snapshotAll calls w)))
       = drop (length (snapshots (manager w) ++ created) - maxSnapshots (manager w))
           (snapshots (manager w) ++ created).
Proof.
  revert w. induction calls as [| [[amb data] intent] rest IH]; intros w Hret Hlen; simpl.
  - exists []. split; [constructor |]. rewrite app_nil_r.
    replace (_ - _)%nat with 0%nat by lia. reflexivity.
  - simpl in Hret.
    pose proof (snapshot_spec amb data intent w) as Hs.
    pose proof (snapshot_bounded amb data intent w) as [Hm Hb].
    destruct (deepClone_spec data (objects w)) as [[e He] | (clone & ext & t & Hc & Hprim & _)].
    { rewrite He in Hs. rewrite Hs in Hret.
      destruct (snapshotAll rest _) as [rs w2]. simpl in Hret.
      inversion Hret as [| ? ? Habs _]. destruct Habs. }
    rewrite Hc in Hs. rewrite Hs in *. clear Hs. simpl in Hm, Hb.
    set (w1 := {| manager := _; objects := _ |}) in *.
    specialize (IH w1).
    destruct (snapshotAll rest w1) as [rs w2] eqn:Hrest. simpl in *.
    inversion Hret as [| ? ? _ Hret']. subst.
    destruct (IH Hret' (Hb Hlen)) as (created & Hcr & Hfinal).
    exists (pushed amb clone intent :: created). split.
    + constructor; [| exact Hcr]. simpl. auto.
    + rewrite Hfinal. subst w1. simpl.
      rewrite trimOld_drop.
      set (init := snapshots (manager w)) in *.
      set (n := maxSnapshots (manager w)) in *.
      set (s := pushed amb clone intent).
      rewrite <- drop_app_le by (rewrite length_app; simpl; lia).
      rewrite drop_drop. rewrite <- app_assoc. simpl.
      f_equal. rewrite !length_app, length_drop, !length_app. simpl. lia.
Qed.

(** C7: whatever the configured maximum and whatever calls of [snapshot]
    are made on a new manager, the history never holds more than
    [maxSnapshots] entries; and once [maxSnapshots + k] calls have inserted
    their snapshot, the history is exactly the last [maxSnapshots] of the
    snapshots made, in the order they were made: the first [k] are gone. *)
Theorem snapshots_bounded_most_recent
  (config : RollbackManagerConfig) (h : heap)
  (calls : list (Ambient * value * jsstring)) :
  let w0 := {| manager := createRollbackManager config; objects := h |} in
  let n := maxSnapshots (manager w0) in
  let results := fst (snapshotAll calls w0) in
  let retained := snapshots (manager (snd (snapshotAll calls w0))) in
  (length retained <= n)%nat
  /\ (Forall isReturns results ->
      forall k : nat, length calls = (n + k)%nat ->
      exists created,
        Forall2 createdBy calls created
        /\ retained = drop k created
        /\ length retained = n).
Proof.
  intros w0 n results retained. split.
  - pose proof (snapshotAll_bounded calls w0) as [Hm Hb].
    subst retained n. simpl in *. rewrite <- Hm. apply Hb. lia.
  - intros Hret k Hk.
    destruct (snapshotAll_history calls w0 Hret) as (created & Hcr & Hfinal);
      [simpl; lia |].
    exists created. split; [exact Hcr |].
    pose proof Hcr as Hlen. apply Forall2_length in Hlen.
    subst retained. rewrite Hfinal.
    change (snapshots (manager w0)) with (@nil StateSnapshot).
    change (maxSnapshots (manager w0)) with n. rewrite app_nil_l.
    replace (length created - n)%nat with k by lia.
    split; [reflexivity |]. rewrite length_drop. lia.
Qed.

Lemma snapshots_bounded_most_recent_witness :
  Forall isReturns
    (fst (snapshotAll trimCalls
            {| manager := createRollbackManager trimConfig; objects := [] |}))
  /\ length trimCalls = (3 + 1)%nat
  /\ exists created,
       Forall2 createdBy trimCalls created
       /\ snapshots (manager (snd (snapshotAll trimCalls
                      {| manager := createRollbackManager trimConfig; objects := [] |})))
          = drop 1 created
       /\ length (snapshots (manager (snd (snapshotAll trimCalls
                      {| manager := createRollbackManager trimConfig; objects := [] |}))))
          = 3%nat.
Proof.
  assert (Hret : Forall isReturns
    (fst (snapshotAll trimCalls
            {| manager := createRollbackManager trimConfig; objects := [] |})))
    by (vm_compute; repeat constructor).
  split; [exact Hret |]. split; [reflexivity |].
  exact (proj2 (snapshots_bounded_most_recent trimConfig [] trimCalls)
           Hret 1%nat eq_refl).
Defined.

Example snapshots_trimmed_data :
  map ss_data (snapshots (manager (snd (snapshotAll trimCalls
        {| manager := createRollbackManager trimConfig; objects := [] |}))))
  = [VNum 2; VNum 3; VNum 4].
Proof. reflexivity. Qed.

(** C10: [availableRollbacks] is [max(0, length - 1)] of the history, that
    is the number of snapshots older than the newest; so on a new manager
    it is 0 after exactly one call of [snapshot]. *)
Theorem availableRollbacks_excludes_newest :
  (forall m : RollbackManager,
      availableRollbacks m = Z.max 0 (Z.of_nat (length (snapshots m)) - 1)
      /\ availableRollbacks m = Z.of_nat (length (snapshots m) - 1))
  /\ (forall (config : RollbackManagerConfig) (h : heap)
             (amb : Ambient) (data : value) (intent : jsstring),
         availableRollbacks
           (manager (snd (snapshot amb data intent
                            {| manager := createRollbackManager config; objects := h |})))
         = 0).
Proof.
  split.
  - intros m. unfold availableRollbacks. split; [reflexivity | lia].
  - intros config h amb data intent.
    set (w0 := {| manager := createRollbackManager config; objects := h |}).
    pose proof (snapshot_spec amb data intent w0) as Hs.
    destruct (deepClone data (objects w0)) as [[clone | e] h']; rewrite Hs;
      unfold availableRollbacks; cbn [snd manager snapshots].
    + rewrite trimOld_drop, length_drop. simpl. lia.
    + reflexivity.
Qed.

(** ** Rollback manager: the copies *)

Lemma mutate_agrees (h1 : heap) (from : nat) (m : Mutation) (hc : heap) :
  agrees hc h1 from -> (length h1 <= length hc)%nat ->
  avoids from (length h1) m ->
  agrees (mutate m hc) h1 from /\ (length h1 <= length (mutate m hc))%nat.
Proof.
  intros Hag Hlen Hav. destruct m as [l o | o]; simpl in *.
  - split; [| rewrite length_insert; exact Hlen].
    intros l' Hl1 Hl2. rewrite list_lookup_insert_ne by lia. apply Hag; assumption.
  - split; [| rewrite length_app; lia].
    intros l' Hl1 Hl2. rewrite lookup_app_l by lia. apply Hag; assumption.
Qed.

Lemma mutations_agree (h1 : heap) (from : nat) (ms : list Mutation) (hc : heap) :
  agrees hc h1 from -> (length h1 <= length hc)%nat ->
  Forall (avoids from (length h1)) ms ->
  agrees (fold_left (fun h m => mutate m h) ms hc) h1 from.
Proof.
  revert hc. induction ms as [| m ms IH]; intros hc Hag Hlen Hav; simpl.
  - exact Hag.
  - inversion Hav as [| ? ? Hm Hms]. subst.
    destruct (mutate_agrees h1 from m hc Hag Hlen Hm) as [Hag' Hlen'].
    apply IH; assumption.
Qed.

Lemma agrees_refl (h : heap) (from : nat) : agrees h h from.
Proof. intros l _ _. reflexivity. Qed.

Lemma last_trimOld (n : nat) (snaps : list StateSnapshot) (s : StateSnapshot) :
  (0 < n)%nat ->
  let kept := trimOld n (snaps ++ [s]) in
  kept !! (length kept - 1)%nat = Some s /\ (0 < length kept)%nat.
Proof.
  intros Hn kept. subst kept. rewrite trimOld_drop.
  rewrite length_drop, length_app. simpl.
  split; [| lia].
  rewrite lookup_drop.
  replace (length snaps + 1 - n + (length snaps + 1 - (length snaps + 1 - n) - 1))%nat
    with (length snaps) by lia.
  rewrite lookup_app_r by lia. rewrite Nat.sub_diag. reflexivity.
Qed.

(** C8: [snapshot] stores a deep copy.  When a call returns, the snapshot it
    pushed holds a copy that reads as the data did at the call; and after
    any assignments to objects that existed at the call (the original and
    all it refers to) or were created since, and any creation of objects,
    the stored copy still reads the same, and so does what
    [getLastGoodState] then returns. *)
Theorem snapshot_stores_deep_copy
  (amb : Ambient) (data : value) (intent : jsstring) (w : Store)
  (id : jsstring) (w1 : Store) :
  snapshot amb data intent w = (Returns id, w1) ->
  exists clone t,
    snapshots (manager w1)
    = trimOld (maxSnapshots (manager w)) (snapshots (manager w) ++ [pushed amb clone intent])
    /\ view (length (objects w)) (objects w) data = Some t
    /\ forall ms : list Mutation,
         Forall (avoids (length (objects w)) (length (objects w1))) ms ->
         let w2 := snd (mutateAll ms w1) in
         manager w2 = manager w1
         /\ view (length (objects w2)) (objects w2) clone = Some t
         /\ ((0 < maxSnapshots (manager w))%nat ->
             exists r w3,
               getLastGoodState w2 = (Returns r, w3)
               /\ view (length (objects w3)) (objects w3) r = Some t).
Proof.
  intros Hsnap.
  pose proof (snapshot_spec amb data intent w) as Hs.
  destruct (deepClone_spec data (objects w)) as [[e He] | (clone & ext & t & Hc & _ & Hv & Hkeep)].
  { rewrite He in Hs. congruence. }
  rewrite Hc in Hs. rewrite Hs in Hsnap. injection Hsnap as <- <-.
  exists clone, t. split; [reflexivity |]. split; [exact Hv |].
  intros ms Hms w2. cbn [objects manager] in *.
  set (h1 := objects w ++ ext) in *.
  set (h2 := fold_left (fun h m => mutate m h) ms h1).
  assert (Hag : agrees h2 h1 (length (objects w))).
  { apply mutations_agree; [apply agrees_refl | lia | exact Hms]. }
  assert (Hclone : view (length h2) h2 clone = Some t) by (apply Hkeep, Hag).
  split; [reflexivity |]. split; [exact Hclone |].
  intros Hn.
  destruct (last_trimOld (maxSnapshots (manager w)) (snapshots (manager w))
              (pushed amb clone intent) Hn) as [Hlast Hpos].
  unfold getLastGoodState, bind, gets, ret, throw. subst w2.
  cbn [mutateAll modify snd manager snapshots objects].
  destruct (Nat.eqb_spec (length (trimOld (maxSnapshots (manager w))
              (snapshots (manager w) ++ [pushed amb clone intent]))) 0) as [H0 | _];
    [lia |].
  rewrite Hlast. unfold onObjects. cbn [objects manager ss_data pushed].
  fold h2.
  destruct (deepClone_spec clone h2) as [[e He] | (r & ext' & t' & Hr & _ & Hv' & Hkeep')].
  - exfalso. unfold deepClone in He. destruct (isPrimitive clone); [discriminate He |].
    unfold structuredClone in He. rewrite Hclone in He.
    destruct (alloc t h2). discriminate He.
  - rewrite Hr. eexists _, _. split; [reflexivity |]. cbn [objects].
    rewrite Hv' in Hclone. injection Hclone as ->.
    apply Hkeep', agrees_refl.
Qed.

(** ** Self-correction loop *)

Section LoopSteps.

Variable JSON_parse : jsstring -> outcome json.
Context {W : Type}.
Variables (prompt : jsstring) (schema : ZodSchema).
Variable inference : jsstring -> M W jsstring.
Variable config : @CorrectionConfig W.

Let loop := correctionLoop JSON_parse prompt schema inference config.
Let limit := settingsMaxRetries config.

(** The record an iteration appends for a response. *)
Let attempt (currentPrompt response : jsstring) (v : ValidationResult) : AttemptRecord :=
  {| ar_response := response; ar_errors := vr_errors v; ar_prompt := currentPrompt |}.

(** The loop condition fails: the failure result, no call made. *)
Lemma loop_exhausted (attempts : nat) (cur : jsstring) (history : list AttemptRecord) (w : W) :
  (limit <= attempts)%nat ->
  loop attempts cur history w
  = (Returns {| cr_success := false; cr_data := None;
                cr_attempts := attempts; cr_history := history |}, w).
Proof.
  intros H. unfold loop. rewrite correctionLoop_equation_1.
  destruct (lt_dec attempts (settingsMaxRetries config)) as [Hlt | Hn];
    [unfold limit in H; lia | reflexivity].
Qed.

(** The call throws: so does the loop. *)
Lemma loop_throws (attempts : nat) (cur : jsstring) (history : list AttemptRecord)
  (w w1 : W) (e : Error) :
  (attempts < limit)%nat ->
  inference cur w = (Throws e, w1) ->
  loop attempts cur history w = (Throws e, w1).
Proof.
  intros H Hi. unfold loop. rewrite correctionLoop_equation_1.
  destruct (lt_dec attempts (settingsMaxRetries config)) as [Hlt | Hn];
    [| unfold limit in H; lia].
  cbn [correctionLoop_unfold_clause_1]. unfold bind. rewrite Hi. reflexivity.
Qed.

(** A valid response ends the loop with success. *)
Lemma loop_valid (attempts : nat) (cur : jsstring) (history : list AttemptRecord)
  (w w1 : W) (response : jsstring) (v : ValidationResult) :
  (attempts < limit)%nat ->
  inference cur w = (Returns response, w1) ->
  validateResponse JSON_parse response schema = Returns v ->
  vr_success v = true ->
  loop attempts cur history w
  = (Returns {| cr_success := true; cr_data := vr_data v;
                cr_attempts := S attempts;
                cr_history := history ++ [attempt cur response v] |}, w1).
Proof.
  intros H Hi Hv Hs. unfold loop. rewrite correctionLoop_equation_1.
  destruct (lt_dec attempts (settingsMaxRetries config)) as [Hlt | Hn];
    [| unfold limit in H; lia].
  cbn [correctionLoop_unfold_clause_1]. unfold bind, liftOutcome.
  rewrite Hi, Hv, Hs. reflexivity.
Qed.

(** An invalid response on the last attempt ends the loop with failure. *)
Lemma loop_invalid_last (attempts : nat) (cur : jsstring) (history : list AttemptRecord)
  (w w1 : W) (response : jsstring) (v : ValidationResult) :
  (attempts < limit)%nat -> (limit <= S attempts)%nat ->
  inference cur w = (Returns response, w1) ->
  validateResponse JSON_parse response schema = Returns v ->
  vr_success v = false ->
  loop attempts cur history w
  = (Returns {| cr_success := false; cr_data := None;
                cr_attempts := S attempts;
                cr_history := history ++ [attempt cur response v] |}, w1).
Proof.
  intros H Hlast Hi Hv Hs. unfold loop. rewrite correctionLoop_equation_1.
  destruct (lt_dec attempts (settingsMaxRetries config)) as [Hlt | Hn];
    [| unfold limit in H; lia].
  cbn [correctionLoop_unfold_clause_1]. unfold bind, liftOutcome.
  rewrite Hi, Hv, Hs.
  destruct (Nat.leb_spec (settingsMaxRetries config) (S attempts)) as [_ | Hgt];
    [reflexivity | unfold limit in Hlast; lia].
Qed.

(** An invalid response with attempts left: the retry callback runs and the
    loop goes on with the correction prompt. *)
Lemma loop_invalid_retry (attempts : nat) (cur : jsstring) (history : list AttemptRecord)
  (w w1 w2 : W) (response : jsstring) (v : ValidationResult) :
  (S attempts < limit)%nat ->
  inference cur w = (Returns response, w1) ->
  validateResponse JSON_parse response schema = Returns v ->
  vr_success v = false ->
  settingsOnRetry config (S attempts) (vr_errors v) w1 = (Returns tt, w2) ->
  loop attempts cur history w
  = loop (S attempts) (buildCorrectionPrompt prompt response (vr_errors v))
      (history ++ [attempt cur response v]) w2.
Proof.
  intros H Hi Hv Hs Hr. unfold loop. rewrite correctionLoop_equation_1.
  destruct (lt_dec attempts (settingsMaxRetries config)) as [Hlt | Hn];
    [| unfold limit in H; lia].
  cbn [correctionLoop_unfold_clause_1]. unfold bind, liftOutcome.
  rewrite Hi, Hv, Hs.
  destruct (Nat.leb_spec (settingsMaxRetries config) (S attempts)) as [Hle | _];
    [unfold limit in H; lia |].
  rewrite Hr. reflexivity.
Qed.

End LoopSteps.

Lemma settingsOnRetry_lift {W X : Type} (config : @CorrectionConfig W)
  (attempts : nat) (errors : list ValidationError) (w w' : W) (x : X) :
  settingsOnRetry config attempts errors w = (Returns tt, w') ->
  settingsOnRetry (liftConfig config) attempts errors (w, x) = (Returns tt, (w', x)).
Proof.
  unfold settingsOnRetry, liftConfig. simpl.
  destruct (onRetry config) as [f |]; unfold onFst, ret; simpl.
  - intros ->. reflexivity.
  - intros H. injection H as <-. reflexivity.
Qed.

Section AllInvalid.

Variable JSON_parse : jsstring -> outcome json.
Context {W : Type}.
Variables (prompt : jsstring) (schema : ZodSchema).
Variable inference : jsstring -> M W jsstring.
Variable config : @CorrectionConfig W.

(** Every call returns a response, and the response fails validation. *)
Hypothesis all_invalid :
  forall p w, exists r w', inference p w = (Returns r, w') /\ fails JSON_parse schema r.

(** The retry callback returns. *)
Hypothesis onRetry_returns :
  forall attempts errors w, exists w',
    settingsOnRetry config attempts errors w = (Returns tt, w').

(** From any iteration, the loop makes the calls that are left, one record
    each, and fails. *)
Lemma loop_all_invalid (remaining attempts : nat) :
  (settingsMaxRetries config - attempts)%nat = remaining ->
  forall (cur : jsstring) (history : list AttemptRecord) (w : W) (calls : list jsstring),
  exists res w' records made,
    correctionLoop JSON_parse prompt schema (recorded inference) (liftConfig config)
      attempts cur history (w, calls)
    = (Returns res, (w', calls ++ made))
    /\ cr_success res = false /\ cr_data res = None
    /\ cr_attempts res = (attempts + remaining)%nat
    /\ cr_history res = history ++ records
    /\ map ar_prompt records = made
    /\ length made = remaining.
Proof.
  revert attempts. induction remaining as [| d IH]; intros attempts Hrem cur history w calls.
  - rewrite loop_exhausted by (change (settingsMaxRetries (liftConfig config))
                                 with (settingsMaxRetries config); lia).
    eexists _, w, [], []. rewrite !app_nil_r, Nat.add_0_r.
    repeat split; reflexivity.
  - destruct (all_invalid cur w) as (r & w1 & Hi & v & Hv & Hs).
    assert (Hrec : recorded inference cur (w, calls) = (Returns r, (w1, calls ++ [cur])))
      by (unfold recorded; simpl; rewrite Hi; reflexivity).
    destruct (Nat.le_gt_cases (settingsMaxRetries config) (S attempts)) as [Hlast | Hmore].
    + rewrite (loop_invalid_last JSON_parse prompt schema (recorded inference)
                 (liftConfig config) attempts cur history (w, calls)
                 (w1, calls ++ [cur]) r v);
        [| change (settingsMaxRetries (liftConfig config))
             with (settingsMaxRetries config); lia
         | exact Hlast | exact Hrec | exact Hv | exact Hs].
      eexists _, w1, [_], [cur].
      repeat split; simpl; try reflexivity; lia.
    + destruct (onRetry_returns (S attempts) (vr_errors v) w1) as [w2 Hr].
      rewrite (loop_invalid_retry JSON_parse prompt schema (recorded inference)
                 (liftConfig config) attempts cur history (w, calls)
                 (w1, calls ++ [cur]) (w2, calls ++ [cur]) r v);
        [| exact Hmore | exact Hrec | exact Hv | exact Hs
         | apply settingsOnRetry_lift, Hr].
      destruct (IH (S attempts) ltac:(lia)
                  (buildCorrectionPrompt prompt r (vr_errors v))
                  (history ++ [{| ar_response := r; ar_errors := vr_errors v;
                                  ar_prompt := cur |}])
                  w2 (calls ++ [cur]))
        as (res & w' & records & made & Hloop & Hsucc & Hdata & Hatt & Hhist & Hmap & Hlen).
      exists res, w', ({| ar_response := r; ar_errors := vr_errors v;
                          ar_prompt := cur |} :: records), (cur :: made).
      rewrite Hloop, <- !app_assoc. simpl.
      split; [reflexivity |]. split; [exact Hsucc |]. split; [exact Hdata |].
      split; [lia |]. split; [rewrite Hhist, <- app_assoc; reflexivity |].
      split; [rewrite Hmap; reflexivity | lia].
Qed.

(** C4: whatever [maxRetries] is, when every response of the inference
    function fails validation, [executeWithCorrection] calls the function at
    most [maxRetries] times (exactly that many), and returns the failure
    result: [success] false, [data] null, and a history with one record for
    each call, in the order of the calls and with the prompt of each. *)
Theorem executeWithCorrection_all_invalid (w : W) :
  exists res w' calls,
    executeWithCorrection JSON_parse prompt schema (recorded inference)
      (liftConfig config) (w, [])
    = (Returns res, (w', calls))
    /\ (length calls <= settingsMaxRetries config)%nat
    /\ length calls = settingsMaxRetries config
    /\ cr_success res = false
    /\ cr_data res = None
    /\ map ar_prompt (cr_history res) = calls
    /\ cr_attempts res = length calls.
Proof.
  destruct (loop_all_invalid (settingsMaxRetries config) 0 ltac:(lia) prompt [] w [])
    as (res & w' & records & made & Hloop & Hsucc & Hdata & Hatt & Hhist & Hmap & Hlen).
  exists res, w', made. unfold executeWithCorrection. rewrite Hloop.
  repeat split; try assumption; try lia.
  rewrite Hhist. exact Hmap.
Qed.

End AllInvalid.

Section FirstValid.

Variable JSON_parse : jsstring -> outcome json.
Context {W : Type}.
Variables (prompt : jsstring) (schema : ZodSchema).
Variable responses : nat -> jsstring.
Variable config : @CorrectionConfig W.

Hypothesis onRetry_returns :
  forall attempts errors w, exists w',
    settingsOnRetry config attempts errors w = (Returns tt, w').

(** From the iteration that has made [attempts] calls, with the responses up
    to number [j] failing and response [j] passing: the loop stops at
    response [j]. *)
Lemma loop_first_valid (j : nat) (data : option json) (distance attempts : nat) :
  (attempts + distance)%nat = j ->
  (j < settingsMaxRetries config)%nat ->
  (forall i, (attempts <= i < j)%nat -> fails JSON_parse schema (responses i)) ->
  passes JSON_parse schema (responses j) data ->
  forall (cur : jsstring) (history : list AttemptRecord) (w : W),
  exists res w',
    correctionLoop JSON_parse prompt schema (scripted responses) (liftConfig config)
      attempts cur history (w, attempts)
    = (Returns res, (w', S j))
    /\ cr_success res = true /\ cr_data res = data
    /\ cr_attempts res = S j
    /\ length (cr_history res) = (length history + S distance)%nat.
Proof.
  revert attempts. induction distance as [| d IH];
    intros attempts Hj Hlim Hfail Hpass cur history w.
  - rewrite Nat.add_0_r in Hj. subst attempts.
    destruct Hpass as (v & Hv & Hs & Hd).
    rewrite (loop_valid JSON_parse prompt schema (scripted responses)
               (liftConfig config) j cur history (w, j) (w, S j) (responses j) v);
      [| exact Hlim | reflexivity | exact Hv | exact Hs].
    eexists _, w. repeat split; simpl; try assumption;
      try (rewrite length_app; reflexivity).
  - destruct (Hfail attempts ltac:(lia)) as (v & Hv & Hs).
    destruct (onRetry_returns (S attempts) (vr_errors v) w) as [w2 Hr].
    rewrite (loop_invalid_retry JSON_parse prompt schema (scripted responses)
               (liftConfig config) attempts cur history (w, attempts)
               (w, S attempts) (w2, S attempts) (responses attempts) v);
      [| change (settingsMaxRetries (liftConfig config))
           with (settingsMaxRetries config); lia
       | reflexivity | exact Hv | exact Hs | apply settingsOnRetry_lift, Hr].
    destruct (IH (S attempts) ltac:(lia) Hlim
                ltac:(intros i Hi; apply Hfail; lia) Hpass
                (buildCorrectionPrompt prompt (responses attempts) (vr_errors v))
                (history ++ [{| ar_response := responses attempts;
                                ar_errors := vr_errors v; ar_prompt := cur |}])
                w2)
      as (res & w' & Hloop & Hsucc & Hdata & Hatt & Hlen).
    exists res, w'. rewrite Hloop. repeat split; try assumption.
    rewrite Hlen, length_app. simpl. lia.
Qed.

(** C5: when the k-th response, with [k <= maxRetries], is the first to
    pass validation, [executeWithCorrection] returns success with the
    validated data and the attempt count [k], having made exactly [k]
    calls: none follows the k-th. *)
Theorem executeWithCorrection_first_valid (k : nat) (data : option json) (w : W) :
  (1 <= k <= settingsMaxRetries config)%nat ->
  (forall i, (i < k - 1)%nat -> fails JSON_parse schema (responses i)) ->
  passes JSON_parse schema (responses (k - 1)) data ->
  exists res w',
    executeWithCorrection JSON_parse prompt schema (scripted responses)
      (liftConfig config) (w, 0%nat)
    = (Returns res, (w', k))
    /\ cr_success res = true
    /\ cr_data res = data
    /\ cr_attempts res = k
    /\ length (cr_history res) = k.
Proof.
  intros [Hk1 Hkn] Hfail Hpass.
  destruct (loop_first_valid (k - 1) data (k - 1) 0 ltac:(lia) ltac:(lia)
              ltac:(intros i Hi; apply Hfail; lia) Hpass prompt [] w)
    as (res & w' & Hloop & Hsucc & Hdata & Hatt & Hlen).
  exists res, w'. unfold executeWithCorrection. rewrite Hloop.
  replace (S (k - 1)) with k in * by lia.
  repeat split; assumption.
Qed.

End FirstValid.

(** ** Dispatch *)

(** C1, on the code: with an inference capability that always answers
    "not json" and [maxRetries = 3], [dispatch] makes exactly 3 inference
    calls, but the machine does not reach REJECTED.  [RETRY] is raised in
    GENERATING and [MAX_RETRIES] in VALIDATING, where the table has no
    transition for them, so both are dropped: the dispatch ends in
    VALIDATING, with two audit entries, the error recorded and the state
    untouched. *)
Theorem dispatch_not_json_ends_VALIDATING
  (JSON_parse : jsstring -> outcome json)
  (buildPrompt : ZodSchema -> json -> jsstring -> jsstring -> jsstring)
  (ambient : nat -> Ambient) (awaitConfirmation : M nat bool)
  (confidence : Q) (config : @SemanticStateConfig nat) (intent : jsstring) :
  let synapse :=
    {| synapse_maxRetries := 3; synapse_confidenceThreshold := confidence;
       provider_inference := fun _ calls => (Returns (js "not json"), S calls) |} in
  let end_ :=
    dispatch JSON_parse buildPrompt ambient awaitConfirmation synapse config intent
      (initialHook config 0%nat) in
  fst end_ = Returns tt
  /\ hk_outside (snd end_) = 3%nat
  /\ hk_machineState (snd end_) = VALIDATING
  /\ hk_machineState (snd end_) <> REJECTED
  /\ map (fun e => (ae_from e, ae_event e, ae_to e)) (sc_history (hk_stateContext (snd end_)))
     = [(IDLE, js "DISPATCH_NO_OPTIMISTIC", GENERATING);
        (GENERATING, js "RESPONSE_RECEIVED", VALIDATING)]
  /\ sc_error (hk_stateContext (snd end_))
     = Some (newError "Failed to generate valid state after retries")
  /\ hk_state (snd end_) = initialState config.
Proof.
  intros synapse end_. subst end_ synapse.
  vm_compute. repeat split; try reflexivity. discriminate.
Qed.

(** C3, on the code: [dispatch] acts on the hook alone.  A rollback manager
    that the component holds beside the hook is left as it was by every
    dispatch; a new manager still has no snapshot afterwards, and its
    [getLastGoodState] still returns null. *)
Theorem dispatch_takes_no_snapshot {E : Type}
  (JSON_parse : jsstring -> outcome json)
  (buildPrompt : ZodSchema -> json -> jsstring -> jsstring -> jsstring)
  (ambient : nat -> Ambient) (awaitConfirmation : M E bool)
  (synapse : @SynapseContextValue E) (config : @SemanticStateConfig E)
  (intent : jsstring) (hook : @Hook E)
  (rollbackConfig : RollbackManagerConfig) (h : heap) :
  let app :=
    {| app_hook := hook;
       app_store := {| manager := createRollbackManager rollbackConfig; objects := h |} |} in
  let app' :=
    snd (inHook (dispatch JSON_parse buildPrompt ambient awaitConfirmation
                   synapse config intent) app) in
  app_store app' = app_store app
  /\ snapshots (manager (app_store app')) = []
  /\ fst (getLastGoodState (app_store app')) = Returns VNull.
Proof.
  intros app app'. subst app'. unfold inHook.
  destruct (dispatch _ _ _ _ _ _ _ _) as [r k']. simpl.
  repeat split; reflexivity.
Qed.

(** ** The statements at concrete inputs *)

Lemma no_opening_no_boundaries (s : jsstring) :
  forallb (fun c => negb (isOpening c)) s = true -> ~ hasBoundaries s.
Proof.
  intros Hall (i & j & c & d & _ & Hi & _ & Hc & _).
  rewrite forallb_forall in Hall.
  specialize (Hall c). rewrite Hc in Hall.
  assert (Hin : In c s) by (apply list_elem_of_In, list_elem_of_lookup; eauto).
  specialize (Hall Hin). discriminate Hall.
Qed.

Lemma validateResponse_total_and_no_json_witness :
  ~ hasBoundaries (js "not json")
  /\ extractJson (js "not json") = []
  /\ exists e,
       validateResponse parseEmpties (js "not json") anySchema
       = Returns {| vr_success := false; vr_data := None;
                    vr_errors := [e]; vr_rawJson := [] |}
       /\ ve_message e = js "No JSON found in response".
Proof.
  assert (Hno : ~ hasBoundaries (js "not json"))
    by (apply no_opening_no_boundaries; reflexivity).
  split; [exact Hno |].
  exact (proj2 (validateResponse_total_and_no_json parseEmpties anySchema (js "not json"))
           Hno).
Defined.

Lemma executeWithCorrection_all_invalid_witness :
  (forall p w, exists r w',
      alwaysNotJson p w = (Returns r, w') /\ fails parseEmpties anySchema r)
  /\ (forall attempts errors w, exists w',
        settingsOnRetry (retries 3) attempts errors w = (Returns tt, w'))
  /\ exists res w' calls,
       executeWithCorrection parseEmpties (js "Add buy milk") anySchema
         (recorded alwaysNotJson) (liftConfig (retries 3)) (tt, [])
       = (Returns res, (w', calls))
       /\ (length calls <= 3)%nat
       /\ length calls = 3%nat
       /\ cr_success res = false
       /\ cr_data res = None
       /\ map ar_prompt (cr_history res) = calls
       /\ cr_attempts res = length calls.
Proof.
  assert (H1 : forall p w, exists r w',
             alwaysNotJson p w = (Returns r, w') /\ fails parseEmpties anySchema r).
  { intros p w. exists (js "not json"), w. split; [reflexivity |].
    eexists. split; reflexivity. }
  assert (H2 : forall attempts errors w, exists w',
             settingsOnRetry (retries 3) attempts errors w = (Returns tt, w')).
  { intros attempts errors w. exists w. reflexivity. }
  split; [exact H1 |]. split; [exact H2 |].
  exact (executeWithCorrection_all_invalid parseEmpties (js "Add buy milk") anySchema
           alwaysNotJson (retries 3) H1 H2 tt).
Defined.

Lemma executeWithCorrection_first_valid_witness :
  (forall attempts errors w, exists w',
      settingsOnRetry (retries 3) attempts errors w = (Returns tt, w'))
  /\ (1 <= 2 <= settingsMaxRetries (retries 3))%nat
  /\ (forall i, (i < 2 - 1)%nat -> fails parseEmpties anySchema (secondTimeValid i))
  /\ passes parseEmpties anySchema (secondTimeValid (2 - 1)) (Some (JObj []))
  /\ exists res w',
       executeWithCorrection parseEmpties (js "Add buy milk") anySchema
         (scripted secondTimeValid) (liftConfig (retries 3)) (tt, 0%nat)
       = (Returns res, (w', 2%nat))
       /\ cr_success res = true
       /\ cr_data res = Some (JObj [])
       /\ cr_attempts res = 2%nat
       /\ length (cr_history res) = 2%nat.
Proof.
  assert (H0 : forall attempts errors w, exists w',
             settingsOnRetry (retries 3) attempts errors w = (Returns tt, w')).
  { intros attempts errors w. exists w. reflexivity. }
  assert (H1 : (1 <= 2 <= settingsMaxRetries (retries 3))%nat) by (vm_compute; lia).
  assert (H2 : forall i, (i < 2 - 1)%nat ->
                         fails parseEmpties anySchema (secondTimeValid i)).
  { intros i Hi. assert (i = 0%nat) as -> by lia.
    eexists. split; reflexivity. }
  assert (H3 : passes parseEmpties anySchema (secondTimeValid (2 - 1)) (Some (JObj []))).
  { eexists. repeat split; reflexivity. }
  split; [exact H0 |]. split; [exact H1 |]. split; [exact H2 |]. split; [exact H3 |].
  exact (executeWithCorrection_first_valid parseEmpties (js "Add buy milk") anySchema
           secondTimeValid (retries 3) H0 2%nat (Some (JObj [])) tt H1 H2 H3).
Defined.

Lemma snapshot_stores_deep_copy_witness :
  exists id w1,
    snapshot cloneAmbient (VRef 1) (js "Snapshot") cloneStore = (Returns id, w1)
    /\ Forall (avoids (length (objects cloneStore)) (length (objects w1))) pushFour
    /\ view 2 (objects (snd (mutateAll pushFour w1))) (VRef 1)
       = Some (itemsState [1; 2; 3; 4])
    /\ exists r w3,
         getLastGoodState (snd (mutateAll pushFour w1)) = (Returns r, w3)
         /\ view (length (objects w3)) (objects w3) r = Some (itemsState [1; 2; 3]).
Proof.
  destruct (snapshot cloneAmbient (VRef 1) (js "Snapshot") cloneStore) as [o w1] eqn:Hsnap.
  assert (Hid : exists id, o = Returns id).
  { vm_compute in Hsnap. injection Hsnap as <- _. eexists. reflexivity. }
  destruct Hid as [id ->]. exists id, w1. split; [reflexivity |].
  assert (Hobjects : length (objects w1) = 4%nat).
  { vm_compute in Hsnap. injection Hsnap as _ <-. reflexivity. }
  assert (Hms : Forall (avoids (length (objects cloneStore)) (length (objects w1))) pushFour).
  { constructor; [left; simpl; lia | constructor]. }
  split; [exact Hms |]. split.
  { vm_compute in Hsnap. injection Hsnap as _ <-. reflexivity. }
  destruct (snapshot_stores_deep_copy cloneAmbient (VRef 1) (js "Snapshot") cloneStore
              id w1 Hsnap) as (clone & t & _ & Ht & Hm).
  destruct (Hm pushFour Hms) as (_ & _ & Hg).
  destruct (Hg ltac:(simpl; lia)) as (r & w3 & Hr & Hv).
  exists r, w3. split; [exact Hr |]. rewrite Hv, <- Ht. reflexivity.
Defined.

(* ================================================================== *)
(** * Further properties of the code *)
(* ================================================================== *)

(** ** extractJson *)

Lemma slice_inside (s : jsstring) (i j : nat) :
  (i <= j)%nat -> (j < length s)%nat ->
  slice s (Z.of_nat i) (Z.of_nat j + 1) = take (j + 1 - i) (drop i s).
Proof.
  intros Hij Hj. unfold slice, len.
  destruct (Z.ltb_spec (Z.of_nat i) 0) as [H | _]; [lia |].
  destruct (Z.ltb_spec (Z.of_nat j + 1) 0) as [H | _]; [lia |].
  rewrite !Z.min_l by lia.
  replace (Z.to_nat (Z.of_nat j + 1 - Z.of_nat i)) with (j + 1 - i)%nat by lia.
  rewrite Nat2Z.id. reflexivity.
Qed.

(** Where the test of [extractJson] succeeds, the two indices are positions
    of the text: an opening character, and later a closing one. *)
Lemma boundaries_located (text : jsstring) :
  let jsonStart := search isOpening text in
  let jsonEnd := Z.max (lastIndexOf 93 text) (lastIndexOf 125 text) in
  (negb (jsonStart =? -1) && negb (jsonEnd =? -1) && (jsonEnd >? jsonStart))%bool = true ->
  exists (i j : nat) (c d : N),
    jsonStart = Z.of_nat i /\ jsonEnd = Z.of_nat j /\ (i < j)%nat
    /\ text !! i = Some c /\ text !! j = Some d
    /\ isOpening c = true /\ isClosing d = true.
Proof.
  intros jsonStart jsonEnd H.
  apply andb_true_iff in H as [H Hgt].
  apply andb_true_iff in H as [Hs He].
  apply negb_true_iff, Z.eqb_neq in Hs.
  apply negb_true_iff, Z.eqb_neq in He.
  rewrite Z.gtb_ltb in Hgt. apply Z.ltb_lt in Hgt.
  destruct (searchFrom_found isOpening text 0) as (i & c & Hi & Hli & Hc);
    [lia | exact Hs |].
  fold (search isOpening text) in Hi. fold jsonStart in Hi.
  assert (Hend : exists (j : nat) (d : N),
             jsonEnd = Z.of_nat j /\ text !! j = Some d /\ isClosing d = true).
  { subst jsonEnd.
    destruct (lastIndexOf_found 93 text) as [Ha | (ka & Ha & Hla)];
      destruct (lastIndexOf_found 125 text) as [Hb | (kb & Hb & Hlb)];
      rewrite Ha, Hb in *.
    - exfalso. apply He. reflexivity.
    - exists kb, 125%N. repeat split; [lia | exact Hlb].
    - exists ka, 93%N. repeat split; [lia | exact Hla].
    - destruct (Z.max_spec (Z.of_nat ka) (Z.of_nat kb)) as [[_ Hm] | [_ Hm]]; rewrite Hm.
      + exists kb, 125%N. repeat split; exact Hlb.
      + exists ka, 93%N. repeat split; exact Hla. }
  destruct Hend as (j & d & Hj & Hlj & Hd).
  exists i, j, c, d. repeat split; try assumption; lia.
Qed.

(** The two results of [extractJson]: nothing, or the part of a text from
    an opening character to a later closing one. *)
Lemma extractJson_cases (response : jsstring) :
  extractJson response = []
  \/ exists (text : jsstring) (i j : nat) (c d : N),
       extractJson response = take (j + 1 - i) (drop i text)
       /\ (i < j)%nat /\ text !! i = Some c /\ text !! j = Some d
       /\ isOpening c = true /\ isClosing d = true.
Proof.
  unfold extractJson. destruct response as [| c0 r]; [left; reflexivity |].
  set (text := match codeBlockMatch (trim (c0 :: r)) with
               | Some captured => trim captured
               | None => trim (c0 :: r)
               end).
  destruct (_ && _) eqn:Hcond; [| left; reflexivity].
  right. destruct (boundaries_located text Hcond)
    as (i & j & c & d & Hi & Hj & Hij & Hli & Hlj & Hc & Hd).
  exists text, i, j, c, d. rewrite Hi, Hj.
  rewrite slice_inside; [auto 10 | lia | apply lookup_lt_Some in Hlj; exact Hlj].
Qed.

(** X1: what [extractJson] returns, when it returns anything, begins with
    an opening bracket or brace and ends with a closing bracket or brace,
    and so has at least two code units. *)
Theorem extractJson_delimited (response : jsstring) :
  extractJson response <> [] ->
  exists c d : N,
    extractJson response !! 0%nat = Some c
    /\ extractJson response !! (length (extractJson response) - 1)%nat = Some d
    /\ isOpening c = true /\ isClosing d = true
    /\ (2 <= length (extractJson response))%nat.
Proof.
  intros Hne.
  destruct (extractJson_cases response)
    as [H | (text & i & j & c & d & -> & Hij & Hli & Hlj & Hc & Hd)]; [contradiction |].
  pose proof (lookup_lt_Some _ _ _ Hlj) as Hlen.
  exists c, d.
  rewrite length_take, length_drop.
  replace ((j + 1 - i) `min` (length text - i))%nat with (j + 1 - i)%nat by lia.
  repeat split; try assumption; try lia.
  - rewrite lookup_take_lt by lia. rewrite lookup_drop, Nat.add_0_r. exact Hli.
  - rewrite lookup_take_lt by lia. rewrite lookup_drop.
    replace (i + (j + 1 - i - 1))%nat with j by lia. exact Hlj.
Qed.

Lemma extractJson_delimited_witness :
  extractJson (js "Here is the result: [1, 2] Hope this helps!") <> []
  /\ exists c d : N,
       extractJson (js "Here is the result: [1, 2] Hope this helps!") !! 0%nat = Some c
       /\ extractJson (js "Here is the result: [1, 2] Hope this helps!")
          !! (length (extractJson (js "Here is the result: [1, 2] Hope this helps!")) - 1)%nat
          = Some d
       /\ isOpening c = true /\ isClosing d = true
       /\ (2 <= length (extractJson (js "Here is the result: [1, 2] Hope this helps!")))%nat.
Proof.
  assert (Hne : extractJson (js "Here is the result: [1, 2] Hope this helps!") <> [])
    by (vm_compute; discriminate).
  split; [exact Hne |].
  exact (extractJson_delimited _ Hne).
Defined.

Lemma lastIndexOfFrom_app (c : N) (s t : jsstring) (i found : Z) :
  lastIndexOfFrom c (s ++ t) i found
  = lastIndexOfFrom c t (i + Z.of_nat (length s)) (lastIndexOfFrom c s i found).
Proof.
  revert i found. induction s as [| d s IH]; intros i found; simpl.
  - rewrite Z.add_0_r. reflexivity.
  - rewrite IH. f_equal. lia.
Qed.

Lemma lastIndexOfFrom_bound (c : N) (s : jsstring) (i found : Z) :
  found < i + Z.of_nat (length s) ->
  lastIndexOfFrom c s i found < i + Z.of_nat (length s).
Proof.
  revert i found. induction s as [| d s IH]; intros i found H; simpl in *.
  - lia.
  - replace (i + Z.of_nat (S (length s)))
      with (i + 1 + Z.of_nat (length s)) in * by lia.
    apply IH. destruct (N.eqb d c); lia.
Qed.

Lemma lastIndexOf_bound (c : N) (s : jsstring) : lastIndexOf c s < len s.
Proof.
  unfold lastIndexOf, len.
  destruct s as [| d s]; [simpl; lia |].
  apply (lastIndexOfFrom_bound c (d :: s) 0 (-1)). simpl. lia.
Qed.

Lemma lastIndexOf_last (c : N) (s : jsstring) : lastIndexOf c (s ++ [c]) = len s.
Proof.
  unfold lastIndexOf, len. rewrite lastIndexOfFrom_app. simpl.
  rewrite N.eqb_refl. reflexivity.
Qed.

Lemma isClosing_not_space (d : N) : isClosing d = true -> isWhiteSpace d = false.
Proof.
  unfold isClosing. intros H. apply orb_true_iff in H as [H | H];
    apply N.eqb_eq in H; subst; reflexivity.
Qed.

Lemma isOpening_not_space (c : N) : isOpening c = true -> isWhiteSpace c = false.
Proof.
  unfold isOpening. intros H. apply orb_true_iff in H as [H | H];
    apply N.eqb_eq in H; subst; reflexivity.
Qed.

(** X2: a text that holds no code fence, begins with an opening bracket or
    brace and ends with a closing bracket or brace is returned by
    [extractJson] as it is. *)
Theorem extractJson_plain (c d : N) (middle : jsstring) :
  isOpening c = true -> isClosing d = true ->
  indexOf fence (c :: middle ++ [d]) = None ->
  extractJson (c :: middle ++ [d]) = c :: middle ++ [d].
Proof.
  intros Hc Hd Hfence.
  set (text := c :: middle ++ [d]) in *.
  assert (Htrim : trim text = text).
  { unfold trim. subst text. simpl. rewrite (isOpening_not_space c Hc).
    change (c :: middle ++ [d]) with ((c :: middle) ++ [d]).
    rewrite rev_app_distr. simpl. rewrite (isClosing_not_space d Hd).
    change (d :: rev middle ++ [c]) with (rev [d] ++ rev (c :: middle)).
    rewrite <- rev_app_distr, rev_involutive. reflexivity. }
  assert (Hend : Z.max (lastIndexOf 93 text) (lastIndexOf 125 text) = len text - 1).
  { pose proof (lastIndexOf_bound 93 text) as H93.
    pose proof (lastIndexOf_bound 125 text) as H125.
    assert (Hlen : len text - 1 = len (c :: middle)).
    { subst text. unfold len. simpl. rewrite length_app. simpl. lia. }
    unfold isClosing in Hd. apply orb_true_iff in Hd as [Hd | Hd];
      apply N.eqb_eq in Hd; subst d.
    - assert (lastIndexOf 93 text = len text - 1)
        by (rewrite Hlen; apply (lastIndexOf_last 93 (c :: middle))).
      lia.
    - assert (lastIndexOf 125 text = len text - 1)
        by (rewrite Hlen; apply (lastIndexOf_last 125 (c :: middle))).
      lia. }
  assert (Hstart : search isOpening text = 0)
    by (unfold search; subst text; simpl; rewrite Hc; reflexivity).
  assert (Hlen2 : 2 <= len text).
  { subst text. unfold len. simpl. rewrite length_app. simpl. lia. }
  unfold extractJson. fold text. rewrite Htrim.
  unfold codeBlockMatch. rewrite Hfence. rewrite Hstart, Hend.
  replace (len text - 1 + 1) with (len text) by lia.
  destruct (_ && _) eqn:Hcond.
  - unfold slice. simpl. rewrite Z.min_id.
    destruct (Z.ltb_spec (len text) 0) as [H | _]; [lia |].
    rewrite Z.sub_0_r. unfold len. rewrite Nat2Z.id. simpl.
    rewrite firstn_all. reflexivity.
  - exfalso. apply andb_false_iff in Hcond as [Hcond | Hcond].
    + apply andb_false_iff in Hcond as [Hcond | Hcond].
      * discriminate Hcond.
      * apply negb_false_iff, Z.eqb_eq in Hcond. lia.
    + rewrite Z.gtb_ltb in Hcond. apply Z.ltb_ge in Hcond. lia.
Qed.

Lemma extractJson_plain_witness :
  isOpening 123 = true /\ isClosing 125 = true
  /\ indexOf fence (123%N :: js "x: [1, 2]" ++ [125%N]) = None
  /\ extractJson (123%N :: js "x: [1, 2]" ++ [125%N]) = 123%N :: js "x: [1, 2]" ++ [125%N].
Proof.
  split; [reflexivity |]. split; [reflexivity |]. split; [reflexivity |].
  exact (extractJson_plain 123 125 (js "x: [1, 2]") eq_refl eq_refl eq_refl).
Defined.

(** ** validateResponse *)

(** X3: a response validates exactly when a candidate text was extracted
    from it, [JSON.parse] accepted that text and the schema accepted the
    parsed value; the result then carries the schema's output, no error, and
    the re-serialised parsed value.  A result that is not a success carries
    no data. *)
Theorem validateResponse_success_iff
  (JSON_parse : jsstring -> outcome json) (response : jsstring)
  (schema : ZodSchema) (v : ValidationResult) :
  validateResponse JSON_parse response schema = Returns v ->
  (vr_success v = true <->
   exists parsed d,
     extractJson response <> []
     /\ JSON_parse (extractJson response) = Returns parsed
     /\ safeParse schema parsed = ParseSuccess d
     /\ vr_data v = Some d /\ vr_errors v = []
     /\ vr_rawJson v = stringify parsed)
  /\ (vr_success v = false -> vr_data v = None).
Proof.
  unfold validateResponse. intros H.
  destruct (extractJson response) as [| c text] eqn:Hx.
  - injection H as <-. simpl. split; [| reflexivity].
    split; [discriminate |]. intros (parsed & d & Hne & _). contradiction.
  - destruct (JSON_parse (c :: text)) as [parsed | e] eqn:Hp.
    + injection H as <-. unfold validateAgainstSchema.
      destruct (safeParse schema parsed) as [d | issues] eqn:Hz; simpl.
      * split; [| discriminate]. split; [| reflexivity].
        intros _. exists parsed, d. repeat split; try assumption; discriminate.
      * split; [| reflexivity]. split; [discriminate |].
        intros (parsed' & d & _ & Hp' & Hz' & _). congruence.
    + injection H as <-. simpl. split; [| reflexivity].
      split; [discriminate |]. intros (parsed & d & _ & Hp' & _). congruence.
Qed.

Lemma validateResponse_success_iff_witness :
  validateResponse parseEmpties (js "Result: {} as asked") anySchema
  = Returns {| vr_success := true; vr_data := Some (JObj []); vr_errors := [];
               vr_rawJson := js "{}" |}
  /\ exists parsed d,
       extractJson (js "Result: {} as asked") <> []
       /\ parseEmpties (extractJson (js "Result: {} as asked")) = Returns parsed
       /\ safeParse anySchema parsed = ParseSuccess d.
Proof.
  assert (H : validateResponse parseEmpties (js "Result: {} as asked") anySchema
              = Returns {| vr_success := true; vr_data := Some (JObj []); vr_errors := [];
                           vr_rawJson := js "{}" |}) by reflexivity.
  split; [exact H |].
  destruct (proj1 (proj1 (validateResponse_success_iff _ _ _ _ H)) eq_refl)
    as (parsed & d & Hne & Hp & Hz & _).
  exists parsed, d. auto.
Defined.

(** ** executeWithCorrection, for every inference function *)

Section LoopShape.

Variable JSON_parse : jsstring -> outcome json.
Context {W : Type}.
Variables (prompt : jsstring) (schema : ZodSchema).
Variable inference : jsstring -> M W jsstring.
Variable config : @CorrectionConfig W.

(** The retry callback throws: so does the loop. *)
Lemma loop_retry_throws (attempts : nat) (cur : jsstring) (history : list AttemptRecord)
  (w w1 w2 : W) (response : jsstring) (v : ValidationResult) (e : Error) :
  (S attempts < settingsMaxRetries config)%nat ->
  inference cur w = (Returns response, w1) ->
  validateResponse JSON_parse response schema = Returns v ->
  vr_success v = false ->
  settingsOnRetry config (S attempts) (vr_errors v) w1 = (Throws e, w2) ->
  correctionLoop JSON_parse prompt schema inference config attempts cur history w
  = (Throws e, w2).
Proof.
  intros H Hi Hv Hs Hr. rewrite correctionLoop_equation_1.
  destruct (lt_dec attempts (settingsMaxRetries config)) as [Hlt | Hn]; [| lia].
  cbn [correctionLoop_unfold_clause_1]. unfold bind, liftOutcome.
  rewrite Hi, Hv, Hs.
  destruct (Nat.leb_spec (settingsMaxRetries config) (S attempts)) as [Hle | _]; [lia |].
  rewrite Hr. reflexivity.
Qed.

Lemma expectedPrompt_snoc (history : list AttemptRecord) (r : AttemptRecord) :
  expectedPrompt prompt (history ++ [r])
  = buildCorrectionPrompt prompt (ar_response r) (ar_errors r).
Proof. unfold expectedPrompt. rewrite rev_app_distr. reflexivity. Qed.

Lemma chained_snoc (history : list AttemptRecord) (r : AttemptRecord) :
  chained prompt history ->
  ar_prompt r = expectedPrompt prompt history ->
  chained prompt (history ++ [r]).
Proof.
  intros Hch Hr i r' Hl.
  destruct (Nat.lt_ge_cases i (length history)) as [Hlt | Hge].
  - rewrite lookup_app_l in Hl by exact Hlt.
    rewrite take_app_le by lia. apply Hch, Hl.
  - rewrite lookup_app_r in Hl by exact Hge.
    destruct (i - length history)%nat as [| k] eqn:Hk; [| destruct k; discriminate Hl].
    injection Hl as <-. assert (i = length history) as -> by lia.
    rewrite take_app_length. exact Hr.
Qed.

Lemma loop_shape (remaining attempts : nat) :
  (settingsMaxRetries config - attempts)%nat = remaining ->
  (attempts <= settingsMaxRetries config)%nat ->
  forall (cur : jsstring) (history : list AttemptRecord) (w w' : W) (res : CorrectionResult),
    length history = attempts ->
    chained prompt history ->
    cur = expectedPrompt prompt history ->
    Forall (failedRecord JSON_parse schema) history ->
    correctionLoop JSON_parse prompt schema inference config attempts cur history w
    = (Returns res, w') ->
    wellFormedResult JSON_parse prompt schema config res.
Proof.
  revert attempts. induction remaining as [| d IH];
    intros attempts Hrem Hle cur history w w' res Hlen Hch Hcur Hfail Hrun.
  - rewrite loop_exhausted in Hrun by lia. injection Hrun as <- <-.
    unfold wellFormedResult. simpl.
    split; [auto |]. split; [lia |]. split; [exact Hch |].
    split; [discriminate |]. intros _. split; [reflexivity |]. split; [lia | exact Hfail].
  - destruct (inference cur w) as [[r | e] w1] eqn:Hi.
    2: { rewrite (loop_throws _ _ _ _ _ attempts cur history w w1 e) in Hrun;
           [discriminate Hrun | lia | exact Hi]. }
    destruct (validateResponse_returns JSON_parse r schema) as [v Hv].
    set (rec := {| ar_response := r; ar_errors := vr_errors v; ar_prompt := cur |}).
    assert (Hch' : chained prompt (history ++ [rec]))
      by (apply chained_snoc; [exact Hch | exact Hcur]).
    destruct (vr_success v) eqn:Hs.
    + rewrite (loop_valid _ _ _ _ _ attempts cur history w w1 r v) in Hrun;
        [| lia | exact Hi | exact Hv | exact Hs].
      injection Hrun as <- <-. unfold wellFormedResult. simpl.
      rewrite length_app. simpl.
      split; [lia |]. split; [lia |]. split; [exact Hch' |].
      split; [| discriminate]. intros _. exists history, rec.
      split; [reflexivity |]. split; [exact Hfail |].
      exists v. auto.
    + assert (Hfail' : Forall (failedRecord JSON_parse schema) (history ++ [rec])).
      { apply Forall_app. split; [exact Hfail |]. constructor; [| constructor].
        exists v. auto. }
      destruct (Nat.le_gt_cases (settingsMaxRetries config) (S attempts)) as [Hlast | Hmore].
      * rewrite (loop_invalid_last _ _ _ _ _ attempts cur history w w1 r v) in Hrun;
          [| lia | exact Hlast | exact Hi | exact Hv | exact Hs].
        injection Hrun as <- <-. unfold wellFormedResult. simpl.
        rewrite length_app. simpl.
        split; [lia |]. split; [lia |]. split; [exact Hch' |].
        split; [discriminate |]. intros _.
        split; [reflexivity |]. split; [lia | exact Hfail'].
      * destruct (settingsOnRetry config (S attempts) (vr_errors v) w1)
          as [[[] | e] w2] eqn:Hr.
        2: { rewrite (loop_retry_throws attempts cur history w w1 w2 r v e) in Hrun;
               [discriminate Hrun | exact Hmore | exact Hi | exact Hv | exact Hs | exact Hr]. }
        rewrite (loop_invalid_retry _ _ _ _ _ attempts cur history w w1 w2 r v) in Hrun;
          [| exact Hmore | exact Hi | exact Hv | exact Hs | exact Hr].
        eapply (IH (S attempts)); [| | | | | | exact Hrun].
        -- lia.
        -- lia.
        -- rewrite length_app. simpl. lia.
        -- exact Hch'.
        -- symmetry. apply (expectedPrompt_snoc history rec).
        -- exact Hfail'.
Qed.

(** X4: whatever the inference function, the retry callback and the world
    they act on, a result that [executeWithCorrection] returns is well
    formed: [attempts] is the length of the history and at most
    [maxRetries]; the first record holds the original prompt and every
    later one the correction prompt built from the original and the record
    before it; a success has exactly its last response passing validation,
    with that response's data; a failure has [data] null, [maxRetries]
    records, and every response failing. *)
Theorem executeWithCorrection_result_shape (w w' : W) (res : CorrectionResult) :
  executeWithCorrection JSON_parse prompt schema inference config w = (Returns res, w') ->
  wellFormedResult JSON_parse prompt schema config res.
Proof.
  intros Hrun. unfold executeWithCorrection in Hrun.
  apply (loop_shape (settingsMaxRetries config) 0 ltac:(lia) ltac:(lia)
           prompt [] w w' res eq_refl); try assumption.
  - intros i r Hl. destruct i; discriminate Hl.
  - reflexivity.
  - constructor.
Qed.

End LoopShape.

Lemma executeWithCorrection_result_shape_witness :
  exists res w',
    executeWithCorrection parseEmpties (js "Add buy milk") anySchema
      (scripted secondTimeValid) (liftConfig (retries 3)) (tt, 0%nat)
    = (Returns res, w')
    /\ wellFormedResult parseEmpties (js "Add buy milk") anySchema
         (liftConfig (X := nat) (retries 3)) res.
Proof.
  destruct (executeWithCorrection parseEmpties (js "Add buy milk") anySchema
              (scripted secondTimeValid) (liftConfig (retries 3)) (tt, 0%nat))
    as [o w'] eqn:Hrun.
  assert (Hres : exists res, o = Returns res).
  { vm_compute in Hrun. injection Hrun as <- _. eexists. reflexivity. }
  destruct Hres as [res ->]. exists res, w'. split; [reflexivity |].
  exact (executeWithCorrection_result_shape parseEmpties (js "Add buy milk") anySchema
           (scripted secondTimeValid) (liftConfig (retries 3)) (tt, 0%nat) w' res Hrun).
Defined.

Section Rejection.

Variable JSON_parse : jsstring -> outcome json.
Context {W : Type}.
Variables (prompt : jsstring) (schema : ZodSchema).
Variable answers : nat -> outcome jsstring.
Variable config : @CorrectionConfig W.

Hypothesis onRetry_returns :
  forall attempts errors w, exists w',
    settingsOnRetry config attempts errors w = (Returns tt, w').

Lemma loop_rejected (j : nat) (e : Error) (distance attempts : nat) :
  (attempts + distance)%nat = j ->
  (j < settingsMaxRetries config)%nat ->
  (forall i, (attempts <= i < j)%nat ->
             exists r, answers i = Returns r /\ fails JSON_parse schema r) ->
  answers j = Throws e ->
  forall (cur : jsstring) (history : list AttemptRecord) (w : W),
  exists w',
    correctionLoop JSON_parse prompt schema (scriptedOutcomes answers) (liftConfig config)
      attempts cur history (w, attempts)
    = (Throws e, (w', S j)).
Proof.
  revert attempts. induction distance as [| d IH];
    intros attempts Hj Hlim Hfail Hthrow cur history w.
  - rewrite Nat.add_0_r in Hj. subst attempts.
    rewrite (loop_throws JSON_parse prompt schema (scriptedOutcomes answers)
               (liftConfig config) j cur history (w, j) (w, S j) e);
      [| exact Hlim | unfold scriptedOutcomes; simpl; rewrite Hthrow; reflexivity].
    exists w. reflexivity.
  - destruct (Hfail attempts ltac:(lia)) as (r & Hr & v & Hv & Hs).
    destruct (onRetry_returns (S attempts) (vr_errors v) w) as [w2 Hw2].
    rewrite (loop_invalid_retry JSON_parse prompt schema (scriptedOutcomes answers)
               (liftConfig config) attempts cur history (w, attempts)
               (w, S attempts) (w2, S attempts) r v);
      [| change (settingsMaxRetries (liftConfig config))
           with (settingsMaxRetries config); lia
       | unfold scriptedOutcomes; simpl; rewrite Hr; reflexivity
       | exact Hv | exact Hs | apply settingsOnRetry_lift, Hw2].
    apply IH; [lia | exact Hlim | intros i Hi; apply Hfail; lia | exact Hthrow].
Qed.

(** X5: a rejection of the inference capability is not retried.  When the
    calls before call number [j] answered with responses that failed
    validation and call [j] rejects, with [j < maxRetries],
    [executeWithCorrection] rejects with the same error after exactly
    [j + 1] calls. *)
Theorem executeWithCorrection_rejection_not_retried (j : nat) (e : Error) (w : W) :
  (j < settingsMaxRetries config)%nat ->
  (forall i, (i < j)%nat -> exists r, answers i = Returns r /\ fails JSON_parse schema r) ->
  answers j = Throws e ->
  exists w',
    executeWithCorrection JSON_parse prompt schema (scriptedOutcomes answers)
      (liftConfig config) (w, 0%nat)
    = (Throws e, (w', S j)).
Proof.
  intros Hlim Hfail Hthrow. unfold executeWithCorrection.
  apply (loop_rejected j e j 0); [lia | exact Hlim | | exact Hthrow].
  intros i Hi. apply Hfail. lia.
Qed.

End Rejection.

Section Retries.

Variable JSON_parse : jsstring -> outcome json.
Context {W : Type}.
Variables (prompt : jsstring) (schema : ZodSchema).
Variable inference : jsstring -> M W jsstring.
Variable limit : option nat.

Let recorder := @retryRecorder W limit.

Lemma combine_snoc {A B} (l : list A) (k : list B) (a : A) (b : B) :
  length l = length k -> combine (l ++ [a]) (k ++ [b]) = combine l k ++ [(a, b)].
Proof.
  revert k. induction l as [| x l IH]; intros [| y k] H; simpl in *; try discriminate.
  - reflexivity.
  - rewrite IH by lia. reflexivity.
Qed.

Lemma loop_retries (remaining attempts : nat) :
  ((settingsMaxRetries recorder) - attempts)%nat = remaining ->
  (attempts < (settingsMaxRetries recorder) \/ attempts = 0)%nat ->
  forall (cur : jsstring) (history : list AttemptRecord) (w w' : W)
         (log log' : list (nat * list ValidationError)) (res : CorrectionResult),
    length history = attempts ->
    log = combine (seq 1 attempts) (map ar_errors history) ->
    correctionLoop JSON_parse prompt schema (fun p => onFst (inference p)) recorder
      attempts cur history (w, log)
    = (Returns res, (w', log')) ->
    log' = retried (cr_history res).
Proof.
  revert attempts. induction remaining as [| d IH];
    intros attempts Hrem Hle cur history w w' log log' res Hlen Hlog Hrun.
  - assert (attempts = 0%nat) as -> by lia.
    rewrite loop_exhausted in Hrun by lia.
    injection Hrun as <- <- <-. destruct history; [| discriminate Hlen].
    subst log. reflexivity.
  - destruct (inference cur w) as [[r | e] w1] eqn:Hi.
    2: { rewrite (loop_throws _ _ _ _ _ attempts cur history (w, log) (w1, log) e) in Hrun;
           [discriminate Hrun | lia
            | unfold onFst; simpl; rewrite Hi; reflexivity]. }
    assert (Hi' : onFst (X := list (nat * list ValidationError)) (inference cur) (w, log)
                  = (Returns r, (w1, log)))
      by (unfold onFst; simpl; rewrite Hi; reflexivity).
    destruct (validateResponse_returns JSON_parse r schema) as [v Hv].
    set (rec := {| ar_response := r; ar_errors := vr_errors v; ar_prompt := cur |}).
    assert (Hdone : log = retried (history ++ [rec])).
    { unfold retried. rewrite length_app. simpl.
      replace (length history + 1 - 1)%nat with (length history) by lia.
      rewrite take_app_length, Hlen. exact Hlog. }
    destruct (vr_success v) eqn:Hs.
    + rewrite (loop_valid _ _ _ _ _ attempts cur history (w, log) (w1, log) r v) in Hrun;
        [| lia | exact Hi' | exact Hv | exact Hs].
      injection Hrun as <- <- <-. exact Hdone.
    + destruct (Nat.le_gt_cases (settingsMaxRetries recorder) (S attempts)) as [Hlast | Hmore].
      * rewrite (loop_invalid_last _ _ _ _ _ attempts cur history (w, log) (w1, log) r v)
          in Hrun; [| lia | exact Hlast | exact Hi' | exact Hv | exact Hs].
        injection Hrun as <- <- <-. exact Hdone.
      * rewrite (loop_invalid_retry _ _ _ _ _ attempts cur history (w, log) (w1, log)
                   (w1, log ++ [(S attempts, vr_errors v)]) r v) in Hrun;
          [| exact Hmore | exact Hi' | exact Hv | exact Hs | reflexivity].
        eapply (IH (S attempts)); [| | | | exact Hrun].
        -- lia.
        -- left. exact Hmore.
        -- rewrite length_app. simpl. lia.
        -- rewrite seq_S, map_app. simpl. rewrite combine_snoc.
           ++ rewrite <- Hlog. reflexivity.
           ++ rewrite length_seq, length_map. lia.
Qed.

(** X6: the retry callback is called once after every invalid response that
    is followed by another attempt, and at no other time: when
    [executeWithCorrection] returns, the callback has been called for every
    record of the history but the last, in order, with the attempt numbers
    1, 2, ... and the errors of that record.  So it is not called after a
    valid response nor after the last attempt. *)
Theorem executeWithCorrection_retry_calls
  (w w' : W) (log : list (nat * list ValidationError)) (res : CorrectionResult) :
  executeWithCorrection JSON_parse prompt schema (fun p => onFst (inference p))
    (retryRecorder limit) (w, [])
  = (Returns res, (w', log)) ->
  log = retried (cr_history res)
  /\ map fst log = seq 1 (length (cr_history res) - 1).
Proof.
  intros Hrun. unfold executeWithCorrection in Hrun.
  assert (Hlog : log = retried (cr_history res)).
  { apply (loop_retries (settingsMaxRetries recorder) 0 ltac:(lia) ltac:(right; reflexivity)
             prompt [] w w' [] log res eq_refl eq_refl Hrun). }
  split; [exact Hlog |]. rewrite Hlog. unfold retried.
  set (n := (length (cr_history res) - 1)%nat).
  assert (Hlen : length (seq 1 n) = length (map ar_errors (take n (cr_history res)))).
  { rewrite length_seq, length_map, length_take. lia. }
  generalize dependent (map ar_errors (take n (cr_history res))).
  generalize (seq 1 n). clear.
  induction l as [| x l IH]; intros [| y k] H; simpl in *; try discriminate; [reflexivity |].
  rewrite IH by lia. reflexivity.
Qed.

End Retries.

Lemma executeWithCorrection_rejection_not_retried_witness :
  (forall attempts errors w, exists w',
      settingsOnRetry (retries 3) attempts errors w = (Returns tt, w'))
  /\ (1 < settingsMaxRetries (retries 3))%nat
  /\ (forall i, (i < 1)%nat ->
                exists r, rejectsSecond i = Returns r /\ fails parseEmpties anySchema r)
  /\ rejectsSecond 1 = Throws (newError "Network error")
  /\ exists w',
       executeWithCorrection parseEmpties (js "Add buy milk") anySchema
         (scriptedOutcomes rejectsSecond) (liftConfig (retries 3)) (tt, 0%nat)
       = (Throws (newError "Network error"), (w', 2%nat)).
Proof.
  assert (H0 : forall attempts errors w, exists w',
             settingsOnRetry (retries 3) attempts errors w = (Returns tt, w')).
  { intros attempts errors w. exists w. reflexivity. }
  assert (H1 : (1 < settingsMaxRetries (retries 3))%nat) by (vm_compute; lia).
  assert (H2 : forall i, (i < 1)%nat ->
             exists r, rejectsSecond i = Returns r /\ fails parseEmpties anySchema r).
  { intros i Hi. assert (i = 0%nat) as -> by lia.
    eexists. split; [reflexivity |]. eexists. split; reflexivity. }
  split; [exact H0 |]. split; [exact H1 |]. split; [exact H2 |]. split; [reflexivity |].
  exact (executeWithCorrection_rejection_not_retried parseEmpties (js "Add buy milk")
           anySchema rejectsSecond (retries 3) H0 1%nat (newError "Network error") tt
           H1 H2 eq_refl).
Defined.

Lemma executeWithCorrection_retry_calls_witness :
  exists res w' log,
    executeWithCorrection parseEmpties (js "Add buy milk") anySchema
      (fun p => onFst (alwaysNotJson p)) (retryRecorder (Some 3%nat)) (tt, [])
    = (Returns res, (w', log))
    /\ log = retried (cr_history res)
    /\ map fst log = [1; 2]%nat.
Proof.
  destruct (executeWithCorrection parseEmpties (js "Add buy milk") anySchema
              (fun p => onFst (alwaysNotJson p)) (retryRecorder (Some 3%nat)) (tt, []))
    as [o [w' log]] eqn:Hrun.
  assert (Hres : exists res, o = Returns res /\ length (cr_history res) = 3%nat).
  { vm_compute in Hrun. injection Hrun as <- _ _. eexists. split; reflexivity. }
  destruct Hres as (res & -> & Hlen). exists res, w', log. split; [reflexivity |].
  destruct (executeWithCorrection_retry_calls parseEmpties (js "Add buy milk") anySchema
              alwaysNotJson (Some 3%nat) tt w' log res Hrun) as [Hlog Hfst].
  split; [exact Hlog |]. rewrite Hfst, Hlen. reflexivity.
Defined.

(** ** The transition table *)

Lemma getNextState_In (from : MachineState) (event : jsstring) (to : MachineState) :
  getNextState from event = Some to
  <-> In {| t_from := from; t_event := event; t_to := to |} TRANSITIONS.
Proof.
  unfold getNextState. split.
  - intros H. destruct (find _ TRANSITIONS) as [t |] eqn:Hf; [| discriminate H].
    apply find_some in Hf as [Hin Hp]. injection H as <-.
    apply andb_true_iff in Hp as [Hp1 Hp2].
    apply bool_decide_eq_true in Hp1. apply bool_decide_eq_true in Hp2.
    subst. destruct t. exact Hin.
  - intros H. simpl in H.
    repeat (destruct H as [H | H]; [injection H as <- <- <-; reflexivity |]).
    destruct H.
Qed.

(** X7: [getNextState] is the table, read as a partial function: it
    returns a state exactly when the table has the entry for the pair of
    state and event, and two entries never share that pair. *)
Theorem getNextState_is_the_table :
  (forall from event to,
      getNextState from event = Some to
      <-> In {| t_from := from; t_event := event; t_to := to |} TRANSITIONS)
  /\ (forall t1 t2, In t1 TRANSITIONS -> In t2 TRANSITIONS ->
                    t_from t1 = t_from t2 -> t_event t1 = t_event t2 -> t1 = t2).
Proof.
  split; [apply getNextState_In |].
  intros [f1 e1 to1] [f2 e2 to2] H1 H2 Hf He. simpl in Hf, He. subst f2 e2.
  apply getNextState_In in H1. apply getNextState_In in H2. congruence.
Qed.

(** X8: SETTLED and REJECTED accept one event only, [RESET], which leads to
    IDLE; and IDLE accepts only the two dispatch events. *)
Theorem terminal_states_accept_only_RESET (event : jsstring) (to : MachineState) :
  (getNextState SETTLED event = Some to -> event = js "RESET" /\ to = IDLE)
  /\ (getNextState REJECTED event = Some to -> event = js "RESET" /\ to = IDLE)
  /\ (getNextState IDLE event = Some to ->
      (event = js "DISPATCH" /\ to = OPTIMISTIC)
      \/ (event = js "DISPATCH_NO_OPTIMISTIC" /\ to = GENERATING)).
Proof.
  split; [| split]; intros H; apply getNextState_In in H; simpl in H;
    repeat (destruct H as [H | H]; [try discriminate H; injection H as <- <-; auto |]);
    destruct H.
Qed.

Lemma terminal_states_accept_only_RESET_witness :
  getNextState SETTLED (js "RESET") = Some IDLE
  /\ js "RESET" = js "RESET" /\ IDLE = IDLE.
Proof.
  split; [reflexivity |].
  exact (proj1 (terminal_states_accept_only_RESET (js "RESET") IDLE) eq_refl).
Defined.

(** X9: the table has no unreachable state and no dead end: every state is
    reached from IDLE by some events, and from every state some events lead
    back to IDLE. *)
Theorem every_state_reachable_and_resettable (s : MachineState) :
  (exists events, runEvents IDLE events = s)
  /\ (exists events, runEvents s events = IDLE).
Proof.
  destruct s; split.
  - exists []. reflexivity.
  - exists []. reflexivity.
  - exists [js "DISPATCH"]. reflexivity.
  - exists [js "START_INFERENCE"; js "ERROR"; js "RESET"]. reflexivity.
  - exists [js "DISPATCH_NO_OPTIMISTIC"]. reflexivity.
  - exists [js "ERROR"; js "RESET"]. reflexivity.
  - exists [js "DISPATCH_NO_OPTIMISTIC"; js "RESPONSE_RECEIVED"]. reflexivity.
  - exists [js "VALID"; js "CONFIDENT"; js "RESET"]. reflexivity.
  - exists [js "DISPATCH_NO_OPTIMISTIC"; js "RESPONSE_RECEIVED"; js "INVALID"]. reflexivity.
  - exists [js "MAX_RETRIES"; js "RESET"]. reflexivity.
  - exists [js "DISPATCH_NO_OPTIMISTIC"; js "RESPONSE_RECEIVED"; js "VALID"]. reflexivity.
  - exists [js "CONFIDENT"; js "RESET"]. reflexivity.
  - exists [js "DISPATCH_NO_OPTIMISTIC"; js "RESPONSE_RECEIVED"; js "VALID"; js "CONFIDENT"].
    reflexivity.
  - exists [js "RESET"]. reflexivity.
  - exists [js "DISPATCH_NO_OPTIMISTIC"; js "ERROR"]. reflexivity.
  - exists [js "RESET"]. reflexivity.
Qed.

(** ** Scoring *)

Lemma ofInt_nonempty (n : Z) : (0 < length (ofInt n))%nat.
Proof.
  unfold ofInt, js. rewrite length_map.
  destruct n as [| p | p]; simpl.
  - lia.
  - unfold NilZero.string_of_uint. destruct (Pos.to_uint p); simpl; lia.
  - lia.
Qed.

Lemma stringify_nonempty (v : json) : (0 < length (stringify v))%nat.
Proof.
  destruct v as [| [|] | n | s | items | members]; simpl; try lia.
  apply ofInt_nonempty.
Qed.

Lemma sameChars_le (a b : jsstring) :
  (sameChars a b <= length a)%nat /\ (sameChars a b <= length b)%nat.
Proof.
  revert b. induction a as [| c a IH]; intros [| d b]; simpl; try lia.
  destruct (IH b). destruct (N.eqb c d); lia.
Qed.

Lemma sameChars_refl (a : jsstring) : sameChars a a = length a.
Proof.
  induction a as [| c a IH]; simpl; [reflexivity |].
  rewrite N.eqb_refl, IH. reflexivity.
Qed.

Lemma sameChars_comm (a b : jsstring) : sameChars a b = sameChars b a.
Proof.
  revert b. induction a as [| c a IH]; intros [| d b]; simpl; try reflexivity.
  rewrite IH, (N.eqb_sym c d). reflexivity.
Qed.

Lemma fraction_range (a m : Z) :
  0 <= a <= m -> 0 < m -> (0 <= inject_Z a / inject_Z m <= 1)%Q.
Proof.
  intros Ha Hm.
  assert (Hm' : (0 < inject_Z m)%Q) by (unfold Qlt; simpl; lia).
  split.
  - apply Qle_shift_div_l; [exact Hm' |]. rewrite Qmult_0_l.
    unfold Qle. simpl. lia.
  - apply Qle_shift_div_r; [exact Hm' |]. rewrite Qmult_1_l.
    rewrite <- Zle_Qle. lia.
Qed.

(** X10: the difference ratio of two states is a number of [[0, 1]], it is
    the same in both directions, and it is 0 for a state and itself. *)
Theorem diffRatio_range (previousState newState : json) :
  (0 <= diffRatio previousState newState <= 1)%Q
  /\ (diffRatio previousState newState == diffRatio newState previousState)%Q
  /\ (diffRatio previousState previousState == 0)%Q.
Proof.
  unfold diffRatio, len.
  pose proof (stringify_nonempty previousState) as Hp.
  pose proof (stringify_nonempty newState) as Hn.
  destruct (sameChars_le (stringify previousState) (stringify newState)) as [H1 H2].
  split; [| split].
  - destruct (fraction_range
                (Z.of_nat (sameChars (stringify previousState) (stringify newState)))
                (Z.max (Z.of_nat (length (stringify previousState)))
                       (Z.of_nat (length (stringify newState)))))
      as [Hlo Hhi]; [lia | lia |].
    split.
    + unfold Qminus. rewrite <- (Qplus_opp_r 1).
      apply Qplus_le_compat; [apply Qle_refl | apply Qopp_le_compat; exact Hhi].
    + unfold Qminus. rewrite <- (Qplus_0_r 1) at 2.
      apply Qplus_le_compat; [apply Qle_refl |].
      apply (Qopp_le_compat 0). exact Hlo.
  - rewrite (sameChars_comm (stringify previousState) (stringify newState)).
    rewrite (Z.max_comm (Z.of_nat (length (stringify previousState)))).
    reflexivity.
  - rewrite sameChars_refl, Z.max_id.
    assert (Hne : ~ (inject_Z (Z.of_nat (length (stringify previousState))) == 0)%Q).
    { intros H. unfold Qeq in H. simpl in H. lia. }
    unfold Qdiv. rewrite Qmult_inv_r by exact Hne. reflexivity.
Qed.

Lemma intentClarity_mono (i1 i2 : jsstring) :
  (length i1 <= length i2)%nat -> (intentClarity i1 <= intentClarity i2)%Q.
Proof.
  intros H. unfold intentClarity, len.
  apply Q.min_le_compat_l.
  unfold Qdiv. apply Qmult_le_compat_r; [| discriminate].
  rewrite <- Zle_Qle. lia.
Qed.

Lemma intentClarity_saturated (i : jsstring) :
  (50 <= length i)%nat -> (intentClarity i == 1)%Q.
Proof.
  intros H. unfold intentClarity, len.
  apply Q.min_l. apply Qle_shift_div_l; [reflexivity |].
  rewrite Qmult_1_l. change 50%Q with (inject_Z 50).
  rewrite <- Zle_Qle. lia.
Qed.

(** X11: with the states and the model's confidence fixed, the confidence
    does not decrease when the intent gets longer, and it is the same for
    all intents of 50 code units or more: the intent counts by its length
    only, up to 50. *)
Theorem calculateConfidence_intent_length
  (previousState newState : json) (intent1 intent2 : jsstring)
  (modelConfidence : option Q) :
  ((length intent1 <= length intent2)%nat ->
   (calculateConfidence previousState newState intent1 modelConfidence
    <= calculateConfidence previousState newState intent2 modelConfidence)%Q)
  /\ ((50 <= length intent1)%nat -> (50 <= length intent2)%nat ->
      (calculateConfidence previousState newState intent1 modelConfidence
       == calculateConfidence previousState newState intent2 modelConfidence)%Q).
Proof.
  split.
  - intros H. unfold calculateConfidence.
    apply Qmax_mono_r, Qmin_mono_r.
    apply Qplus_le_compat; [apply Qle_refl |].
    apply Qmult_le_compat_r; [apply intentClarity_mono, H | discriminate].
  - intros H1 H2. unfold calculateConfidence.
    rewrite (intentClarity_saturated intent1 H1), (intentClarity_saturated intent2 H2).
    reflexivity.
Qed.

Lemma calculateConfidence_intent_length_witness :
  (length (js "x") <= length (js "Please change x to be 2 instead of 1"))%nat
  /\ Qle (calculateConfidence (JNum 1) (JNum 2) (js "x") None)
         (calculateConfidence (JNum 1) (JNum 2)
            (js "Please change x to be 2 instead of 1") None).
Proof.
  assert (H : (length (js "x") <= length (js "Please change x to be 2 instead of 1"))%nat)
    by (vm_compute; lia).
  split; [exact H |].
  exact (proj1 (calculateConfidence_intent_length (JNum 1) (JNum 2) (js "x")
                  (js "Please change x to be 2 instead of 1") None) H).
Defined.

Lemma below_three_tenths (newSize prevSize : Z) :
  Qltb (inject_Z newSize) (inject_Z prevSize * (3 # 10))%Q = true
  <-> 10 * newSize < 3 * prevSize.
Proof.
  unfold Qltb. rewrite negb_true_iff.
  split.
  - intros H. destruct (Z.lt_ge_cases (10 * newSize) (3 * prevSize)) as [Hlt | Hge];
      [exact Hlt |].
    assert (Hle : Qle_bool (inject_Z prevSize * (3 # 10)) (inject_Z newSize) = true).
    { apply Qle_bool_iff. unfold Qle. simpl. lia. }
    congruence.
  - intros H. destruct (Qle_bool _ _) eqn:Hb; [| reflexivity].
    apply Qle_bool_iff in Hb. unfold Qle in Hb. simpl in Hb. lia.
Qed.

Lemma array_emptied_iff (previousState newState : json) :
  (if isArray previousState && isArray newState
   then if (0 <? arrayLength previousState)%nat && (arrayLength newState =? 0)%nat
        then true else false
   else false) = true
  <-> exists x xs, previousState = JArr (x :: xs) /\ newState = JArr [].
Proof.
  destruct previousState as [| | | | [| x xs] |], newState as [| | | | [| y ys] |];
    simpl; split; try discriminate; try reflexivity;
    try (intros (x' & xs' & H1 & H2); discriminate).
  intros _. eauto.
Qed.

Lemma isDestructiveChange_spec (previousState newState : json) :
  isDestructiveChange previousState newState = true
  <-> (50 < len (stringify previousState)
       /\ 10 * len (stringify newState) < 3 * len (stringify previousState))
      \/ (exists x xs, previousState = JArr (x :: xs) /\ newState = JArr []).
Proof.
  unfold isDestructiveChange.
  destruct ((len (stringify previousState) >? 50)
            && Qltb (inject_Z (len (stringify newState)))
                    (inject_Z (len (stringify previousState)) * (3 # 10))%Q) eqn:Hsize.
  - apply andb_true_iff in Hsize as [H50 Hq].
    rewrite Z.gtb_ltb in H50. apply Z.ltb_lt in H50.
    apply below_three_tenths in Hq. split; [intros _; left; lia | reflexivity].
  - rewrite array_emptied_iff. split; [intros H; right; exact H |].
    intros [[H50 Hlt] | H]; [| exact H]. exfalso.
    apply andb_false_iff in Hsize as [Hs | Hs].
    + rewrite Z.gtb_ltb in Hs. apply Z.ltb_ge in Hs. lia.
    + apply below_three_tenths in Hlt. congruence.
Qed.

(** X12: [isDestructiveChange] flags exactly two kinds of change: the
    previous state serialises to more than 50 code units and the new one to
    fewer than three tenths of that (ten times the new size is below three
    times the old); or the previous state is a non-empty array and the new
    state the empty array. *)
Theorem isDestructiveChange_exactly (previousState newState : json) :
  isDestructiveChange previousState newState = true
  <-> (50 < len (stringify previousState)
       /\ 10 * len (stringify newState) < 3 * len (stringify previousState))
      \/ (exists x xs, previousState = JArr (x :: xs) /\ newState = JArr []).
Proof. apply isDestructiveChange_spec. Qed.

(** X13: a change that does not shorten the serialised state is never
    flagged as destructive; in particular a state replaced by itself is
    not. *)
Theorem isDestructiveChange_not_shorter (previousState newState : json) :
  len (stringify previousState) <= len (stringify newState) ->
  isDestructiveChange previousState newState = false.
Proof.
  intros Hlen.
  destruct (isDestructiveChange previousState newState) eqn:Hd; [| reflexivity].
  apply isDestructiveChange_spec in Hd as [[H50 Hlt] | (x & xs & -> & ->)].
  - lia.
  - exfalso. revert Hlen. unfold len. simpl.
    pose proof (stringify_nonempty x) as Hx.
    destruct xs as [| y ys]; simpl; rewrite ?length_app; simpl; lia.
Qed.

Lemma isDestructiveChange_not_shorter_witness :
  len (stringify (itemsState [1])) <= len (stringify (itemsState [1; 2; 3]))
  /\ isDestructiveChange (itemsState [1]) (itemsState [1; 2; 3]) = false.
Proof.
  assert (H : len (stringify (itemsState [1])) <= len (stringify (itemsState [1; 2; 3])))
    by (vm_compute; discriminate).
  split; [exact H |].
  exact (isDestructiveChange_not_shorter (itemsState [1]) (itemsState [1; 2; 3]) H).
Defined.

(** ** Rollback manager: going back *)

Lemma findIndexFrom_none {A} (p : A -> bool) (l : list A) (i : Z) :
  Forall (fun x => p x = false) l -> findIndexFrom p l i = -1.
Proof.
  intros H. revert i. induction H as [| x l Hx _ IH]; intros i; simpl.
  - reflexivity.
  - rewrite Hx. apply IH.
Qed.

Lemma findIndexFrom_first {A} (p : A -> bool) (before : list A) (x : A) (after : list A)
  (i : Z) :
  Forall (fun y => p y = false) before -> p x = true ->
  findIndexFrom p (before ++ x :: after) i = i + Z.of_nat (length before).
Proof.
  intros H Hx. revert i. induction H as [| y l Hy _ IH]; intros i; simpl.
  - rewrite Hx. lia.
  - rewrite Hy, IH. lia.
Qed.

(** X14: [rollbackTo] with an id that no snapshot has returns null and
    changes nothing: neither the history nor the store. *)
Theorem rollbackTo_unknown (snapshotId : jsstring) (w : Store) :
  Forall (fun s => ss_id s <> snapshotId) (snapshots (manager w)) ->
  rollbackTo snapshotId w = (Returns VNull, w).
Proof.
  intros H. unfold rollbackTo, bind, gets, ret, findIndex.
  rewrite findIndexFrom_none; [reflexivity |].
  eapply Forall_impl; [| exact H]. intros s Hs. simpl in Hs.
  apply bool_decide_eq_false. exact Hs.
Qed.

Lemma rollbackTo_unknown_witness :
  Forall (fun s => ss_id s <> js "unknown_id")
    (snapshots (manager (snd (snapshotAll trimCalls
        {| manager := createRollbackManager trimConfig; objects := [] |}))))
  /\ fst (rollbackTo (js "unknown_id")
            (snd (snapshotAll trimCalls
               {| manager := createRollbackManager trimConfig; objects := [] |})))
     = Returns VNull.
Proof.
  assert (H : Forall (fun s => ss_id s <> js "unknown_id")
    (snapshots (manager (snd (snapshotAll trimCalls
        {| manager := createRollbackManager trimConfig; objects := [] |})))))
    by (vm_compute; repeat constructor; discriminate).
  split; [exact H |].
  rewrite (rollbackTo_unknown _ _ H). reflexivity.
Defined.

(** X15: [rollbackTo] with the id of a stored snapshot goes back to the
    first snapshot that has this id: the history is cut right after it,
    whatever followed is discarded, and what is returned is a [deepClone] of
    its data. *)
Theorem rollbackTo_found (snapshotId : jsstring) (w : Store)
  (before : list StateSnapshot) (target : StateSnapshot) (after : list StateSnapshot) :
  snapshots (manager w) = before ++ target :: after ->
  Forall (fun s => ss_id s <> snapshotId) before ->
  ss_id target = snapshotId ->
  rollbackTo snapshotId w
  = (let '(r, h') := deepClone (ss_data target) (objects w) in
     (r, {| manager := {| snapshots := before ++ [target];
                          maxSnapshots := maxSnapshots (manager w);
                          onRollback := onRollback (manager w) |};
            objects := h' |})).
Proof.
  intros Hsnaps Hbefore Htarget.
  unfold rollbackTo, bind, gets, ret, findIndex. rewrite Hsnaps.
  rewrite findIndexFrom_first;
    [| eapply Forall_impl; [| exact Hbefore]; intros s Hs; simpl in Hs;
       apply bool_decide_eq_false; exact Hs
     | apply bool_decide_eq_true; exact Htarget].
  destruct (Z.eqb_spec (0 + Z.of_nat (length before)) (-1)) as [Heq | _]; [lia |].
  replace (Z.to_nat (0 + Z.of_nat (length before))) with (length before) by lia.
  replace (Z.to_nat (0 + Z.of_nat (length before) + 1)) with (S (length before)) by lia.
  rewrite lookup_app_r by lia. rewrite Nat.sub_diag. simpl.
  unfold setSnapshots, modify, onObjects. simpl.
  replace (take (S (length before)) (before ++ target :: after)) with (before ++ [target]).
  - destruct (deepClone (ss_data target) (objects w)) as [r h']. reflexivity.
  - change (before ++ target :: after) with (before ++ [target] ++ after).
    rewrite app_assoc. rewrite take_app_le by (rewrite length_app; simpl; lia).
    rewrite firstn_all2 by (rewrite length_app; simpl; lia). reflexivity.
Qed.

Lemma rollbackTo_found_witness :
  exists before target after,
    snapshots (manager trimmedStore) = before ++ target :: after
    /\ Forall (fun s => ss_id s <> js "snap_3_c") before
    /\ ss_id target = js "snap_3_c"
    /\ fst (rollbackTo (js "snap_3_c") trimmedStore) = Returns (VNum 3)
    /\ map ss_data (snapshots (manager (snd (rollbackTo (js "snap_3_c") trimmedStore))))
       = [VNum 2; VNum 3].
Proof.
  exists [pushed {| now := 2; suffix := js "b"; now' := 2 |} (VNum 2) (js "Two")],
         (pushed {| now := 3; suffix := js "c"; now' := 3 |} (VNum 3) (js "Three")),
         [pushed {| now := 4; suffix := js "d"; now' := 4 |} (VNum 4) (js "Four")].
  assert (H1 : snapshots (manager trimmedStore)
               = [pushed {| now := 2; suffix := js "b"; now' := 2 |} (VNum 2) (js "Two")]
                 ++ pushed {| now := 3; suffix := js "c"; now' := 3 |} (VNum 3) (js "Three")
                 :: [pushed {| now := 4; suffix := js "d"; now' := 4 |} (VNum 4) (js "Four")])
    by reflexivity.
  assert (H2 : Forall (fun s => ss_id s <> js "snap_3_c")
                 [pushed {| now := 2; suffix := js "b"; now' := 2 |} (VNum 2) (js "Two")])
    by (repeat constructor; vm_compute; discriminate).
  assert (H3 : ss_id (pushed {| now := 3; suffix := js "c"; now' := 3 |} (VNum 3) (js "Three"))
               = js "snap_3_c") by reflexivity.
  split; [exact H1 |]. split; [exact H2 |]. split; [exact H3 |].
  rewrite (rollbackTo_found (js "snap_3_c") trimmedStore _ _ _ H1 H2 H3).
  split; reflexivity.
Defined.

(** X16: [rollbackSteps(n)] with [0 <= n < length of the history] goes back
    [n] snapshots from the newest: the history keeps its first
    [length - n] entries, and what is returned is a [deepClone] of the data
    of the last of them. *)
Theorem rollbackSteps_in_range (steps : nat) (w : Store) :
  (steps < length (snapshots (manager w)))%nat ->
  exists target,
    snapshots (manager w) !! (length (snapshots (manager w)) - 1 - steps)%nat = Some target
    /\ rollbackSteps (Z.of_nat steps) w
       = (let '(r, h') := deepClone (ss_data target) (objects w) in
          (r, {| manager := {| snapshots := take (length (snapshots (manager w)) - steps)
                                              (snapshots (manager w));
                               maxSnapshots := maxSnapshots (manager w);
                               onRollback := onRollback (manager w) |};
                 objects := h' |})).
Proof.
  intros Hlt.
  destruct (lookup_lt_is_Some_2 (snapshots (manager w))
              (length (snapshots (manager w)) - 1 - steps)%nat ltac:(lia)) as [target Ht].
  exists target. split; [exact Ht |].
  unfold rollbackSteps, bind, gets, ret.
  destruct (Z.ltb_spec (Z.of_nat (length (snapshots (manager w))) - 1 - Z.of_nat steps) 0)
    as [Hneg | _]; [lia |].
  unfold setSnapshots, modify, onObjects. simpl.
  replace (Z.to_nat (Z.of_nat (length (snapshots (manager w))) - 1 - Z.of_nat steps))
    with (length (snapshots (manager w)) - 1 - steps)%nat by lia.
  replace (Z.to_nat (Z.of_nat (length (snapshots (manager w))) - 1 - Z.of_nat steps + 1))
    with (length (snapshots (manager w)) - steps)%nat by lia.
  rewrite Ht. cbn [objects manager].
  destruct (deepClone (ss_data target) (objects w)) as [r h']. reflexivity.
Qed.

Lemma rollbackSteps_in_range_witness :
  (1 < length (snapshots (manager trimmedStore)))%nat
  /\ fst (rollbackSteps 1 trimmedStore) = Returns (VNum 3)
  /\ map ss_data (snapshots (manager (snd (rollbackSteps 1 trimmedStore))))
     = [VNum 2; VNum 3].
Proof.
  assert (H : (1 < length (snapshots (manager trimmedStore)))%nat) by (vm_compute; lia).
  split; [exact H |].
  destruct (rollbackSteps_in_range 1 trimmedStore H) as (target & Ht & Hr).
  vm_compute in Ht. injection Ht as <-.
  change (Z.of_nat 1) with 1 in Hr. rewrite Hr. split; reflexivity.
Defined.

(** X17: outside that range [rollbackSteps] does not cut the history.  With
    [n] at least the length of the history it returns a [deepClone] of the
    oldest snapshot's data, or null when there is no snapshot, and the
    history stays as it is; with a negative [n] it throws a TypeError, and
    the history stays as it is too. *)
Theorem rollbackSteps_out_of_range (steps : Z) (w : Store) :
  (Z.of_nat (length (snapshots (manager w))) <= steps ->
   rollbackSteps steps w
   = match snapshots (manager w) with
     | [] => (Returns VNull, w)
     | oldest :: _ =>
         let '(r, h') := deepClone (ss_data oldest) (objects w) in
         (r, {| manager := manager w; objects := h' |})
     end)
  /\ (steps < 0 ->
      fst (rollbackSteps steps w) = Throws (newError "TypeError")
      /\ snapshots (manager (snd (rollbackSteps steps w))) = snapshots (manager w)
      /\ objects (snd (rollbackSteps steps w)) = objects w).
Proof.
  split.
  - intros Hge. unfold rollbackSteps, bind, gets, ret.
    destruct (Z.ltb_spec (Z.of_nat (length (snapshots (manager w))) - 1 - steps) 0)
      as [_ | Hpos]; [| lia].
    destruct (snapshots (manager w)) as [| oldest rest]; [reflexivity |].
    unfold onObjects. destruct (deepClone (ss_data oldest) (objects w)) as [r h'].
    reflexivity.
  - intros Hneg. unfold rollbackSteps, bind, gets, ret, throw.
    destruct (Z.ltb_spec (Z.of_nat (length (snapshots (manager w))) - 1 - steps) 0)
      as [Hlt | _]; [lia |].
    unfold setSnapshots, modify. simpl.
    rewrite lookup_ge_None_2 by lia.
    simpl. split; [reflexivity |]. split; [| reflexivity].
    apply firstn_all2. lia.
Qed.

Lemma rollbackSteps_out_of_range_witness :
  Z.of_nat (length (snapshots (manager trimmedStore))) <= 10
  /\ -1 < 0
  /\ fst (rollbackSteps 10 trimmedStore) = Returns (VNum 2)
  /\ length (snapshots (manager (snd (rollbackSteps 10 trimmedStore)))) = 3%nat
  /\ fst (rollbackSteps (-1) trimmedStore) = Throws (newError "TypeError").
Proof.
  assert (H1 : Z.of_nat (length (snapshots (manager trimmedStore))) <= 10)
    by (vm_compute; discriminate).
  assert (H2 : -1 < 0) by lia.
  split; [exact H1 |]. split; [exact H2 |].
  rewrite (proj1 (rollbackSteps_out_of_range 10 trimmedStore) H1).
  split; [reflexivity |]. split; [reflexivity |].
  exact (proj1 (proj2 (rollbackSteps_out_of_range (-1) trimmedStore) H2)).
Defined.

(** ** Rollback manager: every operation *)

Lemma onObjects_manager {A} (m : M heap A) (w : Store) :
  manager (snd (onObjects m w)) = manager w.
Proof. unfold onObjects. destruct (m (objects w)). reflexivity. Qed.

Lemma getLastGoodState_manager (w : Store) :
  manager (snd (getLastGoodState w)) = manager w.
Proof.
  unfold getLastGoodState, bind, gets, ret, throw.
  destruct (length (snapshots (manager w)) =? 0)%nat; [reflexivity |].
  destruct (snapshots (manager w) !! _); [apply onObjects_manager | reflexivity].
Qed.

Lemma cloneAll_manager (snaps : list StateSnapshot) (w : Store) :
  manager (snd (cloneAll snaps w)) = manager w.
Proof.
  revert w. induction snaps as [| s rest IH]; intros w; simpl; [reflexivity |].
  unfold bind.
  pose proof (onObjects_manager (deepClone (ss_data s)) w) as H1.
  destruct (onObjects (deepClone (ss_data s)) w) as [[d | e] w1]; simpl in H1;
    [| exact H1].
  pose proof (IH w1) as H2.
  destruct (cloneAll rest w1) as [[rest' | e] w2]; simpl in *; congruence.
Qed.

Lemma autoRollback_manager (currentState : value) (reason : jsstring) (w : Store) :
  manager (snd (autoRollback currentState reason w)) = manager w.
Proof.
  unfold autoRollback, bind, gets.
  pose proof (getLastGoodState_manager w) as H1.
  destruct (getLastGoodState w) as [[lastGood | e] w1]; simpl in H1; [| exact H1].
  destruct lastGood, (onRollback (manager w1)) as [callback |]; unfold ret; simpl;
    try exact H1;
    match goal with
    | |- context [onObjects ?m w1] =>
        pose proof (onObjects_manager m w1) as H2;
        destruct (onObjects m w1) as [[[] | e] w2]; simpl in *; congruence
    end.
Qed.

(** What an operation may do to the manager: never change the maximum, and
    leave a history within the maximum or no longer than it was. *)
Lemma perform_manager (op : Operation) (w : Store) :
  maxSnapshots (manager (perform op w)) = maxSnapshots (manager w)
  /\ ((length (snapshots (manager (perform op w))) <= maxSnapshots (manager w))%nat
      \/ (length (snapshots (manager (perform op w)))
          <= length (snapshots (manager w)))%nat).
Proof.
  destruct op as [amb data intent | | snapshotId | steps | currentState reason | | | m];
    simpl.
  - pose proof (snapshot_spec amb data intent w) as Hs.
    destruct (deepClone data (objects w)) as [[clone | e] h']; rewrite Hs; simpl.
    + split; [reflexivity |]. left. apply trimOld_length.
    + split; [reflexivity |]. right. lia.
  - rewrite getLastGoodState_manager. split; [reflexivity | right; lia].
  - unfold rollbackTo, bind, gets, ret, throw.
    destruct (_ =? -1); [simpl; split; [reflexivity | right; lia] |].
    destruct (snapshots (manager w) !! _) as [target |];
      [| simpl; split; [reflexivity | right; lia]].
    unfold setSnapshots, modify. simpl. rewrite onObjects_manager. simpl.
    split; [reflexivity |]. right. rewrite length_take. lia.
  - unfold rollbackSteps, bind, gets, ret, throw.
    destruct (_ <? 0).
    + destruct (snapshots (manager w)) as [| oldest rest] eqn:Hsn;
        [simpl; rewrite Hsn; simpl; split; [reflexivity | right; lia] |].
      rewrite onObjects_manager, Hsn. split; [reflexivity | right; lia].
    + unfold setSnapshots, modify. simpl.
      destruct (snapshots (manager w) !! _) as [target |];
        [rewrite onObjects_manager |]; simpl;
        (split; [reflexivity |]; right; rewrite length_take; lia).
  - rewrite autoRollback_manager. split; [reflexivity | right; lia].
  - unfold getHistory, bind, gets. simpl.
    pose proof (cloneAll_manager (snapshots (manager w)) w) as H.
    destruct (cloneAll (snapshots (manager w)) w) as [[l | e] w1]; simpl in *;
      rewrite H; (split; [reflexivity | right; lia]).
  - split; [reflexivity |]. right. lia.
  - split; [reflexivity |]. right. lia.
Qed.

(** X18: whatever is done with a manager, in any order, whether calls
    return or throw, and whatever the surrounding code does to the store,
    the manager keeps the maximum it was configured with (10 by default)
    and never holds more snapshots than that. *)
Theorem manager_never_exceeds_maximum
  (config : RollbackManagerConfig) (h : heap) (ops : list Operation) :
  let w := performAll ops {| manager := createRollbackManager config; objects := h |} in
  maxSnapshots (manager w) = default 10%nat (cfg_maxSnapshots config)
  /\ (length (snapshots (manager w)) <= maxSnapshots (manager w))%nat.
Proof.
  intros w. subst w. unfold performAll.
  set (w0 := {| manager := createRollbackManager config; objects := h |}).
  assert (H0 : maxSnapshots (manager w0) = default 10%nat (cfg_maxSnapshots config)
               /\ (length (snapshots (manager w0)) <= maxSnapshots (manager w0))%nat)
    by (simpl; split; [reflexivity | lia]).
  revert H0. generalize w0. clear w0.
  induction ops as [| op ops IH]; intros w [Hmax Hlen]; simpl.
  - split; assumption.
  - apply IH. destruct (perform_manager op w) as [Hm Hl].
    split; [congruence |]. rewrite Hm. destruct Hl; lia.
Qed.

(** ** Rollback manager: what is stored stays as it is *)

(** Reading a value looks at objects that exist only: it gives the same
    tree in every store that holds the same objects at their locations, with
    as much fuel or more. *)
Lemma view_stable (fuel : nat) :
  forall (h h' : heap) (v : value) (t : json) (fuel' : nat),
    view fuel h v = Some t ->
    agrees h' h 0 -> (fuel <= fuel')%nat ->
    view fuel' h' v = Some t.
Proof.
  induction fuel as [| f IH]; intros h h' v t fuel' Hv Hag Hfuel.
  - destruct v; simpl in Hv; try discriminate Hv; destruct fuel'; exact Hv.
  - destruct v as [| b | n | s | l]; simpl in Hv;
      try (destruct fuel'; exact Hv).
    destruct fuel' as [| f']; [lia |]. simpl.
    destruct (h !! l) as [o |] eqn:Hl; [| discriminate Hv].
    rewrite (Hag l ltac:(lia) (lookup_lt_Some _ _ _ Hl)), Hl.
    destruct o as [elements | members].
    + apply fmap_Some in Hv as (items & Hm & ->).
      apply mapM_Some in Hm. apply fmap_Some. exists items. split; [| reflexivity].
      apply mapM_Some. eapply Forall2_impl; [| exact Hm].
      intros e i He. simpl in He. apply (IH h h' e i f' He Hag). lia.
    + apply fmap_Some in Hv as (items & Hm & ->).
      apply mapM_Some in Hm. apply fmap_Some. exists items. split; [| reflexivity].
      apply mapM_Some. eapply Forall2_impl; [| exact Hm].
      intros m r Hr. simpl in Hr. apply fmap_Some in Hr as (j & Hj & ->).
      apply fmap_Some. exists j. split; [| reflexivity].
      apply (IH h h' (snd m) j f' Hj Hag). lia.
Qed.

Lemma agrees_extension (h ext : heap) : agrees (h ++ ext) h 0.
Proof. intros l _ Hl. apply lookup_app_l. exact Hl. Qed.

Lemma view_extension (h ext : heap) (v : value) (t : json) :
  view (length h) h v = Some t -> view (length (h ++ ext)) (h ++ ext) v = Some t.
Proof.
  intros H. apply (view_stable (length h) h (h ++ ext) v t _ H (agrees_extension h ext)).
  rewrite length_app. lia.
Qed.

Lemma deepClone_extends (data : value) (h : heap) :
  exists ext, snd (deepClone data h) = h ++ ext.
Proof.
  destruct (deepClone_spec data h) as [[e He] | (clone & ext & t & Hc & _)].
  - rewrite He. exists []. rewrite app_nil_r. reflexivity.
  - rewrite Hc. exists ext. reflexivity.
Qed.

Lemma onObjects_deepClone (data : value) (w : Store) :
  exists ext,
    objects (snd (onObjects (deepClone data) w)) = objects w ++ ext
    /\ manager (snd (onObjects (deepClone data) w)) = manager w.
Proof.
  destruct (deepClone_extends data (objects w)) as [ext Hext].
  exists ext. unfold onObjects.
  destruct (deepClone data (objects w)) as [r h']. simpl in *. subst. auto.
Qed.

Lemma cloneAll_extends (snaps : list StateSnapshot) (w : Store) :
  exists ext, objects (snd (cloneAll snaps w)) = objects w ++ ext.
Proof.
  revert w. induction snaps as [| s rest IH]; intros w; simpl.
  - exists []. rewrite app_nil_r. reflexivity.
  - unfold bind. destruct (onObjects_deepClone (ss_data s) w) as (e1 & H1 & _).
    destruct (onObjects (deepClone (ss_data s)) w) as [[d | e] w1]; simpl in H1;
      [| exists e1; exact H1].
    destruct (IH w1) as [e2 H2].
    destruct (cloneAll rest w1) as [[rest' | e] w2]; simpl in *;
      exists (e1 ++ e2); rewrite H2, H1, app_assoc; reflexivity.
Qed.

(** A method of a manager without rollback callback adds objects to the
    store and does nothing else to it. *)
Lemma perform_extends (op : Operation) (w : Store) :
  isCall op -> onRollback (manager w) = None ->
  (exists ext, objects (perform op w) = objects w ++ ext)
  /\ onRollback (manager (perform op w)) = None.
Proof.
  intros Hcall Hnone.
  assert (Hsame : forall A (m : M heap A),
             (exists ext, snd (m (objects w)) = objects w ++ ext) ->
             (exists ext, objects (snd (onObjects m w)) = objects w ++ ext)
             /\ onRollback (manager (snd (onObjects m w))) = None).
  { intros A m [ext Hext]. unfold onObjects.
    destruct (m (objects w)) as [r h']. simpl in *. subst. eauto. }
  assert (Hnil : exists ext, objects w = objects w ++ ext)
    by (exists []; rewrite app_nil_r; reflexivity).
  destruct op as [amb data intent | | snapshotId | steps | currentState reason | | | m];
    simpl; try contradiction.
  - pose proof (snapshot_spec amb data intent w) as Hs.
    destruct (deepClone_extends data (objects w)) as [ext Hext].
    destruct (deepClone data (objects w)) as [[clone | e] h']; rewrite Hs; simpl in *;
      subst; eauto.
  - unfold getLastGoodState, bind, gets, ret, throw.
    destruct (_ =? 0)%nat; [auto |].
    destruct (snapshots (manager w) !! _) as [s |]; [| auto].
    apply Hsame, deepClone_extends.
  - unfold rollbackTo, bind, gets, ret, throw.
    destruct (_ =? -1); [auto |].
    destruct (snapshots (manager w) !! _) as [target |]; [| auto].
    unfold setSnapshots, modify. simpl.
    destruct (onObjects_deepClone (ss_data target)
                {| manager := {| snapshots := take (Z.to_nat
                     (findIndex (fun s => bool_decide (ss_id s = snapshotId))
                        (snapshots (manager w)) + 1)) (snapshots (manager w));
                                 maxSnapshots := maxSnapshots (manager w);
                                 onRollback := onRollback (manager w) |};
                   objects := objects w |}) as (ext & Ho & Hm).
    rewrite Hm. simpl in *. eauto.
  - unfold rollbackSteps, bind, gets, ret, throw.
    destruct (_ <? 0).
    + destruct (snapshots (manager w)) as [| oldest rest]; [auto |].
      apply Hsame, deepClone_extends.
    + unfold setSnapshots, modify. simpl.
      destruct (snapshots (manager w) !! _) as [target |]; [| simpl; auto].
      match goal with
      | |- context [onObjects _ ?w0] =>
          destruct (onObjects_deepClone (ss_data target) w0) as (ext & Ho & Hm)
      end.
      rewrite Hm. simpl in *. eauto.
  - unfold autoRollback, bind, gets.
    assert (Hg : (exists ext, objects (snd (getLastGoodState w)) = objects w ++ ext)
                 /\ manager (snd (getLastGoodState w)) = manager w).
    { split; [| apply getLastGoodState_manager].
      unfold getLastGoodState, bind, gets, ret, throw.
      destruct (_ =? 0)%nat; [auto |].
      destruct (snapshots (manager w) !! _) as [s |]; [| auto].
      apply Hsame, deepClone_extends. }
    destruct Hg as [Hg1 Hg2].
    destruct (getLastGoodState w) as [[lastGood | e] w1]; simpl in *;
      [| rewrite Hg2; auto].
    rewrite Hg2, Hnone. destruct lastGood; unfold ret; simpl; rewrite Hg2; auto.
  - unfold getHistory, bind, gets.
    pose proof (cloneAll_extends (snapshots (manager w)) w) as H1.
    pose proof (cloneAll_manager (snapshots (manager w)) w) as H2.
    destruct (cloneAll (snapshots (manager w)) w) as [[l | e] w1]; simpl in *;
      rewrite H2; auto.
  - auto.
Qed.

Lemma performAll_extends (ops : list Operation) (w : Store) :
  Forall isCall ops -> onRollback (manager w) = None ->
  exists ext, objects (performAll ops w) = objects w ++ ext.
Proof.
  intros Hops. revert w. induction Hops as [| op ops Hop _ IH]; intros w Hnone; simpl.
  - exists []. rewrite app_nil_r. reflexivity.
  - destruct (perform_extends op w Hop Hnone) as [[e1 H1] Hn].
    destruct (IH (perform op w) Hn) as [e2 H2].
    exists (e1 ++ e2). unfold performAll in *. rewrite H2, H1, app_assoc. reflexivity.
Qed.

(** X19: no method of the manager alters what is stored.  After any calls
    of its methods, in a manager without rollback callback, a value that
    read as a tree before (a stored snapshot's data, in particular) reads as
    the same tree. *)
Theorem manager_calls_preserve_stored_data
  (ops : list Operation) (w : Store) (v : value) (t : json) :
  Forall isCall ops -> onRollback (manager w) = None ->
  view (length (objects w)) (objects w) v = Some t ->
  view (length (objects (performAll ops w))) (objects (performAll ops w)) v = Some t.
Proof.
  intros Hops Hnone Hv.
  destruct (performAll_extends ops w Hops Hnone) as [ext ->].
  apply view_extension, Hv.
Qed.

Lemma manager_calls_preserve_stored_data_witness :
  Forall isCall [OpSnapshot cloneAmbient (VRef 1) (js "Snapshot"); OpGetHistory;
                 OpRollbackSteps 0; OpGetLastGoodState]
  /\ onRollback (manager cloneStore) = None
  /\ view (length (objects cloneStore)) (objects cloneStore) (VRef 1)
     = Some (itemsState [1; 2; 3])
  /\ view (length (objects (performAll
             [OpSnapshot cloneAmbient (VRef 1) (js "Snapshot"); OpGetHistory;
              OpRollbackSteps 0; OpGetLastGoodState] cloneStore)))
          (objects (performAll
             [OpSnapshot cloneAmbient (VRef 1) (js "Snapshot"); OpGetHistory;
              OpRollbackSteps 0; OpGetLastGoodState] cloneStore))
          (VRef 1)
     = Some (itemsState [1; 2; 3]).
Proof.
  assert (H1 : Forall isCall [OpSnapshot cloneAmbient (VRef 1) (js "Snapshot");
                              OpGetHistory; OpRollbackSteps 0; OpGetLastGoodState])
    by (repeat constructor).
  assert (H2 : onRollback (manager cloneStore) = None) by reflexivity.
  assert (H3 : view (length (objects cloneStore)) (objects cloneStore) (VRef 1)
               = Some (itemsState [1; 2; 3])) by reflexivity.
  split; [exact H1 |]. split; [exact H2 |]. split; [exact H3 |].
  exact (manager_calls_preserve_stored_data _ cloneStore (VRef 1) _ H1 H2 H3).
Defined.



Lemma cloneAll_entries (snaps : list StateSnapshot) (w w1 : Store)
  (copies : list StateSnapshot) :
  cloneAll snaps w = (Returns copies, w1) ->
  Forall2 (fun s c => ss_id c = ss_id s /\ ss_timestamp c = ss_timestamp s
                      /\ ss_intent c = ss_intent s
                      /\ (isPrimitive (ss_data s) = true -> ss_data c = ss_data s))
    snaps copies.
Proof.
  revert w w1 copies. induction snaps as [| s rest IH]; intros w w1 copies H; simpl in H.
  - injection H as <- _. constructor.
  - unfold bind in H.
    destruct (onObjects (deepClone (ss_data s)) w) as [[d | e] w2] eqn:Hd;
      [| discriminate H].
    destruct (cloneAll rest w2) as [[rest' | e] w3] eqn:Hr; [| discriminate H].
    injection H as <- _. constructor; [| eapply IH; exact Hr].
    simpl. repeat split. intros Hp.
    unfold onObjects, deepClone in Hd. rewrite Hp in Hd. injection Hd as <- _.
    reflexivity.
Qed.

(** X21: [getHistory] returns one entry for each stored snapshot, in the
    order of the history, with the same id, timestamp and label (and the
    same data where it is a primitive); it leaves the manager as it is. *)
Theorem getHistory_entries (w w1 : Store) (copies : list StateSnapshot) :
  getHistory w = (Returns copies, w1) ->
  manager w1 = manager w
  /\ Forall2 (fun s c => ss_id c = ss_id s /\ ss_timestamp c = ss_timestamp s
                         /\ ss_intent c = ss_intent s
                         /\ (isPrimitive (ss_data s) = true -> ss_data c = ss_data s))
       (snapshots (manager w)) copies.
Proof.
  unfold getHistory, bind, gets. intros H. split.
  - pose proof (cloneAll_manager (snapshots (manager w)) w) as Hm.
    rewrite H in Hm. exact Hm.
  - eapply cloneAll_entries. exact H.
Qed.

(** X22: on a new manager, after [k] calls of [snapshot] that inserted
    their snapshot, the history holds the smaller of [k] and [maxSnapshots]
    entries, and [availableRollbacks] is one less than that, or 0 when
    there is none. *)
Theorem availableRollbacks_after_snapshots
  (config : RollbackManagerConfig) (h : heap)
  (calls : list (Ambient * value * jsstring)) :
  let w0 := {| manager := createRollbackManager config; objects := h |} in
  Forall isReturns (fst (snapshotAll calls w0)) ->
  length (snapshots (manager (snd (snapshotAll calls w0))))
  = Nat.min (length calls) (maxSnapshots (manager w0))
  /\ availableRollbacks (manager (snd (snapshotAll calls w0)))
     = Z.max 0 (Z.of_nat (Nat.min (length calls) (maxSnapshots (manager w0))) - 1).
Proof.
  intros w0 Hret.
  destruct (snapshotAll_history calls w0 Hret) as (created & Hcr & Hfinal);
    [simpl; lia |].
  apply Forall2_length in Hcr.
  assert (Hlen : length (snapshots (manager (snd (snapshotAll calls w0))))
                 = Nat.min (length calls) (maxSnapshots (manager w0))).
  { rewrite Hfinal. change (snapshots (manager w0)) with (@nil StateSnapshot).
    rewrite app_nil_l, length_drop. lia. }
  split; [exact Hlen |]. unfold availableRollbacks. rewrite Hlen. reflexivity.
Qed.


Lemma getHistory_entries_witness :
  exists copies w1,
    getHistory trimmedStore = (Returns copies, w1)
    /\ manager w1 = manager trimmedStore
    /\ length copies = 3%nat.
Proof.
  destruct (getHistory trimmedStore) as [o w1] eqn:Hg.
  assert (Hc : exists copies, o = Returns copies /\ length copies = 3%nat).
  { vm_compute in Hg. injection Hg as <- _. eexists. split; reflexivity. }
  destruct Hc as (copies & -> & Hlen). exists copies, w1. split; [reflexivity |].
  split; [| exact Hlen].
  exact (proj1 (getHistory_entries trimmedStore w1 copies Hg)).
Defined.

Lemma availableRollbacks_after_snapshots_witness :
  Forall isReturns
    (fst (snapshotAll trimCalls
            {| manager := createRollbackManager trimConfig; objects := [] |}))
  /\ length (snapshots (manager (snd (snapshotAll trimCalls
               {| manager := createRollbackManager trimConfig; objects := [] |}))))
     = 3%nat
  /\ availableRollbacks (manager (snd (snapshotAll trimCalls
               {| manager := createRollbackManager trimConfig; objects := [] |})))
     = 2.
Proof.
  assert (H : Forall isReturns
    (fst (snapshotAll trimCalls
            {| manager := createRollbackManager trimConfig; objects := [] |})))
    by (vm_compute; repeat constructor).
  split; [exact H |].
  exact (availableRollbacks_after_snapshots trimConfig [] trimCalls H).
Defined.

(** ** Relations kept by every step *)

Section Steps.

Context {W : Type}.
Variable R : W -> W -> Prop.
Hypothesis R_refl : forall w, R w w.
Hypothesis R_trans : forall w1 w2 w3, R w1 w2 -> R w2 w3 -> R w1 w3.

Lemma steps_ret {A} (a : A) : steps R (ret a).
Proof. intros w. apply R_refl. Qed.

Lemma steps_throw {A} (e : Error) : steps R (@throw W A e).
Proof. intros w. apply R_refl. Qed.

Lemma steps_gets {A} (f : W -> A) : steps R (gets f).
Proof. intros w. apply R_refl. Qed.

Lemma steps_liftOutcome {A} (o : outcome A) : steps R (liftOutcome o).
Proof. intros w. apply R_refl. Qed.

Lemma steps_bind {A B} (m : M W A) (k : A -> M W B) :
  steps R m -> (forall a, steps R (k a)) -> steps R (bind m k).
Proof.
  intros Hm Hk w. unfold bind. specialize (Hm w).
  destruct (m w) as [[a | e] w1]; simpl in Hm; [| exact Hm].
  eapply R_trans; [exact Hm | apply Hk].
Qed.

Lemma steps_tryCatch {A} (m : M W A) (handler : Error -> M W A) :
  steps R m -> (forall e, steps R (handler e)) -> steps R (tryCatch m handler).
Proof.
  intros Hm Hh w. unfold tryCatch. specialize (Hm w).
  destruct (m w) as [[a | e] w1]; simpl in Hm; [exact Hm |].
  eapply R_trans; [exact Hm | apply Hh].
Qed.

Variable JSON_parse : jsstring -> outcome json.
Variables (prompt : jsstring) (schema : ZodSchema).
Variable inference : jsstring -> M W jsstring.
Variable config : @CorrectionConfig W.

Hypothesis inference_steps : forall p, steps R (inference p).
Hypothesis onRetry_steps : forall attempts errors,
  steps R (settingsOnRetry config attempts errors).

Lemma loop_steps (remaining attempts : nat) :
  (settingsMaxRetries config - attempts)%nat = remaining ->
  forall cur history,
    steps R (correctionLoop JSON_parse prompt schema inference config
               attempts cur history).
Proof.
  revert attempts. induction remaining as [| d IH]; intros attempts Hrem cur history w;
    rewrite correctionLoop_equation_1;
    destruct (lt_dec attempts (settingsMaxRetries config)) as [Hlt | Hge];
    cbn [correctionLoop_unfold_clause_1]; try lia; try apply R_refl.
  unfold bind, liftOutcome.
  pose proof (inference_steps cur w) as H1.
  destruct (inference cur w) as [[r | e] w1]; simpl in H1; [| exact H1].
  destruct (validateResponse JSON_parse r schema) as [v | e]; [| exact H1].
  destruct (vr_success v); [exact H1 |].
  destruct (settingsMaxRetries config <=? S attempts)%nat; [exact H1 |].
  pose proof (onRetry_steps (S attempts) (vr_errors v) w1) as H2.
  destruct (settingsOnRetry config (S attempts) (vr_errors v) w1) as [[[] | e] w2];
    simpl in H2; [| eapply R_trans; eassumption].
  eapply R_trans; [exact H1 |]. eapply R_trans; [exact H2 |].
  apply IH. lia.
Qed.

Lemma executeWithCorrection_steps :
  steps R (executeWithCorrection JSON_parse prompt schema inference config).
Proof. unfold executeWithCorrection. eapply loop_steps. reflexivity. Qed.

End Steps.

(** ** Dispatch, for every inference capability *)

Lemma returns_ret {W A} (a : A) : returns (@ret W A a).
Proof. intros w. exists a. reflexivity. Qed.

Lemma returns_gets {W A} (f : W -> A) : returns (gets f).
Proof. intros w. eexists. reflexivity. Qed.

Lemma returns_modify {W} (f : W -> W) : returns (modify f).
Proof. intros w. exists tt. reflexivity. Qed.

Lemma returns_bind {W A B} (m : M W A) (k : A -> M W B) :
  returns m -> (forall a, returns (k a)) -> returns (bind m k).
Proof.
  intros Hm Hk w. unfold bind. destruct (Hm w) as [a Ha].
  destruct (m w) as [[a' | e] w1]; simpl in Ha; [| discriminate Ha].
  apply Hk.
Qed.

Lemma returns_tryCatch {W A} (m : M W A) (handler : Error -> M W A) :
  (forall e, returns (handler e)) -> returns (tryCatch m handler).
Proof.
  intros Hh w. unfold tryCatch.
  destruct (m w) as [[a | e] w1]; [exists a; reflexivity | apply Hh].
Qed.

Section DispatchSteps.

Context {E : Type}.
Variable JSON_parse : jsstring -> outcome json.
Variable buildPrompt : ZodSchema -> json -> jsstring -> jsstring -> jsstring.
Variable ambient : nat -> Ambient.
Variable awaitConfirmation : M E bool.
Variable synapse : @SynapseContextValue E.
Variable config : @SemanticStateConfig E.

Lemma returns_transition (event : jsstring) (payload : option json) :
  returns (transition (E := E) ambient event payload).
Proof.
  intros w. exists tt. unfold transition.
  destruct (getNextState (hk_machineState w) event); reflexivity.
Qed.

(** X23: [dispatch] never throws: whatever the inference capability, the
    gate, the change callback or the user's decision do, a rejection
    included, its promise is not rejected. *)
Theorem dispatch_never_throws (intent : jsstring) (w : @Hook E) :
  fst (dispatch JSON_parse buildPrompt ambient awaitConfirmation synapse config intent w)
  = Returns tt.
Proof.
  assert (H : returns (dispatch JSON_parse buildPrompt ambient awaitConfirmation
                         synapse config intent)).
  { unfold dispatch.
    apply returns_bind; [apply returns_gets | intros state].
    apply returns_bind; [apply returns_gets | intros previous].
    apply returns_bind;
      [destruct previous; [apply returns_modify | apply returns_ret] | intros _].
    apply returns_bind; [apply returns_modify | intros _].
    apply returns_bind; [apply returns_modify | intros _].
    apply returns_bind; [apply returns_transition | intros _].
    apply returns_tryCatch. intros e.
    apply returns_bind; [apply returns_modify | intros _].
    apply returns_transition. }
  destruct (H w) as [[] Ha]. exact Ha.
Qed.

Variable R : @Hook E -> @Hook E -> Prop.
Hypothesis R_refl : forall w, R w w.
Hypothesis R_trans : forall w1 w2 w3, R w1 w2 -> R w2 w3 -> R w1 w3.

Hypothesis setState_steps : forall s, steps R (setState s).
Hypothesis setStateContext_steps :
  forall f, (forall ctx, sc_history (f ctx) = sc_history ctx) ->
            steps R (setStateContext f).
Hypothesis setPendingState_steps : forall p, steps R (setPendingState p).
Hypothesis setAbortControllerRef_steps : forall c, steps R (setAbortControllerRef c).
Hypothesis outside_steps : forall A (m : M E A), steps R (outside m).
Hypothesis transition_steps :
  forall event payload, steps R (transition ambient event payload).

Ltac step :=
  first
    [ apply (steps_bind R R_trans); [| intros ?]
    | apply (steps_tryCatch R R_trans); [| intros ?]
    | apply (steps_ret R R_refl)
    | apply (steps_gets R R_refl)
    | apply setState_steps
    | apply setPendingState_steps
    | apply setAbortControllerRef_steps
    | apply outside_steps
    | apply transition_steps
    | apply setStateContext_steps; intros ?; reflexivity ].

Ltac steps_auto :=
  repeat first
    [ step
    | apply (executeWithCorrection_steps R R_refl R_trans);
      [ intros ? | intros ? ?; unfold settingsOnRetry, correctionConfig; simpl ]
    | match goal with
      | |- steps _ (if ?b then _ else _) => destruct b
      | |- steps _ (match ?x with _ => _ end) => destruct x
      end ].

Lemma settle_steps (state newState : json) (intent : jsstring) :
  steps R (settle ambient awaitConfirmation synapse config state newState intent).
Proof. unfold settle, notifyChange. cbv zeta. steps_auto. Qed.

(** A relation that the hook's own operations step by is stepped by by
    every dispatch. *)
Lemma dispatch_steps (intent : jsstring) :
  steps R (dispatch JSON_parse buildPrompt ambient awaitConfirmation synapse config intent).
Proof.
  unfold dispatch. cbv zeta.
  repeat first
    [ apply settle_steps
    | step
    | apply (executeWithCorrection_steps R R_refl R_trans);
      [ intros ? | intros ? ?; unfold settingsOnRetry, correctionConfig; simpl ]
    | match goal with
      | |- steps _ (if ?b then _ else _) => destruct b
      | |- steps _ (match ?x with _ => _ end) => destruct x
      end ].
Qed.

End DispatchSteps.

Lemma auditPath_app (s s1 s2 : MachineState) (a b : list AuditEntry) :
  auditPath s a s1 -> auditPath s1 b s2 -> auditPath s (a ++ b) s2.
Proof.
  revert s. induction a as [| e a IH]; intros s Ha Hb; simpl in *.
  - subst. exact Hb.
  - destruct Ha as (Hf & Hn & Ha). repeat split; try assumption. apply IH; assumption.
Qed.

Lemma auditExtends_refl {E} (w : @Hook E) : auditExtends w w.
Proof. exists []. rewrite app_nil_r. split; reflexivity. Qed.

Lemma auditExtends_trans {E} (w1 w2 w3 : @Hook E) :
  auditExtends w1 w2 -> auditExtends w2 w3 -> auditExtends w1 w3.
Proof.
  intros (a & Ha & Hpa) (b & Hb & Hpb). exists (a ++ b). split.
  - rewrite Hb, Ha, app_assoc. reflexivity.
  - eapply auditPath_app; eassumption.
Qed.

(** X24: the audit log of a dispatch.  Whatever happens during a dispatch,
    the log it leaves is the log it found with entries added at the end;
    the added entries are transitions of the table, each starting in the
    state the one before it ended in, the first in the machine state before
    the dispatch and the last ending in the machine state after it.  So the
    log is never rewritten and the machine state never changes without an
    entry. *)
Theorem dispatch_audit_log {E : Type}
  (JSON_parse : jsstring -> outcome json)
  (buildPrompt : ZodSchema -> json -> jsstring -> jsstring -> jsstring)
  (ambient : nat -> Ambient) (awaitConfirmation : M E bool)
  (synapse : @SynapseContextValue E) (config : @SemanticStateConfig E)
  (intent : jsstring) (w : @Hook E) :
  auditExtends w
    (snd (dispatch JSON_parse buildPrompt ambient awaitConfirmation synapse config intent w)).
Proof.
  apply (dispatch_steps JSON_parse buildPrompt ambient awaitConfirmation synapse config
           auditExtends auditExtends_refl auditExtends_trans).
  - intros s w0. exists []. simpl. rewrite app_nil_r. split; reflexivity.
  - intros f Hf w0. exists []. simpl. rewrite Hf, app_nil_r. split; reflexivity.
  - intros p w0. exists []. simpl. rewrite app_nil_r. split; reflexivity.
  - intros c w0. exists []. simpl. rewrite app_nil_r. split; reflexivity.
  - intros A m w0. unfold outside. destruct (m (hk_outside w0)) as [r e'].
    exists []. simpl. rewrite app_nil_r. split; reflexivity.
  - intros event payload w0. unfold transition.
    destruct (getNextState (hk_machineState w0) event) as [next |] eqn:Hn.
    + eexists [_]. simpl. split; [reflexivity |]. repeat split. exact Hn.
    + apply auditExtends_refl.
Qed.

(** ** Dispatch, scenario by scenario *)

Lemma bind_gets {W A B} (f : W -> A) (k : A -> M W B) (w : W) :
  bind (gets f) k w = k (f w) w.
Proof. reflexivity. Qed.

Lemma bind_modify {W B} (f : W -> W) (k : unit -> M W B) (w : W) :
  bind (modify f) k w = k tt (f w).
Proof. reflexivity. Qed.

Lemma bind_ret {W A B} (a : A) (k : A -> M W B) (w : W) :
  bind (ret a) k w = k a w.
Proof. reflexivity. Qed.

Lemma bind_returns {W A B} (m : M W A) (k : A -> M W B) (w w1 : W) (a : A) :
  m w = (Returns a, w1) -> bind m k w = k a w1.
Proof. intros H. unfold bind. rewrite H. reflexivity. Qed.

Lemma bind_throws {W A B} (m : M W A) (k : A -> M W B) (w w1 : W) (e : Error) :
  m w = (Throws e, w1) -> bind m k w = (Throws e, w1).
Proof. intros H. unfold bind. rewrite H. reflexivity. Qed.

Lemma tryCatch_throws {W A} (m : M W A) (handler : Error -> M W A) (w w1 : W) (e : Error) :
  m w = (Throws e, w1) -> tryCatch m handler w = handler e w1.
Proof. intros H. unfold tryCatch. rewrite H. reflexivity. Qed.

Lemma tryCatch_returns {W A} (m : M W A) (handler : Error -> M W A) (w w1 : W) (a : A) :
  m w = (Returns a, w1) -> tryCatch m handler w = (Returns a, w1).
Proof. intros H. unfold tryCatch. rewrite H. reflexivity. Qed.

Lemma bind_bind {W A B C} (m : M W A) (f : A -> M W B) (g : B -> M W C) (w : W) :
  bind (bind m f) g w = bind m (fun a => bind (f a) g) w.
Proof. unfold bind. destruct (m w) as [[a | e] w1]; reflexivity. Qed.

Section AllInvalidReturns.

Variable JSON_parse : jsstring -> outcome json.
Context {W : Type}.
Variables (prompt : jsstring) (schema : ZodSchema).
Variable inference : jsstring -> M W jsstring.
Variable config : @CorrectionConfig W.

Hypothesis all_invalid :
  forall p w, exists r w', inference p w = (Returns r, w') /\ fails JSON_parse schema r.
Hypothesis onRetry_returns :
  forall attempts errors w, exists w',
    settingsOnRetry config attempts errors w = (Returns tt, w').

Lemma loop_all_invalid_returns (remaining attempts : nat) :
  (settingsMaxRetries config - attempts)%nat = remaining ->
  forall (cur : jsstring) (history : list AttemptRecord) (w : W),
  exists res w',
    correctionLoop JSON_parse prompt schema inference config attempts cur history w
    = (Returns res, w')
    /\ cr_success res = false /\ cr_data res = None.
Proof.
  revert attempts. induction remaining as [| d IH]; intros attempts Hrem cur history w.
  - rewrite loop_exhausted by lia. eexists _, w. repeat split; reflexivity.
  - destruct (all_invalid cur w) as (r & w1 & Hi & v & Hv & Hs).
    destruct (Nat.le_gt_cases (settingsMaxRetries config) (S attempts)) as [Hlast | Hmore].
    + rewrite (loop_invalid_last _ _ _ _ _ attempts cur history w w1 r v);
        [| lia | exact Hlast | exact Hi | exact Hv | exact Hs].
      eexists _, w1. repeat split; reflexivity.
    + destruct (onRetry_returns (S attempts) (vr_errors v) w1) as [w2 Hr].
      rewrite (loop_invalid_retry _ _ _ _ _ attempts cur history w w1 w2 r v);
        [| exact Hmore | exact Hi | exact Hv | exact Hs | exact Hr].
      apply IH. lia.
Qed.

End AllInvalidReturns.

Lemma generatingKept_refl {E} (w : @Hook E) : generatingKept w w.
Proof. intros H. repeat split; auto. Qed.

Lemma generatingKept_trans {E} (w1 w2 w3 : @Hook E) :
  generatingKept w1 w2 -> generatingKept w2 w3 -> generatingKept w1 w3.
Proof.
  intros H12 H23 H1. destruct (H12 H1) as (Hm & Ha & Hb & Hc & Hd & He & Hf & Hg & Hh).
  destruct (H23 Hm) as (Hm' & Ha' & Hb' & Hc' & Hd' & He' & Hf' & Hg' & Hh').
  repeat split; congruence.
Qed.

Section Scenarios.

Context {E : Type}.
Variable JSON_parse : jsstring -> outcome json.
Variable buildPrompt : ZodSchema -> json -> jsstring -> jsstring -> jsstring.
Variable ambient : nat -> Ambient.
Variable awaitConfirmation : M E bool.
Variable synapse : @SynapseContextValue E.
Variable config : @SemanticStateConfig E.

Lemma transition_valid (event : jsstring) (payload : option json) (next : MachineState)
  (w : @Hook E) :
  getNextState (hk_machineState w) event = Some next ->
  transition ambient event payload w
  = (Returns tt,
     {| hk_state := hk_state w; hk_machineState := next;
        hk_stateContext :=
          withEntry
            (createAuditEntry (now (ambient (hk_ambientReads w)))
               (suffix (ambient (hk_ambientReads w)))
               (now' (ambient (hk_ambientReads w)))
               (hk_machineState w) next event payload)
            (hk_stateContext w);
        hk_pendingState := hk_pendingState w;
        hk_abortControllerRef := hk_abortControllerRef w;
        hk_ambientReads := S (hk_ambientReads w); hk_outside := hk_outside w |}).
Proof. intros H. unfold transition. rewrite H. reflexivity. Qed.

Lemma transition_invalid (event : jsstring) (payload : option json) (w : @Hook E) :
  getNextState (hk_machineState w) event = None ->
  transition ambient event payload w = (Returns tt, w).
Proof. intros H. unfold transition. rewrite H. reflexivity. Qed.

Ltac hook_simpl :=
  cbn [hk_state hk_machineState hk_stateContext hk_pendingState hk_abortControllerRef
       hk_ambientReads hk_outside sc_data sc_optimisticData sc_currentIntent sc_error
       sc_retryCount sc_confidence sc_history withCurrentIntent withError withRetryCount
       withConfidence withEntry fst snd aborted default fmap option_fmap option_map
       from_option id].

Ltac run :=
  repeat first
    [ rewrite bind_bind
    | rewrite bind_gets
    | rewrite bind_modify
    | rewrite bind_ret
    | progress hook_simpl
    | progress cbn beta iota ].

Lemma bind_transition_valid {B} (event : jsstring) (payload : option json)
  (next : MachineState) (k : unit -> M (@Hook E) B) (w : @Hook E) :
  getNextState (hk_machineState w) event = Some next ->
  bind (transition ambient event payload) k w
  = k tt {| hk_state := hk_state w; hk_machineState := next;
            hk_stateContext :=
              withEntry
                (createAuditEntry (now (ambient (hk_ambientReads w)))
                   (suffix (ambient (hk_ambientReads w)))
                   (now' (ambient (hk_ambientReads w)))
                   (hk_machineState w) next event payload)
                (hk_stateContext w);
            hk_pendingState := hk_pendingState w;
            hk_abortControllerRef := hk_abortControllerRef w;
            hk_ambientReads := S (hk_ambientReads w); hk_outside := hk_outside w |}.
Proof. intros H. apply bind_returns, transition_valid, H. Qed.

Lemma bind_transition_invalid {B} (event : jsstring) (payload : option json)
  (k : unit -> M (@Hook E) B) (w : @Hook E) :
  getNextState (hk_machineState w) event = None ->
  bind (transition ambient event payload) k w = k tt w.
Proof. intros H. apply bind_returns, transition_invalid, H. Qed.

(** X25: when the first call of the inference capability rejects, a
    dispatch started in IDLE does not call it again: the machine ends in
    REJECTED through the ERROR transition, the rejection is recorded as the
    error of the context, and the committed state is untouched. *)
Theorem dispatch_rejection_first_call (intent : jsstring) (w : @Hook E)
  (err : Error) (e1 : E) :
  hk_machineState w = IDLE ->
  (1 <= synapse_maxRetries synapse)%nat ->
  provider_inference synapse
    (buildPrompt (schema config) (hk_state w) intent (context config)) (hk_outside w)
  = (Throws err, e1) ->
  let w' := snd (dispatch JSON_parse buildPrompt ambient awaitConfirmation
                   synapse config intent w) in
  hk_machineState w' = REJECTED
  /\ sc_error (hk_stateContext w') = Some err
  /\ hk_state w' = hk_state w
  /\ hk_outside w' = e1.
Proof.
  intros Hidle Hmax Hthrow w'. subst w'.
  destruct w as [state ms ctx pending abortRef reads out]. simpl in *. subst ms.
  destruct abortRef as [previous |];
  match goal with
  | |- context [dispatch ?a ?b ?c ?d ?e ?f ?g ?w] =>
      eassert (Hrun : dispatch a b c d e f g w = _)
  end.
  1, 3: unfold dispatch, setAbortControllerRef, setStateContext; run;
    rewrite (bind_transition_valid _ _ GENERATING) by reflexivity;
    run;
    (erewrite tryCatch_throws;
     [| run; erewrite bind_throws; [reflexivity |];
        unfold executeWithCorrection; apply loop_throws; [exact Hmax |];
        unfold outside; hook_simpl; rewrite Hthrow; reflexivity ]);
    run; rewrite transition_valid with (next := REJECTED) by reflexivity;
    reflexivity.
  all: rewrite Hrun; hook_simpl; auto.
Qed.

(** The correction loop of a dispatch, run in a hook whose machine is
    GENERATING, leaves the machine there and the hook's state, log and
    pending change as they are. *)
Lemma dispatch_loop_kept (prompt : jsstring) (w : @Hook E) :
  generatingKept w
    (snd (executeWithCorrection JSON_parse prompt (schema config)
            (fun p => outside (provider_inference synapse p))
            (correctionConfig ambient synapse) w)).
Proof.
  apply (executeWithCorrection_steps generatingKept generatingKept_refl
           generatingKept_trans).
  - intros p w0 H0. unfold outside.
    destruct (provider_inference synapse p (hk_outside w0)) as [r e']. simpl.
    repeat split; auto.
  - intros attempts errors w0 H0. unfold settingsOnRetry, correctionConfig. simpl.
    unfold setStateContext. rewrite bind_modify.
    rewrite transition_invalid by (hook_simpl; rewrite H0; reflexivity).
    simpl. repeat split; auto.
Qed.

(** X26: when every response of the inference capability fails validation,
    whatever [maxRetries] is, a dispatch started in IDLE leaves the committed
    state and the pending change untouched, records the error "Failed to
    generate valid state after retries", and adds two audit entries, for
    IDLE to GENERATING and GENERATING to VALIDATING: the machine is left in
    VALIDATING. *)
Theorem dispatch_all_invalid (intent : jsstring) (w : @Hook E) :
  hk_machineState w = IDLE ->
  (forall p e, exists r e',
      provider_inference synapse p e = (Returns r, e')
      /\ fails JSON_parse (schema config) r) ->
  let w' := snd (dispatch JSON_parse buildPrompt ambient awaitConfirmation
                   synapse config intent w) in
  hk_state w' = hk_state w
  /\ hk_pendingState w' = hk_pendingState w
  /\ sc_error (hk_stateContext w')
     = Some (newError "Failed to generate valid state after retries")
  /\ hk_machineState w' = VALIDATING
  /\ exists e1 e2,
       sc_history (hk_stateContext w') = sc_history (hk_stateContext w) ++ [e1; e2]
       /\ entryStep e1 = (IDLE, js "DISPATCH_NO_OPTIMISTIC", GENERATING)
       /\ entryStep e2 = (GENERATING, js "RESPONSE_RECEIVED", VALIDATING).
Proof.
  intros Hidle Hinvalid w'. subst w'.
  destruct w as [state ms ctx pending abortRef reads out]. simpl in *. subst ms.
  pose (p := buildPrompt (schema config) state intent (context config)).
  pose (w2 := {| hk_state := state; hk_machineState := GENERATING;
                 hk_stateContext :=
                   withEntry
                     (createAuditEntry (now (ambient reads)) (suffix (ambient reads))
                        (now' (ambient reads)) IDLE GENERATING
                        (js "DISPATCH_NO_OPTIMISTIC") None)
                     (withCurrentIntent intent ctx);
                 hk_pendingState := pending;
                 hk_abortControllerRef := Some {| aborted := false |};
                 hk_ambientReads := S reads;
                 hk_outside := out |}).
  pose proof (dispatch_loop_kept p w2 eq_refl) as Hkept.
  destruct (loop_all_invalid_returns JSON_parse p (schema config)
              (fun p => outside (provider_inference synapse p))
              (correctionConfig ambient synapse)) with (w := w2)
    (remaining := settingsMaxRetries (correctionConfig (E := E) ambient synapse))
    (attempts := 0%nat) (cur := p) (history := @nil AttemptRecord)
    as (res & w3 & Hloop & Hsucc & Hdata).
  { intros p0 w0. destruct (Hinvalid p0 (hk_outside w0)) as (r & e' & Hp & Hf).
    eexists r, _. split; [unfold outside; rewrite Hp; reflexivity | exact Hf]. }
  { intros attempts errors w0. unfold settingsOnRetry, correctionConfig. simpl.
    unfold setStateContext. rewrite bind_modify. unfold transition.
    match goal with |- context [getNextState ?a ?b] => destruct (getNextState a b) end;
      eexists; reflexivity. }
  { lia. }
  unfold executeWithCorrection in Hkept. rewrite Hloop in Hkept. simpl in Hkept.
  destruct w3 as [state3 ms3 ctx3 pending3 abortRef3 reads3 out3].
  simpl in Hkept.
  destruct Hkept as (-> & -> & -> & -> & -> & Hhist & Herr & Hint & Hconf).
  subst p w2.
  destruct abortRef as [previous |];
  match goal with
  | |- context [dispatch ?a ?b ?c ?d ?e ?f ?g ?w] =>
      eassert (Hrun : dispatch a b c d e f g w = _)
  end.
  1, 3: unfold dispatch, setAbortControllerRef, setStateContext; run;
    rewrite (bind_transition_valid _ _ GENERATING) by reflexivity;
    run;
    (erewrite tryCatch_returns;
     [| run; erewrite bind_returns by (unfold executeWithCorrection; exact Hloop);
        rewrite (bind_transition_valid _ _ VALIDATING) by reflexivity;
        rewrite Hsucc; cbn [negb orb];
        unfold setStateContext; run;
        rewrite transition_invalid by reflexivity; reflexivity ]);
    reflexivity.
  all: rewrite Hrun; hook_simpl; rewrite Hhist; hook_simpl;
    repeat split; try reflexivity;
    eexists _, _; (split; [rewrite <- app_assoc; reflexivity |]); split; reflexivity.
Qed.







End Scenarios.

Lemma dispatch_rejection_first_call_witness :
  let synapse := exampleSynapse (Throws (newError "Network error")) in
  let config := exampleConfig None in
  let w' := snd (dispatch parseEmpties intentOnly sameAmbient userRefuses
                   synapse config (js "Add buy milk") (initialHook config 0%nat)) in
  hk_machineState w' = REJECTED
  /\ sc_error (hk_stateContext w') = Some (newError "Network error")
  /\ hk_state w' = JObj []
  /\ hk_outside w' = 1%nat.
Proof.
  intros synapse config.
  apply (dispatch_rejection_first_call parseEmpties intentOnly sameAmbient userRefuses
           synapse config (js "Add buy milk") (initialHook config 0%nat)
           (newError "Network error") 1%nat).
  - reflexivity.
  - simpl. lia.
  - reflexivity.
Defined.

Lemma dispatch_all_invalid_witness :
  let synapse := exampleSynapse (Returns (js "not json")) in
  let config := exampleConfig None in
  (forall p e, exists r e',
      provider_inference synapse p e = (Returns r, e')
      /\ fails parseEmpties (schema config) r)
  /\ hk_machineState
       (snd (dispatch parseEmpties intentOnly sameAmbient userRefuses
               synapse config (js "Add buy milk") (initialHook config 0%nat)))
     = VALIDATING.
Proof.
  intros synapse config.
  assert (H : forall p e, exists r e',
             provider_inference synapse p e = (Returns r, e')
             /\ fails parseEmpties (schema config) r).
  { intros p e. exists (js "not json"), (S e). split; [reflexivity |].
    eexists. split; reflexivity. }
  split; [exact H |].
  apply (dispatch_all_invalid parseEmpties intentOnly sameAmbient userRefuses
           synapse config (js "Add buy milk") (initialHook config 0%nat)
           eq_refl H).
Defined.


